(** * Verification of the ledger clean-up service (main.go)

    The program reads a spreadsheet workbook, drops boilerplate rows of
    every sheet, reads the reference, memo and amount columns of what is
    left, and writes each row to one of two CSV texts, by the sign of its
    amount (CleanSpreadsheet); a handler wraps the two texts in a zip
    archive (uploadHandler).

    The development is a shallow embedding.  The functions of main.go are
    translated line by line.  The library functions they call (Go's
    strings, strconv, encoding/csv and bufio, and excelize's workbook
    operations) are not part of the repository; each is given an
    executable model in a module named after its package, with the
    behaviour it is modelled from stated above it.

    Strings are byte strings, as in Go.  Go's int only counts rows here,
    and is a Z.  What fmt.Printf and fmt.Println write to the standard
    output does not reach the values the functions return; it is left out
    of the translations, but for a second one of CleanSpreadsheet,
    [CleanSpreadsheetIO], which runs in a world of files and printed
    lines. *)

From Stdlib Require Import ZArith List String Ascii Bool Lia.
Import ListNotations.

Local Open Scope string_scope.
Local Open Scope list_scope.
Local Open Scope Z_scope.

(** ** Results and errors *)

(** The errors CleanSpreadsheet can return or inspect. *)
Inductive error : Type :=
| ErrOpen                          (* excelize.OpenFile failed *)
| ErrInvalidRowNumber (row : Z)    (* excelize: invalid row number *)
| ErrSyntax                        (* strconv.ErrSyntax *)
| ErrRange.                        (* strconv.ErrRange *)

(** A Go result [(v, err)]: [OK v] stands for [err == nil]. *)
Inductive result (A : Type) : Type :=
| OK (v : A)
| Err (e : error).

Arguments OK {A} v.
Arguments Err {A} e.

Definition bind {A B : Type} (r : result A) (k : A -> result B) : result B :=
  match r with
  | OK v => k v
  | Err e => Err e
  end.

Notation "x <- r ;; k" := (bind r (fun x => k))
  (at level 61, r at next level, right associativity).
Notation "' p <- r ;; k" := (bind r (fun x => let p := x in k))
  (at level 61, p pattern, r at next level, right associativity).

(** ** Bytes *)

Definition code (c : ascii) : Z := Z.of_N (N_of_ascii c).

Definition isDigit (c : ascii) : bool := (48 <=? code c) && (code c <=? 57).

Definition digitVal (c : ascii) : Z := code c - 48.

(** Go's [lower(c)] of strconv: [c | ('x' - 'X')]. *)
Definition lower (c : ascii) : Z := Z.lor (code c) 32.

Definition isHexLetter (c : ascii) : bool := (97 <=? lower c) && (lower c <=? 102).

Definition hexLetterVal (c : ascii) : Z := lower c - 97 + 10.

Definition digitChar (d : Z) : ascii := ascii_of_N (Z.to_N (48 + d)).

(** ** Package strings *)

Module Strings.

(** [strings.Replace(s, ",", "", -1)] for a one-byte [old] and an empty
    [new]: every occurrence of the byte is dropped. *)
Fixpoint RemoveAll (old : ascii) (s : string) : string :=
  match s with
  | EmptyString => EmptyString
  | String c s' =>
      if Ascii.eqb c old then RemoveAll old s' else String c (RemoveAll old s')
  end.

(** [strings.HasPrefix(s, p)] for a one-byte [p]. *)
Definition HasPrefix (s : string) (p : ascii) : bool :=
  match s with
  | EmptyString => false
  | String c _ => Ascii.eqb c p
  end.

End Strings.

(** ** Package strconv *)

Module Strconv.

(** A float64, by its IEEE 754 class.  [Finite neg m e] is
    [(-1)^neg * m * 2^e]; the values ParseFloat returns have
    [2^52 <= m < 2^53] and [-1074 <= e <= 971] (normal) or [m < 2^52] and
    [e = -1074] (subnormal).  The payload of a NaN is never looked at. *)
Inductive float64 : Type :=
| Zero (neg : bool)
| Inf (neg : bool)
| NaN
| Finite (neg : bool) (m : Z) (e : Z).

(** Go's unary minus on a float64. *)
Definition Neg (f : float64) : float64 :=
  match f with
  | Zero s => Zero (negb s)
  | Inf s => Inf (negb s)
  | NaN => NaN
  | Finite s m e => Finite (negb s) m e
  end.

Definition mantbits : Z := 52.
Definition minExp : Z := -1074.   (* exponent of the smallest subnormal *)
Definition maxExp : Z := 971.     (* exponent of the largest finite value *)

(** *** Rounding a positive rational to the nearest float64 *)

(** The nearest integer to [n / d], ties to the even one. *)
Definition roundHalfEven (n d : Z) : Z :=
  let q := n / d in
  let r := n mod d in
  if 2 * r <? d then q
  else if d <? 2 * r then q + 1
  else if Z.even q then q else q + 1.

(** A power of two with an integer exponent [k], as the fraction
    [pow2Num k / pow2Den k]. *)
Definition pow2Num (k : Z) : Z := 2 ^ Z.max 0 k.
Definition pow2Den (k : Z) : Z := 2 ^ Z.max 0 (- k).

(** [2^k <= n / d], for any integer [k]. *)
Definition geqPow2 (n d k : Z) : bool := d * pow2Num k <=? n * pow2Den k.

(** [floor (log2 (n / d))] for positive [n] and [d]. *)
Definition floorLog2 (n d : Z) : Z :=
  let k := Z.log2 n - Z.log2 d in
  if geqPow2 n d k then k else k - 1.

(** [n / (d * 2^e)] rounded to the nearest integer, ties to even. *)
Definition roundScaled (n d e : Z) : Z :=
  roundHalfEven (n * pow2Den e) (d * pow2Num e).

(** IEEE 754 round-to-nearest-even of [n / d] (both positive) to binary64:
    the exponent is that of the binade of [n / d], not below the subnormal
    exponent; a mantissa rounded up to [2^53] moves to the next binade; a
    result past the largest finite value is a range error. *)
Definition roundToFloat (neg : bool) (n d : Z) : result float64 :=
  let e := Z.max (floorLog2 n d - mantbits) minExp in
  let m := roundScaled n d e in
  let '(m, e) := if m =? 2 ^ (mantbits + 1) then (2 ^ mantbits, e + 1) else (m, e) in
  if maxExp <? e then Err ErrRange
  else if m =? 0 then OK (Zero neg)
  else OK (Finite neg m e).

(** *** ParseFloat: the scanner *)

(** [commonPrefixLenIgnoreCase(s, prefix)], [prefix] in lower case. *)
Fixpoint commonPrefixLenIgnoreCase (s prefix : string) : nat :=
  match s, prefix with
  | String c s', String p prefix' =>
      let c' := if (65 <=? code c) && (code c <=? 90) then code c + 32 else code c in
      if c' =? code p then S (commonPrefixLenIgnoreCase s' prefix') else O
  | _, _ => O
  end.

(** The branch of [special] for "inf" and "infinity", after [nsign] bytes
    of sign: anything between the two counts as "inf". *)
Definition specialInf (neg : bool) (nsign : nat) (t : string) : option (float64 * nat) :=
  let n := commonPrefixLenIgnoreCase t "infinity" in
  let n := if (3 <? n)%nat && (n <? 8)%nat then 3%nat else n in
  if (n =? 3)%nat || (n =? 8)%nat then Some (Inf neg, (nsign + n)%nat) else None.

(** [special(s)]: the infinities and NaN, with the number of bytes read. *)
Definition special (s : string) : option (float64 * nat) :=
  match s with
  | EmptyString => None
  | String c t =>
      if Ascii.eqb c "+" then specialInf false 1%nat t
      else if Ascii.eqb c "-" then specialInf true 1%nat t
      else if Ascii.eqb c "i" || Ascii.eqb c "I" then specialInf false 0%nat s
      else if Ascii.eqb c "n" || Ascii.eqb c "N" then
        if (commonPrefixLenIgnoreCase s "nan" =? 3)%nat then Some (NaN, 3%nat) else None
      else None
  end.

(** The variables of readFloat's digit loop.  The mantissa is kept in full:
    Go keeps 19 digits and a flag saying that more followed, and converts
    from the full digit string when the flag matters, so the value read is
    that of all the digits. *)
Record scan : Type := mkScan {
  sawdot : bool;
  sawdigits : bool;
  nd : Z;
  dp : Z;
  mantissa : Z;
  underscores : bool
}.

(** readFloat's digit loop: returns the variables and the unread rest. *)
Fixpoint readDigits (hex : bool) (st : scan) (s : string) : scan * string :=
  match s with
  | EmptyString => (st, s)
  | String c s' =>
      if Ascii.eqb c "_" then
        readDigits hex (mkScan (sawdot st) (sawdigits st) (nd st) (dp st) (mantissa st) true) s'
      else if Ascii.eqb c "." then
        if sawdot st then (st, s)
        else readDigits hex (mkScan true (sawdigits st) (nd st) (nd st) (mantissa st) (underscores st)) s'
      else if isDigit c then
        if Ascii.eqb c "0" && (nd st =? 0) then
          readDigits hex (mkScan (sawdot st) true (nd st) (dp st - 1) (mantissa st) (underscores st)) s'
        else
          readDigits hex
            (mkScan (sawdot st) true (nd st + 1) (dp st)
               (mantissa st * (if hex then 16 else 10) + digitVal c) (underscores st)) s'
      else if hex && isHexLetter c then
        readDigits hex
          (mkScan (sawdot st) true (nd st + 1) (dp st)
             (mantissa st * 16 + hexLetterVal c) (underscores st)) s'
      else (st, s)
  end.

(** The digits of an exponent: the value stops growing at 10000. *)
Fixpoint readExpDigits (e : Z) (us : bool) (s : string) : Z * bool * string :=
  match s with
  | EmptyString => (e, us, s)
  | String c s' =>
      if isDigit c then
        readExpDigits (if e <? 10000 then e * 10 + digitVal c else e) us s'
      else if Ascii.eqb c "_" then readExpDigits e true s'
      else (e, us, s)
  end.

(** [underscoreOK(s)]: an underscore stands only between digits, or after a
    base prefix.  [saw] is the last byte seen: 0 for a digit or base prefix,
    1 for an underscore, 2 for anything else or the start. *)
Fixpoint underscoreLoop (hex : bool) (saw : Z) (s : string) : bool :=
  match s with
  | EmptyString => negb (saw =? 1)
  | String c s' =>
      if isDigit c || (hex && isHexLetter c) then underscoreLoop hex 0 s'
      else if Ascii.eqb c "_" then
        if saw =? 0 then underscoreLoop hex 1 s' else false
      else if saw =? 1 then false
      else underscoreLoop hex 2 s'
  end.

Definition underscoreOK (s : string) : bool :=
  let s := match s with
           | String c t => if Ascii.eqb c "-" || Ascii.eqb c "+" then t else s
           | EmptyString => s
           end in
  match s with
  | String c0 (String c1 t) =>
      if Ascii.eqb c0 "0" && ((lower c1 =? 98) || (lower c1 =? 111) || (lower c1 =? 120))
      then underscoreLoop (lower c1 =? 120) 0 t
      else underscoreLoop false 2 s
  | _ => underscoreLoop false 2 s
  end.

(** What readFloat returns when [ok]: the sign, the base, the mantissa, the
    exponent of the base-10 or base-2 scale, and the unread rest. *)
Record number : Type := mkNumber {
  negative : bool;
  isHex : bool;
  mant : Z;
  expo : Z;
  rest : string
}.

Definition prefixBefore (s rest : string) : string :=
  substring 0 (String.length s - String.length rest) s.

(** The optional sign. *)
Definition readSign (s : string) : bool * string :=
  match s with
  | EmptyString => (false, s)
  | String c t =>
      if Ascii.eqb c "+" then (false, t)
      else if Ascii.eqb c "-" then (true, t)
      else (false, s)
  end.

(** The base prefix: "0x" or "0X" with something after it. *)
Definition hexPrefix (t : string) : bool * string :=
  match t with
  | String d0 (String d1 (String d2 t')) =>
      if Ascii.eqb d0 "0" && (lower d1 =? 120) then (true, String d2 t') else (false, t)
  | _ => (false, t)
  end.

(** The end of readFloat: the underscores are checked on the bytes read,
    [s] without [t]. *)
Definition finishNumber (s : string) (neg hex : bool) (st : scan) (nd1 dp2 : Z)
    (us : bool) (t : string) : option number :=
  if us && negb (underscoreOK (prefixBefore s t)) then None
  else Some (mkNumber neg hex (mantissa st)
               (if mantissa st =? 0 then 0 else dp2 - nd1) t).

(** The optional exponent, which a hexadecimal number must have: [e] or
    [p], a sign, digits. *)
Definition readExponent (s : string) (neg hex : bool) (st : scan) (t : string)
  : option number :=
  let dp0 := if sawdot st then dp st else nd st in
  let '(dp1, nd1) := if hex then (dp0 * 4, nd st * 4) else (dp0, nd st) in
  match t with
  | String c t1 =>
      if lower c =? (if hex then 112 else 101) then
        match t1 with
        | EmptyString => None
        | String c1 t2 =>
            let '(esign, t3) :=
              if Ascii.eqb c1 "+" then (1, t2)
              else if Ascii.eqb c1 "-" then (-1, t2)
              else (1, t1) in
            match t3 with
            | EmptyString => None
            | String c3 _ =>
                if negb (isDigit c3) then None
                else
                  let '(e, us, t4) := readExpDigits 0 (underscores st) t3 in
                  finishNumber s neg hex st nd1 (dp1 + e * esign) us t4
            end
        end
      else if hex then None
      else finishNumber s neg hex st nd1 dp1 (underscores st) t
  | EmptyString =>
      if hex then None else finishNumber s neg hex st nd1 dp1 (underscores st) t
  end.

Definition readFloat (s : string) : option number :=
  match s with
  | EmptyString => None
  | String _ _ =>
      let '(neg, t) := readSign s in
      let '(hex, t) := hexPrefix t in
      let '(st, t) := readDigits hex (mkScan false false 0 0 0 false) t in
      if negb (sawdigits st) then None
      else readExponent s neg hex st t
  end.

Fixpoint numDigitsFuel (fuel : nat) (n : Z) : nat :=
  match fuel with
  | O => 1%nat
  | S fuel' => if n <? 10 then 1%nat else S (numDigitsFuel fuel' (n / 10))
  end.

(** The number of decimal digits of [n >= 0] (one for zero). *)
Definition numDigits (n : Z) : nat := numDigitsFuel (S (Z.to_nat (Z.log2 n))) n.

(** The value a scanned number stands for, rounded: [mant * 10^expo], or
    [mant * 2^expo] for a hexadecimal one.  As Go's decimal conversion
    does, a decimal whose point lies more than 310 places right of its first
    digit is out of range at once, and one whose point lies more than 330
    places left of it is zero. *)
Definition numberValue (x : number) : result float64 :=
  if mant x =? 0 then OK (Zero (negative x))
  else if isHex x then
    roundToFloat (negative x) (mant x * 2 ^ Z.max 0 (expo x)) (2 ^ Z.max 0 (- expo x))
  else
    let point := Z.of_nat (numDigits (mant x)) + expo x in
    if 310 <? point then Err ErrRange
    else if point <? -330 then OK (Zero (negative x))
    else roundToFloat (negative x) (mant x * 10 ^ Z.max 0 (expo x)) (10 ^ Z.max 0 (- expo x)).

(** Modelled from the spec: "Parse the cleaned string as a decimal number;
    on parse failure, log and skip the row".  The parser main.go calls is
    [strconv.ParseFloat(s, 64)] of Go's library, which the repository does
    not contain; the model follows its documentation.  It accepts decimal
    and hexadecimal floating-point numbers in Go's syntax, underscores
    between digits, and NaN, Inf and Infinity in any case, the last two
    with a sign; the whole of [s] must be read.  The result is the nearest
    float64, ties to even; a value that rounds past the largest float64 is
    returned with ErrRange, which the caller treats like any other error. *)
Definition ParseFloat (s : string) : result float64 :=
  match special s with
  | Some (f, n) => if (n =? String.length s)%nat then OK f else Err ErrSyntax
  | None =>
      match readFloat s with
      | None => Err ErrSyntax
      | Some x =>
          match rest x with
          | EmptyString => numberValue x
          | String _ _ => Err ErrSyntax
          end
      end
  end.

(** *** FormatFloat: the shortest decimal that reads back *)

(** The last [w] decimal digits of [n], most significant first, before [acc]. *)
Fixpoint fixedDigits (w : nat) (n : Z) (acc : string) : string :=
  match w with
  | O => acc
  | S w' => fixedDigits w' (n / 10) (String (digitChar (n mod 10)) acc)
  end.

Definition formatInt (n : Z) : string := fixedDigits (numDigits n) n "".

(** The decimals that round to [m * 2^e] are those between the midpoints to
    its two neighbours; the lower neighbour is half as far when [m] is the
    least mantissa of a binade above the subnormal one.  The bounds and the
    value itself are returned as integers in units of [10^-f], where [f] is
    [2 - e] or zero: [(lower, value, upper, f)]. *)
Definition computeBounds (m e : Z) : Z * Z * Z * nat :=
  let closer := (m =? 2 ^ mantbits) && (minExp <? e) in
  let lo4 := if closer then 4 * m - 1 else 4 * m - 2 in
  let s := e - 2 in
  let unit := 2 ^ Z.max 0 s * 5 ^ Z.max 0 (- s) in
  (lo4 * unit, 4 * m * unit, (4 * m + 2) * unit, Z.to_nat (- s)).

(** The digit walk of the shortest formatting, from the decimal place [k]
    down: stop at the first place where the value cut off there ([down]) or
    the next decimal of that place ([up]) lies within the bounds (which
    belong to the interval when [incl]); where both do, take the nearer
    one, the even one on a tie. *)
Fixpoint shortestFrom (incl : bool) (L X U : Z) (k : nat) : Z :=
  let P := 10 ^ Z.of_nat k in
  let down := (X / P) * P in
  let up := down + P in
  let okdown := if incl then L <=? down else L <? down in
  let okup := if incl then up <=? U else up <? U in
  if okdown && okup then
    let r := X mod P in
    if 2 * r <? P then down
    else if P <? 2 * r then up
    else if Z.even (X / P) then down else up
  else if okdown then down
  else if okup then up
  else
    match k with
    | O => X
    | S k' => shortestFrom incl L X U k'
    end.

(** Trailing zeros behind the decimal point are not digits of the result. *)
Fixpoint trimZeros (f : nat) (v : Z) : Z * nat :=
  match f with
  | O => (v, O)
  | S f' => if v mod 10 =? 0 then trimZeros f' (v / 10) else (v, f)
  end.

(** The shortest decimal of [m * 2^e], as [(v, f)] for [v * 10^-f]. *)
Definition shortest (m e : Z) : Z * nat :=
  let '(L, X, U, f) := computeBounds m e in
  trimZeros f (shortestFrom (Z.even m) L X U (numDigits U)).

(** [%f] of [v * 10^-f] with [f] digits behind the point. *)
Definition fmtF (v : Z) (f : nat) : string :=
  let P := 10 ^ Z.of_nat f in
  match f with
  | O => formatInt v
  | S _ => (formatInt (v / P) ++ String "." (fixedDigits f (v mod P) ""))%string
  end.

Definition signString (neg : bool) : string := if neg then "-" else "".

(** Modelled from the spec: "Re-render the parsed number in canonical
    minimal decimal form (no trailing zeros beyond necessity, no thousands
    separators)".  The call is [strconv.FormatFloat(f, 'f', -1, 64)] of
    Go's library: no exponent, and the smallest number of digits that
    identifies the value among the float64, the nearest such decimal where
    there are several; NaN and the infinities are spelled out. *)
Definition FormatFloat (f : float64) : string :=
  match f with
  | NaN => "NaN"
  | Inf neg => if neg then "-Inf" else "+Inf"
  | Zero neg => (signString neg ++ "0")%string
  | Finite neg m e => let '(v, f) := shortest m e in (signString neg ++ fmtF v f)%string
  end.

End Strconv.

(** ** Packages encoding/csv, bufio and strings.Builder *)

Module Csv.

Definition quote : ascii := ascii_of_N 34.

(** [unicode.IsSpace] of the first rune of a field, read off its UTF-8
    bytes: tab to carriage return, space, U+0085, U+00A0, U+1680,
    U+2000 to U+200A, U+2028, U+2029, U+202F, U+205F and U+3000.  Bytes
    that are no UTF-8 decode to U+FFFD, which is no space. *)
Definition firstRuneIsSpace (field : string) : bool :=
  match field with
  | EmptyString => false
  | String c0 t0 =>
      let b0 := code c0 in
      if b0 <? 128 then ((9 <=? b0) && (b0 <=? 13)) || (b0 =? 32)
      else
        match t0 with
        | EmptyString => false
        | String c1 t1 =>
            let b1 := code c1 in
            if b0 =? 194 then (b1 =? 133) || (b1 =? 160)
            else
              match t1 with
              | EmptyString => false
              | String c2 _ =>
                  let b2 := code c2 in
                  if b0 =? 225 then (b1 =? 154) && (b2 =? 128)
                  else if b0 =? 226 then
                    ((b1 =? 128) && (((128 <=? b2) && (b2 <=? 138))
                                     || (b2 =? 168) || (b2 =? 169) || (b2 =? 175)))
                    || ((b1 =? 129) && (b2 =? 159))
                  else if b0 =? 227 then (b1 =? 128) && (b2 =? 128)
                  else false
              end
        end
  end.

Fixpoint hasSpecialByte (field : string) : bool :=
  match field with
  | EmptyString => false
  | String c t =>
      (code c =? 10) || (code c =? 13) || Ascii.eqb c quote || Ascii.eqb c ","
      || hasSpecialByte t
  end.

(** [fieldNeedsQuotes], for the comma the writer starts with. *)
Definition fieldNeedsQuotes (field : string) : bool :=
  match field with
  | EmptyString => false
  | _ =>
      if String.eqb field "\." then true
      else if hasSpecialByte field then true
      else firstRuneIsSpace field
  end.

(** The inside of a quoted field: every quote is doubled (UseCRLF is off,
    so line ends stay as they are). *)
Fixpoint escapeField (field : string) : string :=
  match field with
  | EmptyString => EmptyString
  | String c t =>
      if Ascii.eqb c quote then String quote (String quote (escapeField t))
      else String c (escapeField t)
  end.

Definition encodeField (field : string) : string :=
  if fieldNeedsQuotes field
  then String quote (escapeField field ++ String quote EmptyString)%string
  else field.

Fixpoint encodeFields (first : bool) (record : list string) : string :=
  match record with
  | [] => EmptyString
  | field :: fields =>
      ((if first then "" else ",") ++ encodeField field ++ encodeFields false fields)%string
  end.

(** Modelled from the spec: "3-field lines ... using the source format's
    standard CSV quoting rules (quote fields containing the delimiter,
    quote, or newline)".  The bytes one [Write] of Go's encoding/csv hands
    to the buffered writer: the fields, comma separated, and a newline; Go
    also quotes a field that starts with a space and the field [\.]. *)
Definition encodeRecord (record : list string) : string :=
  (encodeFields true record ++ String (ascii_of_N 10) EmptyString)%string.

(** A [csv.Writer] over a [strings.Builder]: [sink] is the text of the
    builder, [pending] what bufio still holds.  (bufio also hands its
    buffer over by itself once 4096 bytes are in it; that only moves bytes
    from [pending] to [sink] earlier, which no caller here can tell once
    Flush has run.) *)
Record Writer : Type := mkWriter {
  sink : string;
  pending : string
}.

Definition NewWriter : Writer := mkWriter "" "".

(** [w.Write(record)]: no error with a valid delimiter and a builder below. *)
Definition Write (w : Writer) (record : list string) : result Writer :=
  OK (mkWriter (sink w) (pending w ++ encodeRecord record)).

Definition Flush (w : Writer) : Writer :=
  mkWriter (sink w ++ pending w) "".

(** [builder.String()]. *)
Definition String_ (w : Writer) : string := sink w.

End Csv.

(** ** Package excelize *)

Module Excelize.

(** A row as GetRows returns it: the cells up to the last one the row
    holds, each as its text. *)
Definition Row : Type := list string.

(** A merged range, by the column and row numbers of two opposite corners. *)
Record MergeCell : Type := mkMergeCell {
  startCol : Z; startRow : Z;
  endCol : Z; endRow : Z
}.

(** A worksheet: its name, its merged ranges and its rows from row 1 on,
    a row without cells being [[]]. *)
Record Sheet : Type := mkSheet {
  Name : string;
  Merges : list MergeCell;
  Rows : list Row
}.

(** An open workbook: the path it was read from and its sheets in order.
    Every sheet is taken to be a worksheet. *)
Record File : Type := mkFile {
  Path : string;
  Sheets : list Sheet
}.

(** What can be opened at a path. *)
Definition FileSystem : Type := string -> option File.

Definition OpenFile (fs : FileSystem) (path : string) : result File :=
  match fs path with
  | Some f => OK f
  | None => Err ErrOpen
  end.

(** excelize addresses a sheet by its name, and names are unique within a
    workbook: the model hands the sheet itself to the operations. *)
Definition GetSheetList (f : File) : list Sheet := Sheets f.

(** On a worksheet the call does not fail.  (excelize refuses it, like the
    other calls below, for a sheet of another kind, a chart sheet for
    one; a workbook with such a sheet is outside this model.) *)
Definition GetMergeCells (sh : Sheet) : result (list MergeCell) := OK (Merges sh).

Definition isOverlap (a b : MergeCell) : bool :=
  let lo x y := Z.min x y in
  let hi x y := Z.max x y in
  (lo (startCol a) (endCol a) <=? hi (startCol b) (endCol b))
  && (lo (startCol b) (endCol b) <=? hi (startCol a) (endCol a))
  && (lo (startRow a) (endRow a) <=? hi (startRow b) (endRow b))
  && (lo (startRow b) (endRow b) <=? hi (startRow a) (endRow a)).

(** Modelled from the spec: "un-merge it so that every cell in the region
    becomes independently addressable".  excelize's
    [UnmergeCell(sheet, start, end)] dissolves every merged range that
    overlaps the given one; the cells keep their texts. *)
Definition UnmergeCell (sh : Sheet) (mc : MergeCell) : result Sheet :=
  OK (mkSheet (Name sh)
        (filter (fun m => negb (isOverlap mc m)) (Merges sh))
        (Rows sh)).

Fixpoint removeAt {A : Type} (i : nat) (l : list A) : list A :=
  match l, i with
  | [], _ => []
  | _ :: l', O => l'
  | x :: l', S i' => x :: removeAt i' l'
  end.

(** Modelled from the spec: excelize's RemoveRow, which the repository
    calls and does not contain.  "Row removal re-indexes subsequent rows
    downward by one each time": the row of the given 1-based number is
    taken out and the rows below close up.  As in excelize, a number below
    1 is an invalid row number, and a number past the last row removes
    nothing. *)
Definition RemoveRow (sh : Sheet) (row : Z) : result Sheet :=
  if row <? 1 then Err (ErrInvalidRowNumber row)
  else OK (mkSheet (Name sh) (Merges sh) (removeAt (Z.to_nat (row - 1)) (Rows sh))).

Fixpoint trimTrailingEmpty (rows : list Row) : list Row :=
  match rows with
  | [] => []
  | r :: rs =>
      match trimTrailingEmpty rs with
      | [] => match r with [] => [] | _ :: _ => [r] end
      | rs' => r :: rs'
      end
  end.

(** excelize's [GetRows(sheet)]: the rows up to the last one that holds a
    cell, in the state the removals have left the sheet in. *)
Definition GetRows (sh : Sheet) : result (list Row) := OK (trimTrailingEmpty (Rows sh)).

End Excelize.

(** ** main.go *)

Import Strings Strconv Csv Excelize.

(** A counting loop [for i := lo; i < hi; i++ { body }] over a state,
    left at the first error. *)
Fixpoint forLoopN {S : Type} (n : nat) (i : Z) (body : Z -> S -> result S) (s : S)
  : result S :=
  match n with
  | O => OK s
  | Datatypes.S n' => s' <- body i s ;; forLoopN n' (i + 1) body s'
  end.

Definition forLoop {S : Type} (lo hi : Z) (body : Z -> S -> result S) (s : S) : result S :=
  forLoopN (Z.to_nat (hi - lo)) lo body s.

(** [for _, x := range xs { body }] over a state. *)
Fixpoint forRange {A S : Type} (xs : list A) (body : A -> S -> result S) (s : S)
  : result S :=
  match xs with
  | [] => OK s
  | x :: xs' => s' <- body x s ;; forRange xs' body s'
  end.

Inductive Bucket : Type := Credit | Debit.

(** Lines 78 to 103 of the row loop: [None] where the body reaches a
    [continue], else the bucket and the record [newRow] it goes on to
    write. *)
Definition extractRow (rowIndex : nat) (row : Row) : option (Bucket * list string) :=
  if (rowIndex =? 0)%nat || (List.length row <? 39)%nat then None
  else
    let amountStr := nth 37 row "" in
    let amountStr := RemoveAll "," amountStr in
    if String.eqb amountStr "" || String.eqb amountStr "Amount" then None
    else
      match ParseFloat amountStr with
      | Err _ => None
      | OK amount =>
          let formattedAmount := FormatFloat amount in
          if HasPrefix amountStr "-" then
            let positiveAmount := FormatFloat (Neg amount) in
            Some (Credit, [nth 0 row ""; nth 24 row ""; positiveAmount])
          else
            Some (Debit, [nth 0 row ""; nth 24 row ""; formattedAmount])
      end.

(** The body of the row loop, on the two writers. *)
Definition processRow (rowIndex : nat) (row : Row) (ws : Writer * Writer)
  : result (Writer * Writer) :=
  let '(creditWriter, debitWriter) := ws in
  match extractRow rowIndex row with
  | None => OK ws
  | Some (Credit, newRow) =>
      creditWriter' <- Write creditWriter newRow ;; OK (creditWriter', debitWriter)
  | Some (Debit, newRow) =>
      debitWriter' <- Write debitWriter newRow ;; OK (creditWriter, debitWriter')
  end.

(** [for rowIndex, row := range rows]. *)
Fixpoint processRows (rowIndex : nat) (rows : list Row) (ws : Writer * Writer)
  : result (Writer * Writer) :=
  match rows with
  | [] => OK ws
  | row :: rows' => ws' <- processRow rowIndex row ws ;; processRows (S rowIndex) rows' ws'
  end.

(** Lines 34 to 69: the merged ranges are dissolved, rows 1 to 25 are
    removed one call after the other, then the rows [len(rows)-14+1] to
    [len(rows)] of a snapshot taken in between. *)
Definition trimSheet (sh : Sheet) : result Sheet :=
  mergedCells <- GetMergeCells sh ;;
  sh <- forRange mergedCells (fun mc sh => UnmergeCell sh mc) sh ;;
  sh <- forLoop 1 26 (fun i sh => RemoveRow sh i) sh ;;
  rows <- GetRows sh ;;
  let len := Z.of_nat (List.length rows) in
  forLoop (len - 14) len (fun i sh => RemoveRow sh (i + 1)) sh.

(** The body of the sheet loop. *)
Definition processSheet (sh : Sheet) (ws : Writer * Writer) : result (Writer * Writer) :=
  sh <- trimSheet sh ;;
  rows <- GetRows sh ;;
  if (List.length rows =? 0)%nat then OK ws
  else
    ws <- processRows 0 rows ws ;;
    OK (Flush (fst ws), Flush (snd ws)).

(** [CleanSpreadsheet(filePath)]: [OK (credits, debits)] for a nil error.
    The two strings are read off the builders before the deferred Flush
    calls run. *)
Definition CleanSpreadsheet (fs : FileSystem) (filePath : string) : result (string * string) :=
  f <- OpenFile fs filePath ;;
  ws <- forRange (GetSheetList f) processSheet (NewWriter, NewWriter) ;;
  OK (String_ (fst ws), String_ (snd ws)).

(** *** uploadHandler *)

(** A request: its method and what [r.FormFile("file")] finds, the
    workbook the uploaded bytes hold if they are one. *)
Record Request : Type := mkRequest {
  Method : string;
  FormFile : option (option (list Sheet))
}.

(** The surroundings of one call: the name [os.CreateTemp] hands out, if it
    does, and whether [io.Copy] succeeds. *)
Record Env : Type := mkEnv {
  CreateTemp : option string;
  CopyOk : bool
}.

(** What the handler sends: an error of [http.Error] with its status, or
    the zip archive, as its entries in order, each a name and its bytes. *)
Inductive Response : Type :=
| HttpError (status : Z) (msg : string)
| ProcessingError (e : error)      (* 500, "Error processing file: " + err.Error() *)
| ZipArchive (entries : list (string * string)).

(** The temporary file after [io.Copy]: it opens as the workbook the
    uploaded bytes hold, if they hold one. *)
Definition tempFiles (tmpFile : string) (file : option (list Sheet)) : FileSystem :=
  fun path => if String.eqb path tmpFile then option_map (mkFile tmpFile) file else None.

(** [uploadHandler(w, r)], by what it sends.  Writing two entries to a zip
    archive in memory and closing it does not fail, and a failure to send
    the bytes leaves nothing to tell apart; these three error branches are
    left out. *)
Definition uploadHandler (env : Env) (r : Request) : Response :=
  if negb (String.eqb (Method r) "POST") then HttpError 405 "Only POST method is allowed"
  else
    match FormFile r with
    | None => HttpError 400 "Unable to read file from form"
    | Some file =>
        match CreateTemp env with
        | None => HttpError 500 "Unable to create temporary file"
        | Some tmpFile =>
            if negb (CopyOk env) then HttpError 500 "Unable to save uploaded file"
            else
              match CleanSpreadsheet (tempFiles tmpFile file) tmpFile with
              | Err e => ProcessingError e
              | OK (creditCSV, debitCSV) =>
                  if String.eqb creditCSV "" && String.eqb debitCSV "" then
                    HttpError 500 "No data processed from the file"
                  else
                    ZipArchive [("credits.csv", creditCSV); ("debits.csv", debitCSV)]
              end
        end
    end.

(** ** Notions the statements use *)

Definition newline : string := String (ascii_of_N 10) EmptyString.

(** The amount field of a row with its commas stripped (lines 82, 83). *)
Definition cleanedAmount (row : Row) : string := RemoveAll "," (nth 37 row "").

(** A row the loop body does not leave before the parse. *)
Definition retained (rowIndex : nat) (row : Row) : Prop :=
  rowIndex <> 0%nat /\ (39 <= List.length row)%nat
  /\ cleanedAmount row <> "" /\ cleanedAmount row <> "Amount".

(** The conditions for skipping a row, in the spec's words. *)
Definition skipped (rowIndex : nat) (row : Row) : Prop :=
  rowIndex = 0%nat \/ (List.length row < 39)%nat
  \/ cleanedAmount row = "" \/ cleanedAmount row = "Amount"
  \/ exists e, ParseFloat (cleanedAmount row) = Err e.

(** A writer after one more record. *)
Definition appendRecord (w : Writer) (record : list string) : Writer :=
  mkWriter (sink w) (pending w ++ encodeRecord record)%string.

(** All a writer was given, handed on or not. *)
Definition written (w : Writer) : string := (sink w ++ pending w)%string.

(** A row of 39 cells with the three fields the program reads. *)
Definition dataRow (reference memo amount : string) : Row :=
  reference :: repeat "" 23 ++ memo :: repeat "" 12 ++ [amount; ""].

(** A list without its first, third, ..., [(2n-1)]-th element, as far as
    it reaches. *)
Fixpoint dropAlternate {A : Type} (n : nat) (l : list A) : list A :=
  match n, l with
  | O, _ => l
  | S _, [] => []
  | S _, [_] => []
  | S n', _ :: y :: l' => y :: dropAlternate n' l'
  end.

(** What the two removal loops leave of the rows of a sheet, or the error
    of the second loop. *)
Definition trimmedRows (rows : list Row) : result (list Row) :=
  let rows1 := dropAlternate 25 rows in
  let len := Z.of_nat (List.length (trimTrailingEmpty rows1)) in
  if len <? 14 then Err (ErrInvalidRowNumber (len - 13))
  else
    let k := Z.to_nat (len - 14) in
    OK (firstn k rows1 ++ dropAlternate 14 (skipn k rows1)).

(** The trim in the spec's words: without the first 25 rows and the last
    14 of what is left. *)
Definition specTrimmedRows (rows : list Row) : list Row :=
  let rest := skipn 25 rows in
  firstn (List.length rest - 14) rest.

(** A sheet of [n] one-cell rows, the cell of row [i] reading [i]. *)
Definition numberedRows (n : nat) : list Row :=
  map (fun i => [formatInt (Z.of_nat i)]) (seq 1 n).

Definition numbered (rows : list nat) : list Row :=
  map (fun i => [formatInt (Z.of_nat i)]) rows.

(** The workbook of the spec's end-to-end example: 26 header rows, the
    data row, 14 footer rows. *)
Definition exampleSheet : Sheet :=
  mkSheet "Sheet1" []
    (repeat ["header"] 26 ++ [dataRow "REF1" "MEMO1" "-100"] ++ repeat ["footer"] 14).

Definition exampleFiles : FileSystem :=
  fun path => if String.eqb path "book.xlsx" then Some (mkFile path [exampleSheet]) else None.

(** A sheet of 28 rows, one cell each but for a data row at row 8. *)
Definition shortSheet : Sheet :=
  mkSheet "Sheet1" []
    (repeat ["text"] 7 ++ [dataRow "REF" "MEMO" "5"] ++ repeat ["text"] 20).

(** A sheet of 28 rows of one cell each. *)
Definition narrowSheet : Sheet := mkSheet "Sheet1" [] (repeat ["text"] 28).

(** A sheet without rows, and a workbook that starts with it. *)
Definition emptySheet : Sheet := mkSheet "Empty" [] [].

Definition emptyFirstFiles : FileSystem :=
  fun path =>
    if String.eqb path "book.xlsx"
    then Some (mkFile path [emptySheet; shortSheet])
    else None.

Definition shortFiles : FileSystem :=
  fun path => if String.eqb path "book.xlsx" then Some (mkFile path [shortSheet]) else None.

(** The same sheets under another path. *)
Definition shortFilesCopy : FileSystem :=
  fun path =>
    if String.eqb path "uploaded-1.xlsx"
    then Some (mkFile path [mkSheet "Sheet1" [] (Rows shortSheet)])
    else None.

(** A sheet whose second row after the trim has an amount that does not
    parse, and whose third is a data row. *)
Definition skipSheet : Sheet :=
  mkSheet "Sheet0" []
    (repeat ["text"] 7 ++ [dataRow "REF1" "MEMO1" "n/a"] ++ repeat ["text"] 3
     ++ [dataRow "REF2" "MEMO2" "-7"] ++ repeat ["text"] 16).

Definition skipFiles : FileSystem :=
  fun path =>
    if String.eqb path "book.xlsx"
    then Some (mkFile path [skipSheet; shortSheet])
    else None.

(** [x * 2^k] against [y], for any integer [k]. *)
Definition cmp2 (x y k : Z) : comparison := (x * pow2Num k ?= y * pow2Den k).

(** The mantissa and exponent of a float64 that is not zero. *)
Definition canonical (m e : Z) : Prop :=
  0 < m < 2 ^ 53 /\ minExp <= e <= maxExp /\ (2 ^ 52 <= m \/ e = minExp).

(** A string of decimal digits. *)
Fixpoint allDigits (s : string) : bool :=
  match s with
  | EmptyString => true
  | String c s' => isDigit c && allDigits s'
  end.

(** A float64 that is not negative, in the form ParseFloat returns it. *)
Definition printable (x : float64) : Prop :=
  match x with
  | Zero s => s = false
  | Inf s => s = false
  | NaN => True
  | Finite s m e => s = false /\ canonical m e
  end.

(** Digits, or digits, a point and digits: [seen] says that a digit was
    read already. *)
Fixpoint plainFrom (seen : bool) (s : string) : bool :=
  match s with
  | EmptyString => seen
  | String c s' =>
      if isDigit c then plainFrom true s'
      else if Ascii.eqb c "." then seen && negb (String.eqb s' "") && allDigits s'
      else false
  end.

(** A decimal without sign, exponent or separators. *)
Definition isPlainDecimal (s : string) : bool := plainFrom false s.

Fixpoint contains (c : ascii) (s : string) : bool :=
  match s with
  | EmptyString => false
  | String c' s' => Ascii.eqb c' c || contains c s'
  end.

(** The amount of a record, its third field. *)
Definition amountOf (record : list string) : string := nth 2 record "".

(** *** The ledger

    The records of a run, as the spec has them: each row gives no record or
    one, with its bucket; the records of a sheet are those of its rows after
    the trim, in order, and those of a workbook follow sheet after sheet. *)

Fixpoint rowRecords (rowIndex : nat) (rows : list Row) : list (Bucket * list string) :=
  match rows with
  | [] => []
  | row :: rows' =>
      match extractRow rowIndex row with
      | Some r => r :: rowRecords (S rowIndex) rows'
      | None => rowRecords (S rowIndex) rows'
      end
  end.

Definition sheetRecords (sh : Sheet) : result (list (Bucket * list string)) :=
  sh <- trimSheet sh ;;
  rows <- GetRows sh ;;
  OK (rowRecords 0 rows).

Fixpoint fileRecords (sheets : list Sheet) : result (list (Bucket * list string)) :=
  match sheets with
  | [] => OK []
  | sh :: sheets' =>
      records <- sheetRecords sh ;;
      records' <- fileRecords sheets' ;;
      OK (records ++ records')
  end.

Definition isCredit (b : Bucket) : bool :=
  match b with
  | Credit => true
  | Debit => false
  end.

(** The records of one bucket, in the order they were found. *)
Definition ofBucket (b : Bucket) (records : list (Bucket * list string)) : list (list string) :=
  map snd (filter (fun r => Bool.eqb (isCredit (fst r)) (isCredit b)) records).

(** The text of a list of records. *)
Fixpoint encodeRecords (records : list (list string)) : string :=
  match records with
  | [] => ""
  | record :: records' => (encodeRecord record ++ encodeRecords records')%string
  end.

(** What is known of the amount of a record that was written. *)
Definition amountShape (amount : string) : Prop :=
  exists x : float64,
    printable x
    /\ amount = FormatFloat x
    /\ match x with
       | NaN => amount = "NaN"
       | Inf _ => amount = "+Inf"
       | _ => isPlainDecimal amount = true
       end
    /\ contains "," amount = false
    /\ contains "-" amount = false.

(** A sheet like [shortSheet] whose data row spells NaN, in a workbook. *)
Definition nanFiles : FileSystem :=
  fun path =>
    if String.eqb path "book.xlsx"
    then Some (mkFile path
                 [mkSheet "Sheet1" []
                    (repeat ["text"] 7 ++ [dataRow "REF" "MEMO" "NaN"] ++ repeat ["text"] 20)])
    else None.

(** *** The rows a trim keeps *)

(** [l1] is [l2] with some elements left out, the others in place. *)
Inductive Subsequence {A : Type} : list A -> list A -> Prop :=
| Subsequence_nil : Subsequence [] []
| Subsequence_drop (x : A) (l1 l2 : list A) :
    Subsequence l1 l2 -> Subsequence l1 (x :: l2)
| Subsequence_keep (x : A) (l1 l2 : list A) :
    Subsequence l1 l2 -> Subsequence (x :: l1) (x :: l2).

(** In a sheet of [n] rows, 64 or more, the number (from 1) of the row
    that stands at place [j] (from 0) once the two loops have run: the even
    rows up to 50, the rows 51 to [n - 14], the even ones of the last 14. *)
Definition sourceRow (n j : nat) : nat :=
  if (j <? 25)%nat then 2 * j + 2
  else if (j <? n - 39)%nat then j + 26
  else 2 * j + 66 - n.

(** *** Rows that differ in the amount *)

(** The row with another text in its amount cell (the cell of index 37). *)
Definition withAmount (row : Row) (amount : string) : Row :=
  firstn 37 row ++ amount :: skipn 38 row.

(** *** uploadHandler and its temporary file

    The handler again, with the files of the temporary directory it works
    in.  [os.CreateTemp] adds a file under a name no file has yet;
    [io.Copy] gives it the uploaded bytes; [excelize.OpenFile] reads it;
    [os.Remove], deferred as soon as the file exists, takes it away when
    the handler returns.  (The file is removed while still open, which
    Linux, the system of the Dockerfile, allows.) *)

Module Os.

(** The files of the directory: a name and what the file opens as, the
    sheets of a workbook or nothing excelize can read. *)
Definition Disk : Type := list (string * option (list Sheet)).

Fixpoint Lookup (name : string) (disk : Disk) : option (option (list Sheet)) :=
  match disk with
  | [] => None
  | (name', content) :: disk' =>
      if String.eqb name' name then Some content else Lookup name disk'
  end.

(** A new, empty file. *)
Definition Create (name : string) (disk : Disk) : Disk := (name, None) :: disk.

(** The file [name] after [io.Copy] has written the upload to it. *)
Definition Copy (name : string) (content : option (list Sheet)) (disk : Disk) : Disk :=
  map (fun f => if String.eqb (fst f) name then (name, content) else f) disk.

Definition Remove (name : string) (disk : Disk) : Disk :=
  filter (fun f => negb (String.eqb (fst f) name)) disk.

(** What excelize can open in the directory. *)
Definition Open (disk : Disk) : FileSystem :=
  fun path =>
    match Lookup path disk with
    | Some (Some sheets) => Some (mkFile path sheets)
    | _ => None
    end.

End Os.

(** [defer deferred(); body]: the deferred call runs when the function
    returns, whichever return statement ends it. *)
Definition defer {A : Type} (deferred : Os.Disk -> Os.Disk) (body : Os.Disk -> A * Os.Disk)
    (disk : Os.Disk) : A * Os.Disk :=
  let '(a, disk') := body disk in (a, deferred disk').

(** [uploadHandler(w, r)] with the directory: the response and the
    directory the handler leaves.  [r.FormFile] parses the form with
    net/http's [ParseMultipartForm] and its limit of 32 MB: the file parts
    beyond that many bytes in all are written to files [multipart-*] of the
    temporary directory, [spilled] here, none for a smaller form.  They are
    there when the handler returns; the server removes them afterwards. *)
Definition uploadHandlerOnDisk (env : Env) (r : Request) (spilled disk : Os.Disk)
  : Response * Os.Disk :=
  if negb (String.eqb (Method r) "POST") then
    (HttpError 405 "Only POST method is allowed", disk)
  else
    let disk := spilled ++ disk in
    match FormFile r with
    | None => (HttpError 400 "Unable to read file from form", disk)
    | Some file =>
        match CreateTemp env with
        | None => (HttpError 500 "Unable to create temporary file", disk)
        | Some tmpFile =>
            defer (Os.Remove tmpFile)
              (fun disk =>
                 if negb (CopyOk env) then
                   (HttpError 500 "Unable to save uploaded file", disk)
                 else
                   let disk := Os.Copy tmpFile file disk in
                   match CleanSpreadsheet (Os.Open disk) tmpFile with
                   | Err e => (ProcessingError e, disk)
                   | OK (creditCSV, debitCSV) =>
                       if String.eqb creditCSV "" && String.eqb debitCSV "" then
                         (HttpError 500 "No data processed from the file", disk)
                       else
                         (ZipArchive [("credits.csv", creditCSV); ("debits.csv", debitCSV)],
                          disk)
                   end)
              (Os.Create tmpFile disk)
        end
    end.

(** *** CleanSpreadsheet in its surroundings

    CleanSpreadsheet once more, with what a run can see of the machine and
    what it can leave there: the files, which excelize.OpenFile reads, and
    the standard output, which fmt.Printf and fmt.Println write to.
    main.go has no package-level variable.  The workbook a run edits is the
    copy excelize.OpenFile has read into memory; CleanSpreadsheet calls
    neither Save nor SaveAs, and the deferred Close drops the copy. *)

(** What the program prints. *)
Inductive Printed : Type :=
| NoRowsFound (sheet : string)                           (* line 72 *)
| ErrorParsingAmount (amountStr : string) (err : error). (* line 92 *)

Record World : Type := mkWorld {
  Files : Os.Disk;
  Stdout : list Printed
}.

(** A step of the program in the world: what it returns, and the world it
    leaves, also when it returns an error. *)
Definition IO (A : Type) : Type := World -> result A * World.

Definition ret {A : Type} (a : A) : IO A := fun w => (OK a, w).

Definition lift {A : Type} (r : result A) : IO A := fun w => (r, w).

Definition bindIO {A B : Type} (m : IO A) (k : A -> IO B) : IO B :=
  fun w =>
    match m w with
    | (OK a, w') => k a w'
    | (Err e, w') => (Err e, w')
    end.

Notation "x <~ m ;; k" := (bindIO m (fun x => k))
  (at level 61, m at next level, right associativity).

(** [fmt.Printf] and [fmt.Println]. *)
Definition Print (p : Printed) : IO unit :=
  fun w => (OK tt, mkWorld (Files w) (Stdout w ++ [p])).

(** [excelize.OpenFile(filePath)], on the files of the world. *)
Definition OpenFileIO (filePath : string) : IO File :=
  fun w => (OpenFile (Os.Open (Files w)) filePath, w).

Fixpoint forRangeIO {A S : Type} (xs : list A) (body : A -> S -> IO S) (s : S) : IO S :=
  match xs with
  | [] => ret s
  | x :: xs' => s' <~ body x s ;; forRangeIO xs' body s'
  end.

(** Lines 78 to 113, the body of the row loop. *)
Definition processRowIO (rowIndex : nat) (row : Row) (ws : Writer * Writer)
  : IO (Writer * Writer) :=
  let '(creditWriter, debitWriter) := ws in
  if (rowIndex =? 0)%nat || (List.length row <? 39)%nat then ret ws
  else
    let amountStr := nth 37 row "" in
    let amountStr := RemoveAll "," amountStr in
    if String.eqb amountStr "" || String.eqb amountStr "Amount" then ret ws
    else
      match ParseFloat amountStr with
      | Err err => _ <~ Print (ErrorParsingAmount amountStr err) ;; ret ws
      | OK amount =>
          let formattedAmount := FormatFloat amount in
          if HasPrefix amountStr "-" then
            let positiveAmount := FormatFloat (Neg amount) in
            creditWriter' <~ lift (Write creditWriter
                                     [nth 0 row ""; nth 24 row ""; positiveAmount]) ;;
            ret (creditWriter', debitWriter)
          else
            debitWriter' <~ lift (Write debitWriter
                                    [nth 0 row ""; nth 24 row ""; formattedAmount]) ;;
            ret (creditWriter, debitWriter')
      end.

Fixpoint processRowsIO (rowIndex : nat) (rows : list Row) (ws : Writer * Writer)
  : IO (Writer * Writer) :=
  match rows with
  | [] => ret ws
  | row :: rows' =>
      ws' <~ processRowIO rowIndex row ws ;; processRowsIO (S rowIndex) rows' ws'
  end.

(** Lines 33 to 117, the body of the sheet loop. *)
Definition processSheetIO (sh : Sheet) (ws : Writer * Writer) : IO (Writer * Writer) :=
  let sheet := Name sh in
  sh <~ lift (trimSheet sh) ;;
  rows <~ lift (GetRows sh) ;;
  if (List.length rows =? 0)%nat then
    _ <~ Print (NoRowsFound sheet) ;; ret ws
  else
    ws <~ processRowsIO 0 rows ws ;;
    ret (Flush (fst ws), Flush (snd ws)).

Definition CleanSpreadsheetIO (filePath : string) : IO (string * string) :=
  f <~ OpenFileIO filePath ;;
  ws <~ forRangeIO (GetSheetList f) processSheetIO (NewWriter, NewWriter) ;;
  ret (String_ (fst ws), String_ (snd ws)).

(** A step that returns what [r] is and leaves the files as they were. *)
Definition returns {A : Type} (m : IO A) (r : result A) : Prop :=
  forall w : World, fst (m w) = r /\ Files (snd (m w)) = Files w.

(** Two worlds for the same cell grid: under different names, with other
    files around, and with something printed before. *)
Definition firstWorld : World :=
  mkWorld [("book.xlsx", Some [shortSheet])] [].

Definition laterWorld : World :=
  mkWorld [("uploaded-1.xlsx",
            Some [mkSheet "Other" [mkMergeCell 1 1 2 2] (Rows shortSheet)]);
           ("book.xlsx", Some [exampleSheet])]
          [NoRowsFound "Sheet9"].

(** *** The bytes of an amount *)

(** The bytes ParseFloat can read at all: the digits, the two signs, the
    point, the underscore, and the letters of a hexadecimal number, of an
    exponent and of the words inf, infinity and nan, in either case. *)
Definition amountByte (c : ascii) : bool :=
  isDigit c || isHexLetter c
  || Ascii.eqb c "+" || Ascii.eqb c "-" || Ascii.eqb c "." || Ascii.eqb c "_"
  || (lower c =? 105) || (lower c =? 110) || (lower c =? 112)
  || (lower c =? 116) || (lower c =? 120) || (lower c =? 121).

Fixpoint allBytes (p : ascii -> bool) (s : string) : bool :=
  match s with
  | EmptyString => true
  | String c s' => p c && allBytes p s'
  end.

(** [s] is [t] after bytes ParseFloat can read. *)
Definition reads (s t : string) : Prop :=
  exists p, s = (p ++ t)%string /\ allBytes amountByte p = true.

(** A byte that is no digit. *)
Definition noDigit (c : ascii) : bool := negb (isDigit c).

(** *** The number a plain decimal stands for *)

(** The digits of a plain decimal read as one integer, and the number of
    digits behind the point: [(v, f)] stands for [v / 10^f]. *)
Fixpoint readPlain (seen : bool) (v : Z) (f : nat) (s : string) : Z * nat :=
  match s with
  | EmptyString => (v, f)
  | String c s' =>
      if Ascii.eqb c "." then readPlain true v f s'
      else readPlain seen (v * 10 + digitVal c) (if seen then S f else f) s'
  end.

Definition decimalValue (s : string) : Z * nat := readPlain false 0 0 s.

(** [v1 / 10^f1 = v2 / 10^f2]. *)
Definition sameNumber (a b : Z * nat) : Prop :=
  fst a * 10 ^ Z.of_nat (snd b) = fst b * 10 ^ Z.of_nat (snd a).

(** The number of digits of a plain decimal. *)
Definition digitCount (s : string) : nat := String.length (RemoveAll "." s).

(** *** What follows a field in a line *)

(** A text that starts with a comma or a newline. *)
Definition startsDelim (s : string) : Prop :=
  match s with
  | EmptyString => False
  | String c _ => c = ","%char \/ code c = 10
  end.

(** *** Where a record comes from *)

(** [record] is made of the reference and the memo of one row of one of the
    sheets, a row of 39 cells or more whose amount starts with a minus sign
    or not, as [minus] says. *)
Definition fromRowOf (sheets : list Sheet) (minus : bool) (record : list string) : Prop :=
  exists (sh : Sheet) (row : Row) (amount : string),
    In sh sheets /\ In row (Rows sh)
    /\ (39 <= List.length row)%nat
    /\ record = [nth 0 row ""; nth 24 row ""; amount]
    /\ HasPrefix (cleanedAmount row) "-" = minus.

(** [a] differs from [b] by at most [b / 2^51]. *)
Definition closeNumbers (a b : Z * nat) : Prop :=
  Z.abs (fst a * 10 ^ Z.of_nat (snd b) - fst b * 10 ^ Z.of_nat (snd a)) * 2 ^ 51
  <= fst b * 10 ^ Z.of_nat (snd a).

(** ** Strings *)

Lemma append_empty_r (s : string) : (s ++ "")%string = s.
Proof. induction s as [|c s IH]; simpl; [reflexivity | now rewrite IH]. Qed.

Lemma append_assoc (s t u : string) : ((s ++ t) ++ u)%string = (s ++ (t ++ u))%string.
Proof. induction s as [|c s IH]; simpl; [reflexivity | now rewrite IH]. Qed.

Lemma length_append (s t : string) :
  String.length (s ++ t) = (String.length s + String.length t)%nat.
Proof. induction s as [|c s IH]; simpl; [reflexivity | now rewrite IH]. Qed.

Lemma append_same_l (s t : string) : (s ++ t)%string = s -> t = "".
Proof.
  intros H. apply (f_equal String.length) in H. rewrite length_append in H.
  destruct t; [reflexivity | simpl in H; lia].
Qed.

Lemma encodeRecord_not_empty (record : list string) : encodeRecord record <> "".
Proof.
  unfold encodeRecord. intros H. apply (f_equal String.length) in H.
  rewrite length_append in H. simpl in H. lia.
Qed.

(** ** Powers of two as fractions *)

Lemma pow2Num_pos (k : Z) : 0 < pow2Num k.
Proof. apply Z.pow_pos_nonneg; lia. Qed.

Lemma pow2Den_pos (k : Z) : 0 < pow2Den k.
Proof. apply Z.pow_pos_nonneg; lia. Qed.

Lemma pow2_add (j k : Z) :
  pow2Num (j + k) * (pow2Den j * pow2Den k) = pow2Num j * pow2Num k * pow2Den (j + k).
Proof.
  unfold pow2Num, pow2Den. rewrite <- !Z.pow_add_r by lia. f_equal. lia.
Qed.

Lemma pow2Num_nonneg (k : Z) : 0 <= k -> pow2Num k = 2 ^ k.
Proof. intros H. unfold pow2Num. now rewrite Z.max_r. Qed.

Lemma pow2Den_nonneg (k : Z) : 0 <= k -> pow2Den k = 1.
Proof. intros H. unfold pow2Den. now rewrite Z.max_l by lia. Qed.

Lemma pow2Num_nonpos (k : Z) : k <= 0 -> pow2Num k = 1.
Proof. intros H. unfold pow2Num. now rewrite Z.max_l by lia. Qed.

Lemma pow2Den_nonpos (k : Z) : k <= 0 -> pow2Den k = 2 ^ (- k).
Proof. intros H. unfold pow2Den. now rewrite Z.max_r by lia. Qed.

Lemma cmp2_shift (x y j k : Z) :
  cmp2 (x * pow2Num j) (y * pow2Den j) k = cmp2 x y (j + k).
Proof.
  unfold cmp2.
  pose proof (pow2Den_pos j). pose proof (pow2Den_pos k). pose proof (pow2Den_pos (j + k)).
  rewrite (Zmult_compare_compat_r (x * pow2Num j * pow2Num k) _ (pow2Den (j + k))) by lia.
  rewrite (Zmult_compare_compat_r (x * pow2Num (j + k)) _ (pow2Den j * pow2Den k)) by nia.
  f_equal.
  - rewrite <- !Z.mul_assoc, pow2_add. ring.
  - ring.
Qed.

(** [x * 2^j * 2^k] against [y], for [j >= 0]. *)
Lemma cmp2_shift_up (x y j k : Z) :
  0 <= j -> cmp2 (x * 2 ^ j) y k = cmp2 x y (j + k).
Proof.
  intros Hj. rewrite <- cmp2_shift, pow2Num_nonneg, pow2Den_nonneg by assumption.
  now rewrite Z.mul_1_r.
Qed.

(** A larger exponent makes the left side larger. *)
Lemma cmp2_mono_Gt (x y j k : Z) :
  0 < x -> j <= k -> cmp2 x y j = Gt -> cmp2 x y k = Gt.
Proof.
  intros Hx Hjk H. replace k with ((k - j) + j) by lia.
  rewrite <- cmp2_shift_up by lia. unfold cmp2 in *.
  apply Z.compare_gt_iff in H. apply Z.compare_gt_iff.
  pose proof (pow2Num_pos j).
  assert (1 <= 2 ^ (k - j)) by (apply Z.lt_pred_le; apply Z.pow_pos_nonneg; lia).
  nia.
Qed.

(** ** The binade of a fraction *)

Lemma floorLog2_above (n d : Z) :
  0 < n -> 0 < d -> cmp2 d n (Z.log2 n - Z.log2 d + 1) = Gt.
Proof.
  intros Hn Hd. unfold cmp2. apply Z.compare_gt_iff.
  pose proof (Z.log2_spec n Hn) as [_ Hn2]. pose proof (Z.log2_spec d Hd) as [Hd1 _].
  pose proof (Z.log2_nonneg n). pose proof (Z.log2_nonneg d).
  destruct (Z.le_gt_cases 0 (Z.log2 n - Z.log2 d + 1)) as [Hk|Hk].
  - rewrite pow2Num_nonneg, pow2Den_nonneg by assumption.
    replace (Z.succ (Z.log2 n)) with ((Z.log2 n - Z.log2 d + 1) + Z.log2 d) in Hn2 by lia.
    rewrite Z.pow_add_r in Hn2 by lia.
    assert (0 < 2 ^ (Z.log2 n - Z.log2 d + 1)) by (apply Z.pow_pos_nonneg; lia).
    nia.
  - rewrite pow2Num_nonpos, pow2Den_nonpos by lia.
    assert (E : 2 ^ Z.log2 d = 2 ^ Z.succ (Z.log2 n) * 2 ^ (- (Z.log2 n - Z.log2 d + 1))).
    { rewrite <- Z.pow_add_r by lia. f_equal. lia. }
    assert (0 < 2 ^ (- (Z.log2 n - Z.log2 d + 1))) by (apply Z.pow_pos_nonneg; lia).
    nia.
Qed.

Lemma floorLog2_below (n d : Z) :
  0 < n -> 0 < d -> cmp2 d n (Z.log2 n - Z.log2 d - 1) <> Gt.
Proof.
  intros Hn Hd. unfold cmp2. apply Z.compare_le_iff.
  pose proof (Z.log2_spec n Hn) as [Hn1 _]. pose proof (Z.log2_spec d Hd) as [_ Hd2].
  pose proof (Z.log2_nonneg n). pose proof (Z.log2_nonneg d).
  destruct (Z.le_gt_cases 0 (Z.log2 n - Z.log2 d - 1)) as [Hk|Hk].
  - rewrite pow2Num_nonneg, pow2Den_nonneg by assumption.
    assert (E : 2 ^ (Z.log2 n - Z.log2 d - 1) * 2 ^ Z.succ (Z.log2 d) = 2 ^ Z.log2 n).
    { rewrite <- Z.pow_add_r by lia. f_equal. lia. }
    assert (0 < 2 ^ (Z.log2 n - Z.log2 d - 1)) by (apply Z.pow_pos_nonneg; lia).
    nia.
  - rewrite pow2Num_nonpos, pow2Den_nonpos by lia.
    assert (E : 2 ^ Z.log2 n * 2 ^ (- (Z.log2 n - Z.log2 d - 1)) = 2 ^ Z.succ (Z.log2 d)).
    { rewrite <- Z.pow_add_r by lia. f_equal. lia. }
    assert (0 < 2 ^ (- (Z.log2 n - Z.log2 d - 1))) by (apply Z.pow_pos_nonneg; lia).
    nia.
Qed.

(** [2^k <= n/d < 2^(k+1)] for [k = floorLog2 n d]. *)
Lemma floorLog2_spec (n d : Z) :
  0 < n -> 0 < d ->
  cmp2 d n (floorLog2 n d) <> Gt /\ cmp2 d n (floorLog2 n d + 1) = Gt.
Proof.
  intros Hn Hd. unfold floorLog2, geqPow2.
  fold (cmp2 d n (Z.log2 n - Z.log2 d)).
  pose proof (floorLog2_above n d Hn Hd) as Ha.
  pose proof (floorLog2_below n d Hn Hd) as Hb.
  destruct (Z.leb_spec (d * pow2Num (Z.log2 n - Z.log2 d)) (n * pow2Den (Z.log2 n - Z.log2 d)))
    as [Hle|Hgt].
  - split; [|assumption]. unfold cmp2. now apply Z.compare_le_iff.
  - split; [assumption|].
    replace (Z.log2 n - Z.log2 d - 1 + 1) with (Z.log2 n - Z.log2 d) by lia.
    unfold cmp2. now apply Z.compare_gt_iff.
Qed.

Lemma floorLog2_unique (n d k : Z) :
  0 < n -> 0 < d ->
  cmp2 d n k <> Gt -> cmp2 d n (k + 1) = Gt -> floorLog2 n d = k.
Proof.
  intros Hn Hd Hle Hgt.
  destruct (floorLog2_spec n d Hn Hd) as [Hle' Hgt'].
  destruct (Z.lt_trichotomy (floorLog2 n d) k) as [H|[H|H]]; [|assumption|]; exfalso.
  - apply Hle. apply (cmp2_mono_Gt d n (floorLog2 n d + 1) k); [assumption|lia|assumption].
  - apply Hle'. apply (cmp2_mono_Gt d n (k + 1) (floorLog2 n d)); [assumption|lia|assumption].
Qed.

(** ** Rounding to the nearest integer *)

Lemma roundHalfEven_unique (N D M : Z) :
  0 < D ->
  (2 * M - 1) * D <= 2 * N <= (2 * M + 1) * D ->
  (2 * N = (2 * M + 1) * D -> Z.even M = true) ->
  (2 * N = (2 * M - 1) * D -> Z.even M = true) ->
  roundHalfEven N D = M.
Proof.
  intros HD [Hlo Hhi] Hup Hdn. unfold roundHalfEven.
  pose proof (Z.div_mod N D ltac:(lia)) as E.
  pose proof (Z.mod_pos_bound N D HD) as [Hr0 Hr1].
  set (q := N / D) in *. set (r := N mod D) in *.
  destruct (Z.ltb_spec (2 * r) D) as [H1|H1].
  - assert (M < q + 1) by nia. assert (q < M + 1) by nia. lia.
  - destruct (Z.ltb_spec D (2 * r)) as [H2|H2].
    + assert (M < q + 2) by nia. assert (q < M) by nia. lia.
    + assert (Hr : 2 * r = D) by lia.
      assert (HM : M = q \/ M = q + 1).
      { assert (M < q + 2) by nia. assert (q < M + 1) by nia. lia. }
      destruct (Z.even q) eqn:Hq.
      * destruct HM as [->| ->]; [reflexivity|].
        assert (Z.even (q + 1) = true) by (apply Hdn; nia).
        rewrite Z.even_add, Hq in H. discriminate.
      * destruct HM as [->| ->]; [|reflexivity].
        assert (Z.even q = true) by (apply Hup; nia). congruence.
Qed.

Lemma roundHalfEven_spec (N D : Z) :
  0 < D ->
  (2 * roundHalfEven N D - 1) * D <= 2 * N <= (2 * roundHalfEven N D + 1) * D.
Proof.
  intros HD. unfold roundHalfEven.
  pose proof (Z.div_mod N D ltac:(lia)) as E.
  pose proof (Z.mod_pos_bound N D HD) as [Hr0 Hr1].
  set (q := N / D) in *. set (r := N mod D) in *.
  destruct (Z.ltb_spec (2 * r) D); [nia|].
  destruct (Z.ltb_spec D (2 * r)); [nia|].
  destruct (Z.even q); nia.
Qed.

Lemma cmp2_half (x y e : Z) :
  cmp2 x y (e - 1) = (x * pow2Num e ?= 2 * (y * pow2Den e)).
Proof.
  replace (e - 1) with (-1 + e) by lia.
  rewrite <- cmp2_shift, pow2Num_nonpos, pow2Den_nonpos by lia.
  unfold cmp2. change (2 ^ (- -1)) with 2. f_equal; ring.
Qed.

(** [roundScaled n d e], by the position of [n/d] among the half-integer
    multiples of [2^e]. *)
Lemma roundScaled_unique (n d e M : Z) :
  0 < d ->
  cmp2 ((2 * M - 1) * d) n (e - 1) <> Gt ->
  cmp2 ((2 * M + 1) * d) n (e - 1) <> Lt ->
  (cmp2 ((2 * M + 1) * d) n (e - 1) = Eq -> Z.even M = true) ->
  (cmp2 ((2 * M - 1) * d) n (e - 1) = Eq -> Z.even M = true) ->
  roundScaled n d e = M.
Proof.
  intros Hd. rewrite !cmp2_half. unfold roundScaled.
  pose proof (pow2Num_pos e). pose proof (pow2Den_pos e).
  intros Hlo Hhi Hup Hdn.
  apply -> Z.compare_le_iff in Hlo. apply -> Z.compare_ge_iff in Hhi.
  apply roundHalfEven_unique.
  - nia.
  - split; nia.
  - intros E. apply Hup. apply Z.compare_eq_iff. nia.
  - intros E. apply Hdn. apply Z.compare_eq_iff. nia.
Qed.

Lemma roundScaled_spec (n d e : Z) :
  0 < d ->
  cmp2 ((2 * roundScaled n d e - 1) * d) n (e - 1) <> Gt
  /\ cmp2 ((2 * roundScaled n d e + 1) * d) n (e - 1) <> Lt.
Proof.
  intros Hd. rewrite !cmp2_half. unfold roundScaled.
  pose proof (pow2Num_pos e). pose proof (pow2Den_pos e).
  pose proof (roundHalfEven_spec (n * pow2Den e) (d * pow2Num e) ltac:(nia)) as [Hlo Hhi].
  split; [apply Z.compare_le_iff|apply Z.compare_ge_iff]; nia.
Qed.

(** ** Comparing multiples of a power of two with a fraction

    [cmp2 (a * d) n k] compares [a * 2^k] with [n / d]. *)

Lemma cmp2_coeff_shift (a d n j k : Z) :
  0 <= j -> cmp2 (a * 2 ^ j * d) n k = cmp2 (a * d) n (j + k).
Proof.
  intros Hj. rewrite <- cmp2_shift_up by assumption. f_equal. ring.
Qed.

Section Coefficients.

Variables a b d n k : Z.
Hypothesis Hd : 0 < d.

Let P := d * pow2Num k.

Let HP : 0 < P.
Proof. pose proof (pow2Num_pos k). unfold P. nia. Qed.

Let unfold_cmp2 (c : Z) : cmp2 (c * d) n k = (c * P ?= n * pow2Den k).
Proof. unfold cmp2, P. f_equal. ring. Qed.

Lemma cmp2_coeff_lt : cmp2 (a * d) n k <> Gt -> cmp2 (b * d) n k = Gt -> a < b.
Proof.
  rewrite !unfold_cmp2. intros H1 H2.
  apply -> Z.compare_le_iff in H1. apply -> Z.compare_gt_iff in H2. nia.
Qed.

Lemma cmp2_coeff_le : cmp2 (a * d) n k <> Gt -> cmp2 (b * d) n k <> Lt -> a <= b.
Proof.
  rewrite !unfold_cmp2. intros H1 H2.
  apply -> Z.compare_le_iff in H1. apply -> Z.compare_ge_iff in H2. nia.
Qed.

Lemma cmp2_coeff_Gt : a <= b -> cmp2 (a * d) n k = Gt -> cmp2 (b * d) n k = Gt.
Proof.
  rewrite !unfold_cmp2. intros H H1.
  apply -> Z.compare_gt_iff in H1. apply Z.compare_gt_iff. nia.
Qed.

Lemma cmp2_coeff_Gt' : a < b -> cmp2 (a * d) n k <> Lt -> cmp2 (b * d) n k = Gt.
Proof.
  rewrite !unfold_cmp2. intros H H1.
  apply -> Z.compare_ge_iff in H1. apply Z.compare_gt_iff. nia.
Qed.

Lemma cmp2_coeff_not_Gt : a <= b -> cmp2 (b * d) n k <> Gt -> cmp2 (a * d) n k <> Gt.
Proof.
  rewrite !unfold_cmp2. intros H H1.
  apply -> Z.compare_le_iff in H1. apply Z.compare_le_iff. nia.
Qed.

Lemma cmp2_coeff_Lt : a <= b -> cmp2 (b * d) n k = Lt -> cmp2 (a * d) n k = Lt.
Proof.
  rewrite !unfold_cmp2. intros H H1.
  apply -> Z.compare_lt_iff in H1. apply Z.compare_lt_iff. nia.
Qed.

Lemma cmp2_coeff_pos : 0 < n -> cmp2 (a * d) n k <> Lt -> 0 < a.
Proof.
  rewrite !unfold_cmp2. intros Hn H1. pose proof (pow2Den_pos k).
  apply -> Z.compare_ge_iff in H1. nia.
Qed.

End Coefficients.

(** [2^k <= n/d] puts the binade of [n/d] at [k] or above. *)
Lemma floorLog2_lt (n d j : Z) :
  0 < n -> 0 < d -> cmp2 d n j = Gt -> floorLog2 n d < j.
Proof.
  intros Hn Hd H. destruct (floorLog2_spec n d Hn Hd) as [Hle _].
  destruct (Z.lt_ge_cases (floorLog2 n d) j) as [|Hge]; [assumption|].
  exfalso. apply Hle. now apply (cmp2_mono_Gt d n j).
Qed.

(** [2^(j+k)] against [n/d] is [2^j * 2^k] against it. *)
Lemma cmp2_pow (d n j k k' : Z) :
  0 <= j -> k' = j + k -> cmp2 d n k' = cmp2 (2 ^ j * d) n k.
Proof.
  intros Hj ->. now rewrite <- (Z.mul_1_l (2 ^ j)), cmp2_coeff_shift, Z.mul_1_l.
Qed.

(** ** Rounding to a float64 *)

Lemma pow2_53 : 2 ^ 53 = 9007199254740992. Proof. reflexivity. Qed.
Lemma pow2_52 : 2 ^ 52 = 4503599627370496. Proof. reflexivity. Qed.
Lemma pow2_54 : 2 ^ 54 = 18014398509481984. Proof. reflexivity. Qed.
Lemma pow2_55 : 2 ^ 55 = 36028797018963968. Proof. reflexivity. Qed.

(** What roundToFloat returns is a zero or a float64 in canonical form, of
    the sign asked for. *)
Lemma roundToFloat_canonical (neg : bool) (n d : Z) (f : float64) :
  0 < n -> 0 < d ->
  roundToFloat neg n d = OK f ->
  match f with
  | Zero s => s = neg
  | Finite s m e => s = neg /\ canonical m e
  | _ => False
  end.
Proof.
  intros Hn Hd. unfold roundToFloat, mantbits.
  destruct (floorLog2_spec n d Hn Hd) as [Hk1 Hk2].
  set (k := floorLog2 n d) in *.
  set (e0 := Z.max (k - 52) minExp).
  destruct (roundScaled_spec n d e0 Hd) as [Hlo Hhi].
  set (M := roundScaled n d e0) in *.
  assert (HM0 : 0 <= M).
  { pose proof (cmp2_coeff_pos (2 * M + 1) d n (e0 - 1) Hd Hn Hhi). lia. }
  assert (HM1 : M <= 2 ^ 53).
  { assert (H : cmp2 (2 ^ 54 * d) n (e0 - 1) = Gt).
    { rewrite <- (cmp2_pow d n 54 (e0 - 1) (e0 + 53)) by lia.
      apply (cmp2_mono_Gt d n (k + 1)); [assumption|unfold e0; lia|assumption]. }
    pose proof (cmp2_coeff_lt _ _ d n (e0 - 1) Hd Hlo H). rewrite pow2_54 in *.
    rewrite pow2_53. lia. }
  assert (HM2 : minExp <= k - 52 -> 2 ^ 52 <= M).
  { intros Hk. assert (H : cmp2 (2 ^ 53 * d) n (e0 - 1) <> Gt).
    { rewrite <- (cmp2_pow d n 53 (e0 - 1) k) by (unfold e0; lia). assumption. }
    pose proof (cmp2_coeff_le _ _ d n (e0 - 1) Hd H Hhi). rewrite pow2_53 in *.
    rewrite pow2_52. lia. }
  assert (HM3 : k - 52 < minExp -> M <= 2 ^ 52).
  { intros Hk. assert (H : cmp2 (2 ^ 53 * d) n (e0 - 1) = Gt).
    { rewrite <- (cmp2_pow d n 53 (e0 - 1) (e0 + 52)) by lia.
      apply (cmp2_mono_Gt d n (k + 1)); [assumption|unfold e0; lia|assumption]. }
    pose proof (cmp2_coeff_lt _ _ d n (e0 - 1) Hd Hlo H). rewrite pow2_53 in *.
    rewrite pow2_52. lia. }
  assert (He0 : minExp <= e0) by (unfold e0; lia).
  assert (He1 : e0 = minExp \/ minExp <= k - 52) by (unfold e0; lia).
  change (2 ^ (52 + 1)) with (2 ^ 53).
  destruct (Z.eqb_spec M (2 ^ 53)) as [HM|HM].
  - destruct (Z.ltb_spec maxExp (e0 + 1)); [discriminate|].
    change (2 ^ 52 =? 0) with false. cbv iota. intros [= <-].
    split; [reflexivity|]. unfold canonical. rewrite pow2_53, pow2_52. lia.
  - destruct (Z.ltb_spec maxExp e0); [discriminate|].
    destruct (Z.eqb_spec M 0) as [Hz|Hz]; intros [= <-]; [reflexivity|].
    split; [reflexivity|]. unfold canonical.
    destruct (Z.lt_ge_cases (k - 52) minExp) as [Hc|Hc].
    + specialize (HM3 Hc). assert (e0 = minExp) by (unfold e0; lia).
      rewrite pow2_53, pow2_52 in *. lia.
    + specialize (HM2 Hc). rewrite pow2_53, pow2_52 in *. lia.
Qed.

(** Any fraction between the midpoints around a float64 rounds to it. *)
Lemma roundToFloat_interval (neg : bool) (n d m e : Z) :
  0 < n -> 0 < d ->
  canonical m e ->
  let lo4 := if (m =? 2 ^ mantbits) && (minExp <? e) then 4 * m - 1 else 4 * m - 2 in
  cmp2 (lo4 * d) n (e - 2) <> Gt ->
  cmp2 ((4 * m + 2) * d) n (e - 2) <> Lt ->
  (Z.even m = false ->
   cmp2 (lo4 * d) n (e - 2) = Lt /\ cmp2 ((4 * m + 2) * d) n (e - 2) = Gt) ->
  roundToFloat neg n d = OK (Finite neg m e).
Proof.
  intros Hn Hd (Hm & He & Hnorm) lo4 Hlo Hhi Hodd.
  unfold mantbits in lo4. rewrite pow2_53 in Hm. rewrite pow2_52 in Hnorm.
  assert (Hlo4 : 4 * m - 2 <= lo4) by (unfold lo4; destruct (_ && _); lia).
  (* the bounds in half units of 2^e *)
  assert (Hlo' : cmp2 ((2 * m - 1) * d) n (e - 1) <> Gt).
  { replace (e - 1) with (1 + (e - 2)) by lia. rewrite <- cmp2_coeff_shift by lia.
    apply (cmp2_coeff_not_Gt _ lo4); [assumption| |assumption]. change (2 ^ 1) with 2. lia. }
  assert (Hhi' : cmp2 ((2 * m + 1) * d) n (e - 1) <> Lt).
  { replace (e - 1) with (1 + (e - 2)) by lia. rewrite <- cmp2_coeff_shift by lia.
    change (2 ^ 1) with 2. replace ((2 * m + 1) * 2) with (4 * m + 2) by lia. assumption. }
  assert (Hup : cmp2 ((2 * m + 1) * d) n (e - 1) = Eq -> Z.even m = true).
  { replace (e - 1) with (1 + (e - 2)) by lia. rewrite <- cmp2_coeff_shift by lia.
    change (2 ^ 1) with 2. replace ((2 * m + 1) * 2) with (4 * m + 2) by lia.
    destruct (Z.even m); [reflexivity|]. destruct Hodd as [_ ->]; [reflexivity|discriminate]. }
  assert (Hdn : cmp2 ((2 * m - 1) * d) n (e - 1) = Eq -> Z.even m = true).
  { replace (e - 1) with (1 + (e - 2)) by lia. rewrite <- cmp2_coeff_shift by lia.
    change (2 ^ 1) with 2.
    destruct (Z.even m); [reflexivity|]. destruct Hodd as [Hl _]; [reflexivity|].
    rewrite (cmp2_coeff_Lt _ lo4 d n (e - 2) Hd); [discriminate|lia|assumption]. }
  assert (Hround : roundScaled n d e = m) by now apply roundScaled_unique.
  (* the value is below 2^(e+53) *)
  assert (Htop : cmp2 d n (e + 53) = Gt).
  { rewrite (cmp2_pow d n 55 (e - 2)) by lia.
    apply (cmp2_coeff_Gt' (4 * m + 2)); [assumption| |assumption]. rewrite pow2_55. lia. }
  unfold roundToFloat, mantbits. change (2 ^ (52 + 1)) with (2 ^ 53). rewrite pow2_53, pow2_52.
  destruct (cmp2 (2 ^ 54 * d) n (e - 2)) eqn:T.
  1, 2: (* 2^(e+52) <= n/d *)
    assert (Hk : floorLog2 n d = e + 52);
    [ apply floorLog2_unique; try assumption;
      [ rewrite (cmp2_pow d n 54 (e - 2)) by lia; rewrite T; discriminate
      | replace (e + 52 + 1) with (e + 53) by lia; assumption ]
    | rewrite Hk; replace (Z.max (e + 52 - 52) minExp) with e by (unfold minExp in *; lia);
      rewrite Hround;
      assert (Hm52 : 2 ^ 54 <= 4 * m + 2)
        by (apply (cmp2_coeff_le _ _ d n (e - 2) Hd); [rewrite T; discriminate|assumption]);
      rewrite pow2_54 in Hm52;
      destruct (Z.eqb_spec m 9007199254740992); [lia|];
      destruct (Z.ltb_spec maxExp e); [lia|];
      destruct (Z.eqb_spec m 0); [lia|reflexivity] ].
  (* n/d < 2^(e+52) *)
  assert (Hbelow : cmp2 d n (e + 52) = Gt).
  { rewrite (cmp2_pow d n 54 (e - 2)) by lia. assumption. }
  pose proof (floorLog2_lt n d (e + 52) Hn Hd Hbelow) as Hk.
  destruct (Z.eq_dec e minExp) as [Hemin|Hemin].
  - replace (Z.max (floorLog2 n d - 52) minExp) with e by lia.
    rewrite Hround.
    assert (Hm52 : lo4 < 2 ^ 54) by (apply (cmp2_coeff_lt _ _ d n (e - 2) Hd); assumption).
    rewrite pow2_54 in Hm52.
    destruct (Z.eqb_spec m 9007199254740992); [lia|].
    destruct (Z.ltb_spec maxExp e); [lia|].
    destruct (Z.eqb_spec m 0); [lia|reflexivity].
  - assert (Hm52 : lo4 < 2 ^ 54) by (apply (cmp2_coeff_lt _ _ d n (e - 2) Hd); assumption).
    rewrite pow2_54 in Hm52.
    assert (Em : m = 4503599627370496) by lia.
    assert (Elo : lo4 = 4 * m - 1).
    { unfold lo4. rewrite pow2_52. destruct (Z.eqb_spec m 4503599627370496); [|lia].
      destruct (Z.ltb_spec minExp e); [reflexivity|lia]. }
    assert (Hk' : floorLog2 n d = e + 51).
    { apply floorLog2_unique; try assumption.
      - rewrite (cmp2_pow d n 53 (e - 2)) by lia.
        apply (cmp2_coeff_not_Gt _ lo4); [assumption| |assumption]. rewrite pow2_53. lia.
      - replace (e + 51 + 1) with (e + 52) by lia. assumption. }
    rewrite Hk'. replace (Z.max (e + 51 - 52) minExp) with (e - 1) by lia.
    assert (Hr : roundScaled n d (e - 1) = 2 ^ 53).
    { apply roundScaled_unique; try assumption.
      - replace (e - 1 - 1) with (e - 2) by lia.
        apply (cmp2_coeff_not_Gt _ lo4); [assumption| |assumption]. rewrite pow2_53. lia.
      - replace (e - 1 - 1) with (e - 2) by lia.
        rewrite (cmp2_coeff_Gt (2 ^ 54) _ d n (e - 2) Hd); [discriminate| |assumption].
        rewrite pow2_54, pow2_53. lia.
      - reflexivity.
      - reflexivity. }
    rewrite Hr, pow2_53. change (9007199254740992 =? 9007199254740992) with true. cbv iota.
    destruct (Z.ltb_spec maxExp (e - 1 + 1)); [lia|].
    change (4503599627370496 =? 0) with false. cbv iota.
    rewrite Em. do 2 f_equal. lia.
Qed.

(** ** Decimal digits *)

Lemma digit_cases (d : Z) :
  0 <= d < 10 ->
  d = 0 \/ d = 1 \/ d = 2 \/ d = 3 \/ d = 4 \/ d = 5 \/ d = 6 \/ d = 7 \/ d = 8 \/ d = 9.
Proof. lia. Qed.

Lemma digitChar_facts (d : Z) :
  0 <= d < 10 ->
  isDigit (digitChar d) = true
  /\ digitVal (digitChar d) = d
  /\ Ascii.eqb (digitChar d) "_" = false
  /\ Ascii.eqb (digitChar d) "." = false
  /\ Ascii.eqb (digitChar d) "0" = (d =? 0).
Proof.
  intros H. apply digit_cases in H.
  repeat (destruct H as [->|H]; [repeat split; reflexivity|]).
  subst. repeat split; reflexivity.
Qed.

Lemma fixedDigits_acc (w : nat) :
  forall (n : Z) (acc : string), fixedDigits w n acc = (fixedDigits w n "" ++ acc)%string.
Proof.
  induction w as [|w IH]; intros n acc.
  - reflexivity.
  - cbn [fixedDigits]. rewrite IH, (IH _ (String _ "")), append_assoc. reflexivity.
Qed.

Lemma fixedDigits_S (w : nat) (n : Z) :
  fixedDigits (S w) n "" = (fixedDigits w (n / 10) "" ++ String (digitChar (n mod 10)) "")%string.
Proof. cbn [fixedDigits]. apply fixedDigits_acc. Qed.

Lemma allDigits_append (s t : string) :
  allDigits (s ++ t) = allDigits s && allDigits t.
Proof.
  induction s as [|c s IH]; simpl; [reflexivity|]. now rewrite IH, andb_assoc.
Qed.

Lemma allDigits_fixedDigits (w : nat) : forall n, allDigits (fixedDigits w n "") = true.
Proof.
  induction w as [|w IH]; intros n.
  - reflexivity.
  - rewrite fixedDigits_S, allDigits_append, IH. simpl.
    destruct (digitChar_facts (n mod 10)) as [-> _]; [|reflexivity].
    apply Z.mod_pos_bound. lia.
Qed.

Lemma length_fixedDigits (w : nat) : forall n, String.length (fixedDigits w n "") = w.
Proof.
  induction w as [|w IH]; intros n.
  - reflexivity.
  - rewrite fixedDigits_S, length_append, IH. simpl. lia.
Qed.

(** The number of digits *)

Lemma numDigitsFuel_spec (fuel : nat) :
  forall n, 0 <= n < 2 ^ Z.of_nat fuel ->
            n < 10 ^ Z.of_nat (numDigitsFuel fuel n)
            /\ (0 < n -> 10 ^ (Z.of_nat (numDigitsFuel fuel n) - 1) <= n)
            /\ (1 <= numDigitsFuel fuel n)%nat.
Proof.
  induction fuel as [|fuel IH]; intros n Hn.
  - simpl in *. assert (n = 0) by lia. subst. repeat split; lia.
  - cbn [numDigitsFuel]. destruct (Z.ltb_spec n 10) as [Hlt|Hge].
    + simpl. repeat split; lia.
    + assert (Hdiv : 0 <= n / 10 < 2 ^ Z.of_nat fuel).
      { split; [apply Z.div_pos; lia|].
        apply Z.div_lt_upper_bound; [lia|].
        rewrite Nat2Z.inj_succ, Z.pow_succ_r in Hn by lia. lia. }
      destruct (IH _ Hdiv) as (H1 & H2 & H3).
      set (k := numDigitsFuel fuel (n / 10)) in *.
      rewrite Nat2Z.inj_succ. unfold Z.succ.
      pose proof (Z.div_mod n 10 ltac:(lia)) as E.
      pose proof (Z.mod_pos_bound n 10 ltac:(lia)) as Hr.
      repeat split.
      * rewrite Z.pow_add_r by lia. change (10 ^ 1) with 10. lia.
      * intros _. replace (Z.of_nat k + 1 - 1) with ((Z.of_nat k - 1) + 1) by lia.
        rewrite Z.pow_add_r by lia. change (10 ^ 1) with 10.
        assert (0 < n / 10) by (apply Z.div_str_pos; lia). specialize (H2 H). lia.
      * lia.
Qed.

Lemma numDigits_spec (n : Z) :
  0 <= n ->
  n < 10 ^ Z.of_nat (numDigits n)
  /\ (0 < n -> 10 ^ (Z.of_nat (numDigits n) - 1) <= n)
  /\ (1 <= numDigits n)%nat.
Proof.
  intros Hn. unfold numDigits. apply numDigitsFuel_spec.
  split; [assumption|].
  destruct (Z.eq_dec n 0) as [->|Hz]; [simpl; lia|].
  rewrite Nat2Z.inj_succ, Z2Nat.id by apply Z.log2_nonneg.
  apply Z.log2_spec. lia.
Qed.

(** ** Reading back a run of digits *)

Lemma readDigits_run (w : nat) :
  forall (n : Z) (st : scan) (rest : string),
    0 <= nd st -> (nd st = 0 -> mantissa st = 0) ->
    exists st',
      readDigits false st (fixedDigits w n "" ++ rest) = readDigits false st' rest
      /\ 0 <= nd st' /\ (nd st' = 0 -> mantissa st' = 0)
      /\ sawdot st' = sawdot st
      /\ underscores st' = underscores st
      /\ sawdigits st' = match w with O => sawdigits st | S _ => true end
      /\ dp st' - nd st' = dp st - nd st - Z.of_nat w
      /\ mantissa st' = mantissa st * 10 ^ Z.of_nat w + n mod 10 ^ Z.of_nat w.
Proof.
  induction w as [|w IH]; intros n st rest Hnd Hm.
  - exists st. simpl. rewrite Z.mod_1_r. repeat split; try assumption; lia.
  - rewrite fixedDigits_S, append_assoc.
    destruct (IH (n / 10) st (String (digitChar (n mod 10)) "" ++ rest)%string Hnd Hm)
      as (st1 & -> & Hnd1 & Hm1 & Hdot & Hus & Hdig & Hdelta & Hmant).
    pose proof (Z.mod_pos_bound n 10 ltac:(lia)) as Hr.
    destruct (digitChar_facts (n mod 10) Hr) as (Hc1 & Hc2 & Hc3 & Hc4 & Hc5).
    cbn [append readDigits]. rewrite Hc3, Hc4, Hc1, Hc5, Hc2.
    assert (Hmod : n mod 10 ^ Z.of_nat (S w)
                   = (n / 10) mod 10 ^ Z.of_nat w * 10 + n mod 10).
    { rewrite Nat2Z.inj_succ, Z.pow_succ_r by lia.
      rewrite Z.rem_mul_r by (try lia; apply Z.pow_nonzero; lia). lia. }
    assert (Hpow : 10 ^ Z.of_nat (S w) = 10 ^ Z.of_nat w * 10).
    { rewrite Nat2Z.inj_succ, Z.pow_succ_r by lia. lia. }
    destruct ((n mod 10 =? 0) && (nd st1 =? 0)) eqn:Hz.
    + apply andb_true_iff in Hz. destruct Hz as [Hz1 Hz2].
      apply Z.eqb_eq in Hz1, Hz2.
      specialize (Hm1 Hz2).
      eexists. split; [reflexivity|]. cbn [nd dp mantissa sawdot sawdigits underscores].
      repeat split; try assumption; lia.
    + eexists. split; [reflexivity|]. cbn [nd dp mantissa sawdot sawdigits underscores].
      repeat split; try assumption; lia.
Qed.

(** ** Reading back a plain decimal *)

Lemma digit_byte (c : ascii) :
  isDigit c = true ->
  Ascii.eqb c "+" = false /\ Ascii.eqb c "-" = false
  /\ (Ascii.eqb c "i" || Ascii.eqb c "I") = false
  /\ (Ascii.eqb c "n" || Ascii.eqb c "N") = false
  /\ (lower c =? 120) = false.
Proof.
  destruct c as [[] [] [] [] [] [] [] []]; intros H; try discriminate H;
    repeat split; reflexivity.
Qed.

Lemma head_fixedDigits (w : nat) (n : Z) :
  exists c t, fixedDigits (S w) n "" = String c t /\ isDigit c = true.
Proof.
  pose proof (allDigits_fixedDigits (S w) n) as Ha.
  pose proof (length_fixedDigits (S w) n) as Hl.
  destruct (fixedDigits (S w) n "") as [|c t]; [discriminate|].
  exists c, t. simpl in Ha. apply andb_true_iff in Ha. now split.
Qed.

Lemma hexPrefix_plain (c : ascii) (t : string) :
  isDigit c = true ->
  (match t with
   | String d _ => isDigit d = true \/ d = "."%char
   | EmptyString => True
   end) ->
  hexPrefix (String c t) = (false, String c t).
Proof.
  intros Hc Ht. unfold hexPrefix. destruct t as [|d [|d2 t']]; try reflexivity.
  destruct Ht as [Hd| ->].
  - destruct (digit_byte d Hd) as (_ & _ & _ & _ & ->). now rewrite andb_false_r.
  - now rewrite andb_false_r.
Qed.

Lemma special_plain (c : ascii) (t : string) :
  isDigit c = true -> special (String c t) = None.
Proof.
  intros Hc. unfold special. destruct (digit_byte c Hc) as (-> & -> & -> & -> & _).
  reflexivity.
Qed.

(** The second byte of a run of digits, or of a run and what follows. *)
Lemma second_byte (w : nat) (n : Z) (c : ascii) (t rest : string) :
  fixedDigits w n "" = String c t ->
  (match rest with
   | String d _ => isDigit d = true \/ d = "."%char
   | EmptyString => True
   end) ->
  match (t ++ rest)%string with
  | String d _ => isDigit d = true \/ d = "."%char
  | EmptyString => True
  end.
Proof.
  intros E Hrest. pose proof (allDigits_fixedDigits w n) as Ha. rewrite E in Ha.
  simpl in Ha. apply andb_true_iff in Ha. destruct Ha as [_ Ha].
  destruct t as [|d t]; simpl; [assumption|].
  simpl in Ha. apply andb_true_iff in Ha. now left.
Qed.

(** A run of digits, alone or followed by a point and [f] more digits, is
    read as the number the digits spell, with exponent [-f]. *)
Lemma readFloat_plain (w f : nat) (ip F : Z) :
  0 <= ip < 10 ^ Z.of_nat (S w) ->
  0 <= F < 10 ^ Z.of_nat f ->
  let s := (fixedDigits (S w) ip ""
            ++ match f with
               | O => ""
               | S _ => String "." (fixedDigits f F "")
               end)%string in
  let v := ip * 10 ^ Z.of_nat f + F in
  special s = None
  /\ readFloat s = Some (mkNumber false false v (if v =? 0 then 0 else - Z.of_nat f) "").
Proof.
  intros Hip HF s v.
  destruct (head_fixedDigits w ip) as (c & t & E & Hc).
  assert (Htail : match match f with
                        | O => ""
                        | S _ => String "." (fixedDigits f F "")
                        end with
                  | String d _ => isDigit d = true \/ d = "."%char
                  | EmptyString => True
                  end) by (destruct f; [exact I|now right]).
  pose proof (second_byte (S w) ip c t _ E Htail) as Hsecond.
  assert (Es : s = String c (t ++ match f with
                                  | O => ""
                                  | S _ => String "." (fixedDigits f F "")
                                  end)) by (unfold s; now rewrite E).
  split; [rewrite Es; now apply special_plain|].
  unfold readFloat. rewrite Es at 1. rewrite Es at 1.
  unfold readSign. destruct (digit_byte c Hc) as (-> & -> & _).
  rewrite (hexPrefix_plain c _ Hc Hsecond). rewrite <- Es.
  destruct (readDigits_run (S w) ip (mkScan false false 0 0 0 false)
              match f with
              | O => ""
              | S _ => String "." (fixedDigits f F "")
              end ltac:(simpl; lia) ltac:(reflexivity))
    as (st1 & E1 & Hnd1 & Hm1 & Hdot1 & Hus1 & Hdig1 & Hdelta1 & Hmant1).
  fold s in E1. rewrite E1. cbn [sawdot underscores sawdigits dp nd mantissa] in *.
  rewrite Z.mod_small in Hmant1 by assumption. simpl (0 * _ + _) in Hmant1.
  destruct f as [|f].
  - (* no point *)
    cbn [readDigits]. rewrite Hdig1. cbn [negb].
    unfold readExponent, finishNumber. rewrite Hdot1, Hus1. cbn [andb].
    unfold v. change (10 ^ Z.of_nat 0) with 1.
    assert (F = 0) by (change (10 ^ Z.of_nat 0) with 1 in HF; lia). subst F.
    rewrite Hmant1, Z.mul_1_r, Z.add_0_r, Z.sub_diag. reflexivity.
  - (* a point and a fraction *)
    cbn [readDigits]. change (Ascii.eqb "." "_") with false.
    change (Ascii.eqb "." ".") with true. cbv iota. rewrite Hdot1.
    rewrite <- (append_empty_r (fixedDigits (S f) F "")).
    destruct (readDigits_run (S f) F
                (mkScan true (sawdigits st1) (nd st1) (nd st1) (mantissa st1) (underscores st1))
                "" Hnd1 Hm1)
      as (st2 & E2 & Hnd2 & Hm2 & Hdot2 & Hus2 & Hdig2 & Hdelta2 & Hmant2).
    rewrite E2. cbn [sawdot underscores sawdigits dp nd mantissa] in *.
    cbn [readDigits]. rewrite Hdig2. cbn [negb].
    unfold readExponent, finishNumber. rewrite Hdot2, Hus2, Hus1. cbn [andb].
    rewrite Z.mod_small in Hmant2 by assumption.
    unfold v. rewrite Hmant2, Hmant1.
    replace (dp st2 - nd st2) with (- Z.of_nat (S f)) by lia. reflexivity.
Qed.

(** ** The shortest decimal *)

Lemma shortestFrom_in (incl : bool) (L X U : Z) (k : nat) :
  L < X < U ->
  if incl then L <= shortestFrom incl L X U k <= U
  else L < shortestFrom incl L X U k < U.
Proof.
  intros HX. induction k as [|k IH]; cbn [shortestFrom];
    (set (P := 10 ^ Z.of_nat _);
     assert (HP : 0 < P) by (apply Z.pow_pos_nonneg; lia);
     pose proof (Z.div_mod X P ltac:(lia)) as E;
     pose proof (Z.mod_pos_bound X P HP) as Hr;
     set (q := X / P) in *; set (r := X mod P) in *;
     destruct incl;
     [ destruct (Z.leb_spec L (q * P)), (Z.leb_spec (q * P + P) U)
     | destruct (Z.ltb_spec L (q * P)), (Z.ltb_spec (q * P + P) U) ];
     cbn [andb];
     try (destruct (2 * r <? P); [|destruct (P <? 2 * r); [|destruct (Z.even q)]]);
     try lia; try assumption).
Qed.

Lemma trimZeros_spec (f : nat) :
  forall v : Z,
    (snd (trimZeros f v) <= f)%nat
    /\ v = fst (trimZeros f v) * 10 ^ (Z.of_nat f - Z.of_nat (snd (trimZeros f v))).
Proof.
  induction f as [|f IH]; intros v.
  - simpl. split; lia.
  - cbn [trimZeros]. destruct (Z.eqb_spec (v mod 10) 0) as [Hz|Hz].
    + destruct (IH (v / 10)) as [H1 H2]. split; [lia|].
      replace (Z.of_nat (S f) - Z.of_nat (snd (trimZeros f (v / 10))))
        with (Z.succ (Z.of_nat f - Z.of_nat (snd (trimZeros f (v / 10))))) by lia.
      rewrite Z.pow_succ_r by lia.
      pose proof (Z.div_mod v 10 ltac:(lia)) as E. nia.
    + cbn [fst snd]. split; [lia|]. rewrite Z.sub_diag. lia.
Qed.

(** ** FormatFloat and ParseFloat *)

Lemma fmtF_plain (v : Z) (f : nat) :
  0 <= v ->
  exists (w : nat) (ip F : Z),
    0 <= ip < 10 ^ Z.of_nat (S w)
    /\ 0 <= F < 10 ^ Z.of_nat f
    /\ v = ip * 10 ^ Z.of_nat f + F
    /\ fmtF v f = (fixedDigits (S w) ip ""
                   ++ match f with
                      | O => ""
                      | S _ => String "." (fixedDigits f F "")
                      end)%string.
Proof.
  intros Hv. unfold fmtF, formatInt.
  set (P := 10 ^ Z.of_nat f). assert (HP : 0 < P) by (apply Z.pow_pos_nonneg; lia).
  assert (Hq : 0 <= v / P) by (apply Z.div_pos; lia).
  pose proof (Z.mod_pos_bound v P HP) as Hr.
  pose proof (Z.div_mod v P ltac:(lia)) as E.
  destruct f as [|f].
  - destruct (numDigits_spec v Hv) as (H1 & _ & H3).
    destruct (numDigits v) as [|w]; [lia|].
    exists w, v, 0. change (10 ^ Z.of_nat 0) with 1.
    repeat split; try lia. now rewrite append_empty_r.
  - destruct (numDigits_spec (v / P) Hq) as (H1 & _ & H3).
    destruct (numDigits (v / P)) as [|w]; [lia|].
    exists w, (v / P), (v mod P). fold P. repeat split; try lia.
Qed.

Lemma ParseFloat_fmtF (v : Z) (f : nat) :
  0 <= v ->
  ParseFloat (fmtF v f)
  = numberValue (mkNumber false false v (if v =? 0 then 0 else - Z.of_nat f) "").
Proof.
  intros Hv. destruct (fmtF_plain v f Hv) as (w & ip & F & Hip & HF & -> & ->).
  destruct (readFloat_plain w f ip F Hip HF) as [Hs Hr].
  unfold ParseFloat. rewrite Hs, Hr. reflexivity.
Qed.

(** A decimal [v * 10^-f'] against [a * 2^s], by the integers the digit
    walk compares: [V] and [a * unit], in units of [10^-f]. *)
Lemma cmp2_decimal (a v' V s : Z) (f' : nat) :
  let fz := Z.max 0 (- s) in
  Z.of_nat f' <= fz ->
  V = v' * 10 ^ (fz - Z.of_nat f') ->
  cmp2 (a * 10 ^ Z.of_nat f') (v' * 1) s = (a * (2 ^ Z.max 0 s * 5 ^ fz) ?= V).
Proof.
  intros fz Hf ->. unfold cmp2, pow2Num, pow2Den. fold fz.
  assert (H5 : 0 < 5 ^ fz) by (apply Z.pow_pos_nonneg; lia).
  assert (H10 : 0 < 10 ^ (fz - Z.of_nat f')) by (apply Z.pow_pos_nonneg; lia).
  rewrite (Zmult_compare_compat_r _ _ (5 ^ fz * 10 ^ (fz - Z.of_nat f'))) by nia.
  assert (E10 : 10 ^ Z.of_nat f' * 10 ^ (fz - Z.of_nat f') = 2 ^ fz * 5 ^ fz).
  { rewrite <- Z.pow_add_r, <- Z.pow_mul_l by lia. f_equal. lia. }
  rewrite (Zmult_compare_compat_r (a * (2 ^ Z.max 0 s * 5 ^ fz)) _ (2 ^ fz * 5 ^ fz))
    by (rewrite <- E10; nia).
  f_equal.
  - rewrite <- E10. ring.
  - ring.
Qed.

Lemma pow10_310 : 2 ^ 1024 < 10 ^ 310. Proof. reflexivity. Qed.
Lemma pow10_331 : 2 ^ 1076 < 2 * 10 ^ 331. Proof. reflexivity. Qed.

(** The decimal point of a decimal within the bounds of a float64 lies
    within the range in which ParseFloat rounds. *)
Lemma point_in_range (lo hi v' s : Z) (f' : nat) :
  0 < v' -> 2 <= lo -> hi <= 2 ^ 55 -> -1076 <= s <= 969 ->
  cmp2 (lo * 10 ^ Z.of_nat f') (v' * 1) s <> Gt ->
  cmp2 (hi * 10 ^ Z.of_nat f') (v' * 1) s <> Lt ->
  -330 <= Z.of_nat (numDigits v') - Z.of_nat f' <= 310.
Proof.
  intros Hv Hlo Hhi Hs H1 H2. unfold cmp2 in *. rewrite Z.mul_1_r in *.
  apply -> Z.compare_le_iff in H1. apply -> Z.compare_ge_iff in H2.
  destruct (numDigits_spec v' ltac:(lia)) as (Hn1 & Hn2 & Hn3). specialize (Hn2 Hv).
  set (N := Z.of_nat (numDigits v')) in *. set (A := 10 ^ Z.of_nat f') in *.
  assert (HA : 0 < A) by (apply Z.pow_pos_nonneg; lia).
  pose proof (pow2Num_pos s) as HP. pose proof (pow2Den_pos s) as HD.
  assert (HP' : pow2Num s <= 2 ^ 969) by (apply Z.pow_le_mono_r; lia).
  assert (HD' : pow2Den s <= 2 ^ 1076) by (apply Z.pow_le_mono_r; lia).
  set (P := pow2Num s) in *. set (D := pow2Den s) in *.
  set (c55 := 2 ^ 55) in *. set (c969 := 2 ^ 969) in *. set (c1076 := 2 ^ 1076) in *.
  split.
  - destruct (Z.le_gt_cases (-330) (N - Z.of_nat f')) as [|Hc]; [assumption|exfalso].
    assert (E : 10 ^ N * 10 ^ 331 <= A).
    { unfold A. rewrite <- Z.pow_add_r by lia. apply Z.pow_le_mono_r; lia. }
    pose proof pow10_331 as Hconst. fold c1076 in Hconst.
    set (c331 := 10 ^ 331) in *. set (X := 10 ^ N) in *.
    assert (H3a : A <= A * P) by (clear - HA HP; nia).
    assert (H3 : 2 * A <= lo * A * P).
    { rewrite <- Z.mul_assoc. clear - H3a Hlo HA. nia. }
    assert (H4 : v' * D <= v' * c1076) by (apply Z.mul_le_mono_nonneg_l; lia).
    assert (Hc331 : 0 < c331) by reflexivity.
    assert (H5 : v' * c331 < X * c331) by (apply Z.mul_lt_mono_pos_r; assumption).
    assert (H6 : v' * c1076 < v' * (2 * c331)) by (apply Z.mul_lt_mono_pos_l; assumption).
    clear - H1 H3 H4 H5 H6 E. lia.
  - destruct (Z.le_gt_cases (N - Z.of_nat f') 310) as [|Hc]; [assumption|exfalso].
    assert (E : A * 10 ^ 310 <= 10 ^ (N - 1)).
    { unfold A. rewrite <- Z.pow_add_r by lia. apply Z.pow_le_mono_r; lia. }
    pose proof pow10_310 as Hconst.
    change (2 ^ 1024) with (2 ^ 55 * 2 ^ 969) in Hconst. fold c55 c969 in Hconst.
    assert (H55 : 0 < c55) by reflexivity. assert (H969 : 0 < c969) by reflexivity.
    set (c310 := 10 ^ 310) in *. set (X := 10 ^ (N - 1)) in *.
    assert (H3 : v' <= v' * D) by (clear - Hv HD; nia).
    assert (HAP : 0 < A * P) by (clear - HA HP; nia).
    assert (H4 : hi * A * P <= c55 * A * P).
    { rewrite <- !Z.mul_assoc. apply Z.mul_le_mono_nonneg_r; lia. }
    assert (H5 : c55 * A * P <= c55 * A * c969).
    { apply Z.mul_le_mono_nonneg_l; [|assumption]. clear - H55 HA. nia. }
    assert (H6 : A * c310 <= A * (c55 * c969)).
    { replace (A * (c55 * c969)) with (c55 * A * c969) by ring. lia. }
    assert (H7 : A * (c55 * c969) < A * c310) by (apply Z.mul_lt_mono_pos_l; assumption).
    lia.
Qed.

(** The shortest decimal of a float64 reads back as that float64. *)
Lemma ParseFloat_FormatFloat_finite (m e : Z) :
  canonical m e -> ParseFloat (FormatFloat (Finite false m e)) = OK (Finite false m e).
Proof.
  intros Hc. pose proof Hc as (Hm & He & Hnorm). unfold minExp, maxExp in He.
  cbn [FormatFloat]. unfold shortest, computeBounds.
  set (lo4 := if (m =? 2 ^ mantbits) && (minExp <? e) then 4 * m - 1 else 4 * m - 2).
  set (fz := Z.max 0 (- (e - 2))).
  set (unit := 2 ^ Z.max 0 (e - 2) * 5 ^ fz).
  set (U := (4 * m + 2) * unit).
  set (V := shortestFrom (Z.even m) (lo4 * unit) (4 * m * unit) U (numDigits U)).
  assert (Hunit : 0 < unit).
  { unfold unit. apply Z.mul_pos_pos; apply Z.pow_pos_nonneg; lia. }
  assert (Hlo4 : 4 * m - 2 <= lo4 < 4 * m) by (unfold lo4; destruct (_ && _); lia).
  assert (HV : if Z.even m then lo4 * unit <= V <= U else lo4 * unit < V < U).
  { apply shortestFrom_in. unfold U. nia. }
  replace (Z.to_nat (- (e - 2))) with (Z.to_nat fz) by (unfold fz; lia).
  destruct (trimZeros_spec (Z.to_nat fz) V) as [Hf' HVv].
  destruct (trimZeros (Z.to_nat fz) V) as [v' f'] eqn:Et. cbn [fst snd] in *.
  rewrite Z2Nat.id in HVv by (unfold fz; lia).
  assert (Hf'z : Z.of_nat f' <= fz) by lia.
  assert (HVpos : 0 < V) by (destruct (Z.even m); nia).
  assert (Hv' : 0 < v').
  { assert (0 < 10 ^ (fz - Z.of_nat f')) by (apply Z.pow_pos_nonneg; lia). nia. }
  cbn [signString append]. rewrite ParseFloat_fmtF by lia.
  destruct (Z.eqb_spec v' 0) as [|_]; [lia|].
  pose proof (cmp2_decimal lo4 v' V (e - 2) f' Hf'z HVv) as Clo.
  pose proof (cmp2_decimal (4 * m + 2) v' V (e - 2) f' Hf'z HVv) as Chi.
  fold fz unit U in Clo, Chi.
  assert (Hlo : cmp2 (lo4 * 10 ^ Z.of_nat f') (v' * 1) (e - 2) <> Gt).
  { rewrite Clo. apply Z.compare_le_iff. destruct (Z.even m); lia. }
  assert (Hhi : cmp2 ((4 * m + 2) * 10 ^ Z.of_nat f') (v' * 1) (e - 2) <> Lt).
  { rewrite Chi. apply Z.compare_ge_iff. destruct (Z.even m); lia. }
  assert (Hpoint : -330 <= Z.of_nat (numDigits v') - Z.of_nat f' <= 310).
  { apply (point_in_range lo4 (4 * m + 2) v' (e - 2)); try assumption; lia. }
  unfold numberValue. cbn [mant isHex negative expo].
  destruct (Z.eqb_spec v' 0) as [|_]; [lia|].
  destruct (Z.ltb_spec 310 (Z.of_nat (numDigits v') + - Z.of_nat f')); [lia|].
  destruct (Z.ltb_spec (Z.of_nat (numDigits v') + - Z.of_nat f') (-330)); [lia|].
  rewrite Z.max_l, Z.max_r by lia. rewrite Z.opp_involutive. change (10 ^ 0) with 1.
  apply roundToFloat_interval; try assumption.
  - lia.
  - apply Z.pow_pos_nonneg; lia.
  - intros Hodd. fold lo4. rewrite Clo, Chi. rewrite Hodd in HV. split.
    + apply Z.compare_lt_iff. lia.
    + apply Z.compare_gt_iff. lia.
Qed.

Lemma ParseFloat_FormatFloat (x : float64) :
  printable x -> ParseFloat (FormatFloat x) = OK x.
Proof.
  destruct x as [s|s| |s m e]; cbn [printable].
  - intros ->. reflexivity.
  - intros ->. reflexivity.
  - reflexivity.
  - intros [-> Hc]. now apply ParseFloat_FormatFloat_finite.
Qed.

(** ** What ParseFloat returns *)

Lemma readDigits_mantissa (hex : bool) (s : string) :
  forall st, 0 <= mantissa st -> 0 <= mantissa (fst (readDigits hex st s)).
Proof.
  induction s as [|c s IH]; intros st Hm; [assumption|].
  cbn [readDigits].
  destruct (Ascii.eqb c "_"); [now apply IH|].
  destruct (Ascii.eqb c ".").
  { destruct (sawdot st); [assumption|now apply IH]. }
  destruct (isDigit c) eqn:Hd.
  { destruct (Ascii.eqb c "0" && (nd st =? 0)); apply IH; cbn [mantissa]; [assumption|].
    unfold isDigit in Hd. apply andb_true_iff in Hd. destruct Hd as [Hd _].
    apply Z.leb_le in Hd. unfold digitVal. destruct hex; lia. }
  destruct (hex && isHexLetter c) eqn:Hh; [|assumption].
  apply IH. cbn [mantissa]. apply andb_true_iff in Hh. destruct Hh as [_ Hh].
  unfold isHexLetter in Hh. apply andb_true_iff in Hh. destruct Hh as [Hh _].
  apply Z.leb_le in Hh. unfold hexLetterVal. lia.
Qed.

Lemma finishNumber_fields (s : string) (neg hex : bool) (st : scan) (nd1 dp2 : Z)
    (us : bool) (t : string) (x : number) :
  finishNumber s neg hex st nd1 dp2 us t = Some x ->
  negative x = neg /\ isHex x = hex /\ mant x = mantissa st.
Proof.
  unfold finishNumber. destruct (us && _); [discriminate|].
  intros [= <-]. repeat split.
Qed.

Lemma readExponent_fields (s : string) (neg hex : bool) (st : scan) (t : string)
    (x : number) :
  readExponent s neg hex st t = Some x ->
  negative x = neg /\ isHex x = hex /\ mant x = mantissa st.
Proof.
  unfold readExponent.
  destruct (if hex then _ else _) as [dp1 nd1].
  destruct t as [|c t1].
  - destruct hex; [discriminate|]. apply finishNumber_fields.
  - destruct (lower c =? _).
    + destruct t1 as [|c1 t2]; [discriminate|].
      destruct (if Ascii.eqb c1 "+" then _ else _) as [esign t3].
      destruct t3 as [|c3 t4]; [discriminate|].
      destruct (negb (isDigit c3)); [discriminate|].
      destruct (readExpDigits 0 (underscores st) (String c3 t4)) as [[e us] t5].
      apply finishNumber_fields.
    + destruct hex; [discriminate|]. apply finishNumber_fields.
Qed.

Lemma readFloat_fields (s : string) (x : number) :
  readFloat s = Some x ->
  negative x = HasPrefix s "-" /\ 0 <= mant x.
Proof.
  unfold readFloat. destruct s as [|c t]; [discriminate|].
  assert (Hsign : fst (readSign (String c t)) = HasPrefix (String c t) "-").
  { unfold readSign, HasPrefix.
    destruct (Ascii.eqb_spec c "+") as [->|]; [reflexivity|].
    destruct (Ascii.eqb c "-"); reflexivity. }
  destruct (readSign (String c t)) as [neg t1]. cbn [fst] in Hsign.
  destruct (hexPrefix t1) as [hex t2].
  pose proof (readDigits_mantissa hex t2 (mkScan false false 0 0 0 false) ltac:(simpl; lia))
    as Hm.
  destruct (readDigits hex (mkScan false false 0 0 0 false) t2) as [st t3].
  cbn [fst] in Hm.
  destruct (negb (sawdigits st)); [discriminate|].
  intros H. apply readExponent_fields in H. destruct H as (-> & _ & ->). now split.
Qed.

Lemma numberValue_printable (x : number) (v : float64) :
  0 <= mant x ->
  numberValue x = OK v ->
  match v with
  | Zero s => s = negative x
  | Finite s m e => s = negative x /\ canonical m e
  | _ => False
  end.
Proof.
  intros Hm. unfold numberValue.
  destruct (Z.eqb_spec (mant x) 0) as [|Hz]; [intros [= <-]; reflexivity|].
  assert (Hpos : 0 < mant x) by lia.
  destruct (isHex x).
  - apply roundToFloat_canonical.
    + apply Z.mul_pos_pos; [assumption|apply Z.pow_pos_nonneg; lia].
    + apply Z.pow_pos_nonneg; lia.
  - destruct (310 <? _); [discriminate|].
    destruct (_ <? -330); [intros [= <-]; reflexivity|].
    apply roundToFloat_canonical.
    + apply Z.mul_pos_pos; [assumption|apply Z.pow_pos_nonneg; lia].
    + apply Z.pow_pos_nonneg; lia.
Qed.

Lemma special_printable (s : string) (v : float64) (n : nat) :
  special s = Some (v, n) ->
  match v with
  | Inf neg => neg = HasPrefix s "-"
  | NaN => HasPrefix s "-" = false
  | _ => False
  end.
Proof.
  unfold special. destruct s as [|c t]; [discriminate|]. cbn [HasPrefix].
  assert (Hinf : forall neg nsign u,
             specialInf neg nsign u = Some (v, n) -> v = Inf neg).
  { intros neg nsign u. unfold specialInf. destruct (_ || _); [|discriminate].
    now intros [= <- _]. }
  destruct (Ascii.eqb_spec c "+") as [->|Hp].
  { intros H. apply Hinf in H. subst v. reflexivity. }
  destruct (Ascii.eqb_spec c "-") as [->|Hm].
  { intros H. apply Hinf in H. subst v. reflexivity. }
  destruct (Ascii.eqb c "i" || Ascii.eqb c "I").
  { intros H. apply Hinf in H. subst v. reflexivity. }
  destruct (Ascii.eqb c "n" || Ascii.eqb c "N"); [|discriminate].
  destruct (_ =? 3)%nat; [|discriminate]. intros [= <- _]. reflexivity.
Qed.

(** The value ParseFloat returns has the sign the string starts with; with
    the sign taken off, as the program does before it formats a credit, it
    is printable. *)
Lemma ParseFloat_printable (s : string) (x : float64) :
  ParseFloat s = OK x ->
  printable (if HasPrefix s "-" then Neg x else x).
Proof.
  unfold ParseFloat. destruct (special s) as [[v n]|] eqn:Es.
  - destruct (_ =? _)%nat; [|discriminate]. intros [= <-].
    apply special_printable in Es. destruct v as [| neg | |]; try contradiction.
    + subst neg. destruct (HasPrefix s "-"); reflexivity.
    + rewrite Es. exact I.
  - destruct (readFloat s) as [y|] eqn:Er; [|discriminate].
    apply readFloat_fields in Er. destruct Er as [Hneg Hm].
    destruct (rest y); [|discriminate]. intros H.
    apply (numberValue_printable y x Hm) in H. rewrite <- Hneg.
    destruct x as [sg| | |sg m e]; try contradiction.
    + subst sg. destruct (negative y); reflexivity.
    + destruct H as [-> Hc]. destruct (negative y); split; try reflexivity; assumption.
Qed.

(** ** The shape of a rendered amount *)

Lemma plainFrom_digits (a : string) :
  forall (seen : bool) (tail : string),
    allDigits a = true ->
    plainFrom seen (a ++ tail) = plainFrom (seen || negb (String.eqb a "")) tail.
Proof.
  induction a as [|c a IH]; intros seen tail Ha.
  - simpl. now rewrite orb_false_r.
  - simpl in Ha. apply andb_true_iff in Ha. destruct Ha as [Hc Ha].
    cbn [append plainFrom]. rewrite Hc, IH by assumption.
    simpl. now rewrite orb_true_r.
Qed.

Lemma fixedDigits_not_empty (w : nat) (n : Z) : String.eqb (fixedDigits (S w) n "") "" = false.
Proof.
  destruct (head_fixedDigits w n) as (c & t & -> & _). reflexivity.
Qed.

Lemma isPlainDecimal_fmtF (v : Z) (f : nat) : 0 <= v -> isPlainDecimal (fmtF v f) = true.
Proof.
  intros Hv. destruct (fmtF_plain v f Hv) as (w & ip & F & _ & _ & _ & ->).
  unfold isPlainDecimal. rewrite plainFrom_digits by apply allDigits_fixedDigits.
  rewrite fixedDigits_not_empty. destruct f as [|f]; [reflexivity|].
  cbn [plainFrom orb negb]. change (isDigit ".") with false.
  change (Ascii.eqb "." ".") with true. cbv iota.
  now rewrite fixedDigits_not_empty, allDigits_fixedDigits.
Qed.

Lemma digit_no_sign_comma (c : ascii) :
  isDigit c = true \/ c = "."%char -> Ascii.eqb c "," = false /\ Ascii.eqb c "-" = false.
Proof.
  intros [H| ->]; [|split; reflexivity].
  destruct c as [[] [] [] [] [] [] [] []]; try discriminate H; split; reflexivity.
Qed.

Lemma allDigits_contains (s : string) :
  allDigits s = true -> contains "," s = false /\ contains "-" s = false.
Proof.
  induction s as [|c s IH]; intros H; [split; reflexivity|].
  simpl in H. apply andb_true_iff in H. destruct H as [Hc Hs].
  destruct (IH Hs) as [H1 H2]. destruct (digit_no_sign_comma c (or_introl Hc)) as [H3 H4].
  cbn [contains]. now rewrite H1, H2, H3, H4.
Qed.

Lemma plainFrom_contains (s : string) :
  forall seen, plainFrom seen s = true -> contains "," s = false /\ contains "-" s = false.
Proof.
  induction s as [|c s IH]; intros seen H; [split; reflexivity|].
  cbn [plainFrom] in H. cbn [contains].
  destruct (isDigit c) eqn:Hc.
  - destruct (IH _ H) as [H1 H2].
    destruct (digit_no_sign_comma c (or_introl Hc)) as [H3 H4].
    now rewrite H1, H2, H3, H4.
  - destruct (Ascii.eqb_spec c ".") as [->|]; [|discriminate].
    apply andb_true_iff in H. destruct H as [_ H].
    destruct (allDigits_contains s H) as [H1 H2]. now rewrite H1, H2.
Qed.

Lemma FormatFloat_shape (x : float64) :
  printable x ->
  match x with
  | NaN => FormatFloat x = "NaN"
  | Inf _ => FormatFloat x = "+Inf"
  | _ => isPlainDecimal (FormatFloat x) = true
  end
  /\ contains "," (FormatFloat x) = false
  /\ contains "-" (FormatFloat x) = false.
Proof.
  destruct x as [s|s| |s m e]; cbn [printable FormatFloat].
  - intros ->. repeat split.
  - intros ->. repeat split.
  - intros _. repeat split.
  - intros [-> (Hm & _)]. cbn [signString]. simpl append.
    unfold shortest, computeBounds.
    set (lo4 := if (m =? 2 ^ mantbits) && (minExp <? e) then 4 * m - 1 else 4 * m - 2).
    set (unit := 2 ^ Z.max 0 (e - 2) * 5 ^ Z.max 0 (- (e - 2))).
    assert (Hunit : 0 < unit).
    { unfold unit. apply Z.mul_pos_pos; apply Z.pow_pos_nonneg; lia. }
    assert (Hlo4 : 4 * m - 2 <= lo4 < 4 * m) by (unfold lo4; destruct (_ && _); lia).
    set (U := (4 * m + 2) * unit).
    pose proof (shortestFrom_in (Z.even m) (lo4 * unit) (4 * m * unit) U (numDigits U)
                  ltac:(unfold U; nia)) as HV.
    set (V := shortestFrom (Z.even m) (lo4 * unit) (4 * m * unit) U (numDigits U)) in *.
    assert (HVpos : 0 < V) by (destruct (Z.even m); nia).
    destruct (trimZeros_spec (Z.to_nat (- (e - 2))) V) as [Hf HVv].
    destruct (trimZeros (Z.to_nat (- (e - 2))) V) as [v' f']. cbn [fst snd] in *.
    assert (Hv' : 0 <= v').
    { assert (0 < 10 ^ (Z.of_nat (Z.to_nat (- (e - 2))) - Z.of_nat f'))
        by (apply Z.pow_pos_nonneg; lia). nia. }
    pose proof (isPlainDecimal_fmtF v' f' Hv') as Hp.
    destruct (plainFrom_contains _ _ Hp) as [H1 H2]. auto.
Qed.

(** ** The row loop *)

Lemma appendRecord_changes (w : Writer) (record : list string) : appendRecord w record <> w.
Proof.
  destruct w as [s p]. unfold appendRecord. simpl. intros H.
  injection H as H. apply append_same_l in H. now apply encodeRecord_not_empty in H.
Qed.

Lemma processRow_extract (rowIndex : nat) (row : Row) (cw dw : Writer) :
  processRow rowIndex row (cw, dw) =
  match extractRow rowIndex row with
  | None => OK (cw, dw)
  | Some (Credit, record) => OK (appendRecord cw record, dw)
  | Some (Debit, record) => OK (cw, appendRecord dw record)
  end.
Proof.
  unfold processRow. destruct (extractRow rowIndex row) as [[[|] record]|]; reflexivity.
Qed.

Lemma extractRow_skipped (rowIndex : nat) (row : Row) :
  extractRow rowIndex row = None <-> skipped rowIndex row.
Proof.
  unfold extractRow, skipped. fold (cleanedAmount row).
  destruct (Nat.eqb_spec rowIndex 0) as [Hi|Hi]; simpl.
  { split; auto. }
  destruct (Nat.ltb_spec (List.length row) 39) as [Hl|Hl]; simpl.
  { split; auto. }
  destruct (String.eqb_spec (cleanedAmount row) "") as [He|He]; simpl.
  { split; auto. }
  destruct (String.eqb_spec (cleanedAmount row) "Amount") as [Ha|Ha]; simpl.
  { split; auto 6. }
  destruct (ParseFloat (cleanedAmount row)) as [amount|e] eqn:Hp.
  - split.
    + destruct (HasPrefix (cleanedAmount row) "-"); discriminate.
    + intros [H|[H|[H|[H|[e H]]]]]; try contradiction; try lia; discriminate.
  - split; eauto 8.
Qed.

Lemma processRow_OK (rowIndex : nat) (row : Row) (ws : Writer * Writer) :
  exists ws', processRow rowIndex row ws = OK ws'.
Proof.
  destruct ws as [cw dw]. rewrite processRow_extract.
  destruct (extractRow rowIndex row) as [[[|] record]|]; eauto.
Qed.

Lemma processRows_OK (rows : list Row) :
  forall rowIndex ws, exists ws', processRows rowIndex rows ws = OK ws'.
Proof.
  induction rows as [|row rows IH]; intros rowIndex ws; simpl.
  - eauto.
  - destruct (processRow_OK rowIndex row ws) as [ws' ->]. simpl. apply IH.
Qed.

(** C1.  A retained row whose cleaned amount parses goes to exactly one
    writer: with a leading minus sign its record, carrying the rendering of
    the negated value, is appended to the credit writer and the debit
    writer is as before; without one its record, carrying the rendering of
    the value, is appended to the debit writer and the credit writer is as
    before. *)
Theorem row_goes_to_one_bucket_by_sign :
  forall (rowIndex : nat) (row : Row) (amount : float64) (cw dw : Writer),
    retained rowIndex row ->
    ParseFloat (cleanedAmount row) = OK amount ->
    (if HasPrefix (cleanedAmount row) "-"
     then extractRow rowIndex row
          = Some (Credit, [nth 0 row ""; nth 24 row ""; FormatFloat (Neg amount)])
          /\ processRow rowIndex row (cw, dw)
             = OK (appendRecord cw [nth 0 row ""; nth 24 row ""; FormatFloat (Neg amount)], dw)
     else extractRow rowIndex row
          = Some (Debit, [nth 0 row ""; nth 24 row ""; FormatFloat amount])
          /\ processRow rowIndex row (cw, dw)
             = OK (cw, appendRecord dw [nth 0 row ""; nth 24 row ""; FormatFloat amount])).
Proof.
  intros rowIndex row amount cw dw (Hi & Hl & He & Ha) Hp.
  rewrite processRow_extract. unfold extractRow. fold (cleanedAmount row).
  apply Nat.eqb_neq in Hi. rewrite Hi.
  apply Nat.ltb_ge in Hl. rewrite Hl.
  apply String.eqb_neq in He, Ha. rewrite He, Ha, Hp. simpl.
  destruct (HasPrefix (cleanedAmount row) "-"); split; reflexivity.
Qed.

(** The two rows of the spec's example: "-1,234.50" gives a credit of
    1234.5 and "500" a debit of 500. *)
Lemma row_goes_to_one_bucket_by_sign_witness :
  processRow 1 (dataRow "REF1" "MEMO1" "-1,234.50") (NewWriter, NewWriter)
  = OK (mkWriter "" ("REF1,MEMO1,1234.5" ++ newline), NewWriter)
  /\ processRow 2 (dataRow "REF2" "MEMO2" "500") (NewWriter, NewWriter)
     = OK (NewWriter, mkWriter "" ("REF2,MEMO2,500" ++ newline)).
Proof.
  split.
  - assert (Hr : retained 1 (dataRow "REF1" "MEMO1" "-1,234.50"))
      by (repeat split; (try (simpl; lia)); vm_compute; discriminate).
    pose proof (fun amount Hp =>
                  proj2 (row_goes_to_one_bucket_by_sign 1 _ amount NewWriter NewWriter Hr Hp)) as H.
    specialize (H _ ltac:(vm_compute; reflexivity)).
    vm_compute in H. vm_compute. exact H.
  - assert (Hr : retained 2 (dataRow "REF2" "MEMO2" "500"))
      by (repeat split; (try (simpl; lia)); vm_compute; discriminate).
    pose proof (fun amount Hp =>
                  proj2 (row_goes_to_one_bucket_by_sign 2 _ amount NewWriter NewWriter Hr Hp)) as H.
    specialize (H _ ltac:(vm_compute; reflexivity)).
    vm_compute in H. vm_compute. exact H.
Defined.

Lemma row_skips (rowIndex : nat) (row : Row) (ws : Writer * Writer) :
  processRow rowIndex row ws = OK ws <-> skipped rowIndex row.
Proof.
  destruct ws as [cw dw]. rewrite <- extractRow_skipped, processRow_extract.
  destruct (extractRow rowIndex row) as [[[|] record]|]; split; intros H;
    try reflexivity; try discriminate; exfalso.
  - apply (appendRecord_changes cw record). congruence.
  - apply (appendRecord_changes dw record). congruence.
Qed.

(** Every record the row loop writes carries the rendering of a printable
    value. *)
Lemma extractRow_amount (rowIndex : nat) (row : Row) (bucket : Bucket)
    (record : list string) :
  extractRow rowIndex row = Some (bucket, record) ->
  exists x, printable x /\ record = [nth 0 row ""; nth 24 row ""; FormatFloat x].
Proof.
  unfold extractRow. fold (cleanedAmount row).
  destruct (_ || _); [discriminate|].
  destruct (_ || _); [discriminate|].
  destruct (ParseFloat (cleanedAmount row)) as [amount|] eqn:Hp; [|discriminate].
  apply ParseFloat_printable in Hp.
  destruct (HasPrefix (cleanedAmount row) "-"); intros [= <- <-]; eauto.
Qed.

(** ** The ledger *)

Lemma encodeRecords_app (xs ys : list (list string)) :
  encodeRecords (xs ++ ys) = (encodeRecords xs ++ encodeRecords ys)%string.
Proof.
  induction xs as [|x xs IH]; simpl; [reflexivity|]. now rewrite IH, append_assoc.
Qed.

Lemma ofBucket_app (b : Bucket) (xs ys : list (Bucket * list string)) :
  ofBucket b (xs ++ ys) = ofBucket b xs ++ ofBucket b ys.
Proof. unfold ofBucket. now rewrite filter_app, map_app. Qed.

Lemma ofBucket_In (b : Bucket) (records : list (Bucket * list string)) (record : list string) :
  In record (ofBucket b records) -> exists b', In (b', record) records.
Proof.
  unfold ofBucket. intros H. apply in_map_iff in H. destruct H as ([b' r] & <- & H).
  apply filter_In in H. exists b'. apply H.
Qed.

(** The row loop appends the records of the rows to the two writers, each
    to its bucket, in the order of the rows. *)
Lemma processRows_records (rows : list Row) :
  forall (rowIndex : nat) (cw dw : Writer),
    processRows rowIndex rows (cw, dw)
    = OK (mkWriter (sink cw)
            (pending cw ++ encodeRecords (ofBucket Credit (rowRecords rowIndex rows))),
          mkWriter (sink dw)
            (pending dw ++ encodeRecords (ofBucket Debit (rowRecords rowIndex rows)))).
Proof.
  induction rows as [|row rows IH]; intros rowIndex cw dw.
  - cbn. rewrite !append_empty_r. now destruct cw, dw.
  - cbn [processRows rowRecords]. rewrite processRow_extract.
    destruct (extractRow rowIndex row) as [[[|] record]|]; cbn [bind]; rewrite IH.
    + unfold appendRecord. cbn. now rewrite append_assoc.
    + unfold appendRecord. cbn. now rewrite append_assoc.
    + reflexivity.
Qed.

Lemma processSheet_records (sh : Sheet) (cw dw : Writer) :
  pending cw = "" -> pending dw = "" ->
  processSheet sh (cw, dw)
  = match sheetRecords sh with
    | Err e => Err e
    | OK records =>
        OK (mkWriter (sink cw ++ encodeRecords (ofBucket Credit records)) "",
            mkWriter (sink dw ++ encodeRecords (ofBucket Debit records)) "")
    end.
Proof.
  intros Hc Hd. unfold processSheet, sheetRecords.
  destruct (trimSheet sh) as [sh'|e]; [|reflexivity]. cbn [bind GetRows].
  destruct (trimTrailingEmpty (Rows sh')) as [|row rows].
  - cbn. rewrite !append_empty_r. destruct cw, dw. cbn in Hc, Hd. now subst.
  - cbn [List.length Nat.eqb]. rewrite processRows_records. cbn [bind fst snd].
    unfold Flush. cbn [sink pending]. now rewrite Hc, Hd.
Qed.

Lemma forRange_records (sheets : list Sheet) :
  forall cw dw : Writer,
    pending cw = "" -> pending dw = "" ->
    forRange sheets processSheet (cw, dw)
    = match fileRecords sheets with
      | Err e => Err e
      | OK records =>
          OK (mkWriter (sink cw ++ encodeRecords (ofBucket Credit records)) "",
              mkWriter (sink dw ++ encodeRecords (ofBucket Debit records)) "")
      end.
Proof.
  induction sheets as [|sh sheets IH]; intros cw dw Hc Hd.
  - cbn. rewrite !append_empty_r. destruct cw, dw. cbn in Hc, Hd. now subst.
  - cbn [forRange fileRecords]. rewrite processSheet_records by assumption.
    destruct (sheetRecords sh) as [records|e]; [|reflexivity]. cbn [bind].
    rewrite IH by reflexivity. cbn [sink].
    destruct (fileRecords sheets) as [records'|e]; [|reflexivity]. cbn [bind].
    now rewrite !ofBucket_app, !encodeRecords_app, !append_assoc.
Qed.

(** The two texts CleanSpreadsheet returns are those of the credit and the
    debit records of the workbook, in the order of the sheets and rows. *)
Lemma CleanSpreadsheet_records (fs : FileSystem) (filePath : string) :
  CleanSpreadsheet fs filePath
  = (f <- OpenFile fs filePath ;;
     records <- fileRecords (GetSheetList f) ;;
     OK (encodeRecords (ofBucket Credit records), encodeRecords (ofBucket Debit records))).
Proof.
  unfold CleanSpreadsheet. destruct (OpenFile fs filePath) as [f|e]; [|reflexivity].
  cbn [bind]. rewrite forRange_records by reflexivity.
  destruct (fileRecords (GetSheetList f)) as [records|e]; reflexivity.
Qed.

Lemma rowRecords_In (rows : list Row) :
  forall (rowIndex : nat) (r : Bucket * list string),
    In r (rowRecords rowIndex rows) -> exists j row, extractRow j row = Some r.
Proof.
  induction rows as [|row rows IH]; intros rowIndex r H; [destruct H|].
  cbn [rowRecords] in H. destruct (extractRow rowIndex row) as [r'|] eqn:E.
  - destruct H as [->|H]; [eauto|now apply (IH (S rowIndex))].
  - now apply (IH (S rowIndex)).
Qed.

Lemma fileRecords_In (sheets : list Sheet) :
  forall (records : list (Bucket * list string)) (r : Bucket * list string),
    fileRecords sheets = OK records ->
    In r records -> exists j row, extractRow j row = Some r.
Proof.
  induction sheets as [|sh sheets IH]; intros records r H Hin.
  - injection H as <-. destruct Hin.
  - cbn [fileRecords] in H. unfold sheetRecords in H.
    destruct (trimSheet sh) as [sh'|]; [|discriminate]. cbn [bind GetRows] in H.
    destruct (fileRecords sheets) as [records'|]; [|discriminate].
    cbn [bind] in H. injection H as <-. apply in_app_or in Hin.
    destruct Hin as [Hin|Hin]; [now apply rowRecords_In in Hin|now apply (IH records')].
Qed.

(** Every record of a run comes with the rendering of a printable value. *)
Lemma record_amountShape (rowIndex : nat) (row : Row) (bucket : Bucket)
    (record : list string) :
  extractRow rowIndex row = Some (bucket, record) -> amountShape (amountOf record).
Proof.
  intros H. destruct (extractRow_amount _ _ _ _ H) as (x & Hx & ->).
  exists x. unfold amountOf. cbn [nth].
  destruct (FormatFloat_shape x Hx) as (Hshape & Hcomma & Hminus).
  repeat split; assumption.
Qed.

(** The records behind the two texts of a run. *)
Lemma CleanSpreadsheet_written (fs : FileSystem) (filePath credits debits : string) :
  CleanSpreadsheet fs filePath = OK (credits, debits) ->
  exists creditRecords debitRecords : list (list string),
    credits = encodeRecords creditRecords
    /\ debits = encodeRecords debitRecords
    /\ forall record,
         In record (creditRecords ++ debitRecords) ->
         exists rowIndex row bucket, extractRow rowIndex row = Some (bucket, record).
Proof.
  rewrite CleanSpreadsheet_records. destruct (OpenFile fs filePath) as [f|]; [|discriminate].
  cbn [bind]. destruct (fileRecords (GetSheetList f)) as [records|] eqn:E; [|discriminate].
  cbn [bind]. intros [= <- <-].
  exists (ofBucket Credit records), (ofBucket Debit records).
  split; [reflexivity|]. split; [reflexivity|].
  intros record H. apply in_app_or in H.
  assert (Hin : exists b, In (b, record) records)
    by (destruct H as [H|H]; apply ofBucket_In in H; exact H).
  destruct Hin as [b Hin].
  destruct (fileRecords_In _ _ _ E Hin) as (j & row & Hr). eauto.
Qed.

Lemma fileRecords_app (sheets1 sheets2 : list Sheet) :
  fileRecords (sheets1 ++ sheets2)
  = (records1 <- fileRecords sheets1 ;;
     records2 <- fileRecords sheets2 ;;
     OK (records1 ++ records2)).
Proof.
  induction sheets1 as [|sh sheets1 IH]; cbn [app fileRecords bind].
  - destruct (fileRecords sheets2); reflexivity.
  - destruct (sheetRecords sh) as [records|e]; [|reflexivity]. cbn [bind].
    rewrite IH. destruct (fileRecords sheets1) as [records1|e]; [|reflexivity].
    cbn [bind]. destruct (fileRecords sheets2) as [records2|e]; [|reflexivity].
    cbn [bind]. now rewrite app_assoc.
Qed.

(** ** Skipped rows *)

Lemma rowRecords_app (rows1 rows2 : list Row) :
  forall rowIndex : nat,
    rowRecords rowIndex (rows1 ++ rows2)
    = rowRecords rowIndex rows1 ++ rowRecords (rowIndex + List.length rows1) rows2.
Proof.
  induction rows1 as [|row rows1 IH]; intros rowIndex; cbn [app rowRecords List.length].
  - now rewrite Nat.add_0_r.
  - rewrite IH, Nat.add_succ_comm.
    destruct (extractRow rowIndex row); reflexivity.
Qed.

(** The records of a sheet with a skipped row: those of the rows before
    it and those of the rows after it, each row at its own index. *)
Lemma rowRecords_skip (before after : list Row) (row : Row) :
  skipped (List.length before) row ->
  rowRecords 0 (before ++ row :: after)
  = rowRecords 0 before ++ rowRecords (S (List.length before)) after.
Proof.
  intros H. apply extractRow_skipped in H.
  rewrite rowRecords_app. cbn [rowRecords Nat.add]. now rewrite H.
Qed.

(** C5.  A row is passed over exactly when it is skipped in the spec's
    sense (index 0 after the trim, fewer than 39 cells, an empty or
    "Amount" amount once the commas are gone, or an amount that does not
    parse): the body of the row loop never returns an error, and it leaves
    both writers as they were for these rows and no others; the loop then
    goes on with the next row, and never fails.  For the whole transform:
    a skipped row of a sheet, in a workbook that opens and whose sheets up
    to this one can be trimmed, does not stop the run.  The run goes on
    with the rows after it and with the sheets after, and returns what
    these give: the error of a later sheet that cannot be trimmed, or else
    the two texts with the records of the sheets before, of the rows
    before the skipped row, of the rows after it and of the sheets after,
    in this order, and nothing for the row itself. *)
Theorem row_skipped_exactly_when :
  (forall rowIndex row ws, exists ws', processRow rowIndex row ws = OK ws')
  /\ (forall rowIndex row ws, processRow rowIndex row ws = OK ws <-> skipped rowIndex row)
  /\ (forall rowIndex row rows ws,
        skipped rowIndex row ->
        processRows rowIndex (row :: rows) ws = processRows (S rowIndex) rows ws)
  /\ (forall rowIndex rows ws, exists ws', processRows rowIndex rows ws = OK ws')
  /\ (forall (fs : FileSystem) (path : string) (f : File)
             (sheets1 sheets2 : list Sheet) (sh sh' : Sheet)
             (before after : list Row) (row : Row)
             (records1 : list (Bucket * list string)),
        fs path = Some f ->
        Sheets f = sheets1 ++ sh :: sheets2 ->
        fileRecords sheets1 = OK records1 ->
        trimSheet sh = OK sh' ->
        GetRows sh' = OK (before ++ row :: after) ->
        skipped (List.length before) row ->
        CleanSpreadsheet fs path
        = (records2 <- fileRecords sheets2 ;;
           let records :=
             records1 ++ rowRecords 0 before
             ++ rowRecords (S (List.length before)) after ++ records2 in
           OK (encodeRecords (ofBucket Credit records),
               encodeRecords (ofBucket Debit records)))).
Proof.
  split; [exact processRow_OK|]. split; [exact row_skips|]. split; [|split].
  - intros rowIndex row rows [cw dw] H. apply extractRow_skipped in H.
    cbn [processRows]. rewrite processRow_extract, H. reflexivity.
  - intros rowIndex rows ws. apply processRows_OK.
  - intros fs path f sheets1 sheets2 sh sh' before after row records1
      Hf Hs H1 Ht Hr Hskip.
    rewrite CleanSpreadsheet_records. unfold OpenFile, GetSheetList.
    rewrite Hf. cbn [bind]. rewrite Hs, fileRecords_app, H1. cbn [bind fileRecords].
    unfold sheetRecords. rewrite Ht. cbn [bind]. rewrite Hr. cbn [bind].
    destruct (fileRecords sheets2) as [records2|e]; cbn [bind]; [|reflexivity].
    rewrite (rowRecords_skip _ _ _ Hskip). now rewrite <- !app_assoc.
Qed.

(** A workbook of two sheets: the second row of the first sheet after the
    trim reads "n/a" for its amount and is skipped; the credit of the row
    after it and the debit of the second sheet are written. *)
Lemma row_skipped_exactly_when_witness :
  CleanSpreadsheet skipFiles "book.xlsx"
  = OK (("REF2,MEMO2,7" ++ newline)%string, ("REF,MEMO,5" ++ newline)%string).
Proof.
  assert (Hskip : skipped (List.length [["text"]])
                    (dataRow "REF1" "MEMO1" "n/a")).
  { right. right. right. right. exists ErrSyntax. vm_compute. reflexivity. }
  pose proof (proj2 (proj2 (proj2 (proj2 row_skipped_exactly_when)))
                skipFiles "book.xlsx" (mkFile "book.xlsx" [skipSheet; shortSheet])
                [] [shortSheet] skipSheet
                (mkSheet "Sheet0" []
                   ([["text"]; dataRow "REF1" "MEMO1" "n/a"; dataRow "REF2" "MEMO2" "-7"]
                    ++ repeat ["text"] 4))
                [["text"]] ([dataRow "REF2" "MEMO2" "-7"] ++ repeat ["text"] 4)
                (dataRow "REF1" "MEMO1" "n/a")
                []
                eq_refl eq_refl eq_refl) as H.
  specialize (H ltac:(vm_compute; reflexivity) ltac:(vm_compute; reflexivity) Hskip).
  vm_compute in H. vm_compute. exact H.
Defined.

(** ** The amounts written *)

(** C7, as stated, fails: a cell that spells NaN parses, and the record
    written carries "NaN", which is no decimal; "-Infinity" gives a credit
    of "+Inf". *)
Lemma NaN_amount_is_written :
  CleanSpreadsheet nanFiles "book.xlsx" = OK ("", ("REF,MEMO,NaN" ++ newline)%string)
  /\ extractRow 1 (dataRow "REF" "MEMO" "NaN") = Some (Debit, ["REF"; "MEMO"; "NaN"])
  /\ isPlainDecimal "NaN" = false
  /\ extractRow 1 (dataRow "REF" "MEMO" "-Infinity") = Some (Credit, ["REF"; "MEMO"; "+Inf"])
  /\ isPlainDecimal "+Inf" = false.
Proof. repeat split; vm_compute; reflexivity. Qed.

(** C7, amended.  The two texts of a run are those of two lists of records,
    gathered over all sheets, and the amount of every one of them is the
    shortest rendering of a value that is not negative: it holds no minus
    sign and no comma, and it is a plain decimal (digits, or digits, a
    point and digits) unless the value is a NaN or an infinity, whose
    renderings are "NaN" and "+Inf". *)
Theorem written_amount_shape :
  forall (fs : FileSystem) (filePath credits debits : string),
    CleanSpreadsheet fs filePath = OK (credits, debits) ->
    exists creditRecords debitRecords : list (list string),
      credits = encodeRecords creditRecords
      /\ debits = encodeRecords debitRecords
      /\ forall record,
           In record (creditRecords ++ debitRecords) -> amountShape (amountOf record).
Proof.
  intros fs filePath credits debits H.
  destruct (CleanSpreadsheet_written _ _ _ _ H) as (cr & dr & Hc & Hd & Hrec).
  exists cr, dr. split; [assumption|]. split; [assumption|].
  intros record Hin. destruct (Hrec record Hin) as (j & row & b & Hr).
  exact (record_amountShape _ _ _ _ Hr).
Qed.

Lemma written_amount_shape_witness :
  exists creditRecords debitRecords : list (list string),
    "" = encodeRecords creditRecords
    /\ ("REF,MEMO,5" ++ newline)%string = encodeRecords debitRecords
    /\ forall record,
         In record (creditRecords ++ debitRecords) -> amountShape (amountOf record).
Proof.
  refine (written_amount_shape shortFiles "book.xlsx" "" ("REF,MEMO,5" ++ newline)%string _).
  vm_compute. reflexivity.
Defined.

(** C8.  The amount of every record behind the two texts of a run reads
    back, with ParseFloat, as a value whose rendering is that same
    string. *)
Theorem written_amount_reparses :
  forall (fs : FileSystem) (filePath credits debits : string),
    CleanSpreadsheet fs filePath = OK (credits, debits) ->
    exists creditRecords debitRecords : list (list string),
      credits = encodeRecords creditRecords
      /\ debits = encodeRecords debitRecords
      /\ forall record,
           In record (creditRecords ++ debitRecords) ->
           exists x : float64,
             ParseFloat (amountOf record) = OK x /\ FormatFloat x = amountOf record.
Proof.
  intros fs filePath credits debits H.
  destruct (CleanSpreadsheet_written _ _ _ _ H) as (cr & dr & Hc & Hd & Hrec).
  exists cr, dr. split; [assumption|]. split; [assumption|].
  intros record Hin. destruct (Hrec record Hin) as (j & row & b & Hr).
  destruct (extractRow_amount _ _ _ _ Hr) as (x & Hx & ->).
  exists x. unfold amountOf. cbn [nth]. split; [|reflexivity].
  now apply ParseFloat_FormatFloat.
Qed.

Lemma written_amount_reparses_witness :
  exists creditRecords debitRecords : list (list string),
    "" = encodeRecords creditRecords
    /\ ("REF,MEMO,5" ++ newline)%string = encodeRecords debitRecords
    /\ forall record,
         In record (creditRecords ++ debitRecords) ->
         exists x : float64,
           ParseFloat (amountOf record) = OK x /\ FormatFloat x = amountOf record.
Proof.
  refine (written_amount_reparses shortFiles "book.xlsx" "" ("REF,MEMO,5" ++ newline)%string _).
  vm_compute. reflexivity.
Defined.

(** ** The removal loops *)

Lemma dropAlternate_nil {A : Type} (n : nat) : dropAlternate n (@nil A) = [].
Proof. destruct n; reflexivity. Qed.

(** Removing at one place, then alternately from the next place on. *)
Lemma removeAt_then_alternate {A : Type} (n a : nat) :
  forall l : list A,
    firstn (S a) (removeAt a l) ++ dropAlternate n (skipn (S a) (removeAt a l))
    = firstn a l ++ dropAlternate (S n) (skipn a l).
Proof.
  induction a as [|a IH]; intros l.
  - destruct l as [|x [|y l]]; simpl.
    + now rewrite dropAlternate_nil.
    + now rewrite dropAlternate_nil.
    + reflexivity.
  - destruct l as [|x l].
    + simpl. now rewrite dropAlternate_nil.
    + specialize (IH l). simpl in IH |- *. now rewrite IH.
Qed.

(** A loop that calls RemoveRow with a number that grows by one removes
    every other row from its first number on. *)
Lemma removeRow_loop (body : Z -> Sheet -> result Sheet) (c : Z) :
  (forall i sh, body i sh = RemoveRow sh (i + c)) ->
  forall (n : nat) (i : Z) (sh : Sheet),
    1 <= i + c ->
    forLoopN n i body sh
    = OK (mkSheet (Name sh) (Merges sh)
            (firstn (Z.to_nat (i + c - 1)) (Rows sh)
             ++ dropAlternate n (skipn (Z.to_nat (i + c - 1)) (Rows sh)))).
Proof.
  intros Hbody n. induction n as [|n IH]; intros i sh Hi.
  - simpl. rewrite firstn_skipn. now destruct sh.
  - cbn [forLoopN]. rewrite Hbody. unfold RemoveRow.
    destruct (Z.ltb_spec (i + c) 1) as [Hlt|_]; [lia|].
    cbn [bind]. rewrite IH by lia. cbn [Name Merges Rows].
    replace (Z.to_nat (i + 1 + c - 1)) with (S (Z.to_nat (i + c - 1))) by lia.
    now rewrite removeAt_then_alternate.
Qed.

Lemma unmerge_loop (mergedCells : list MergeCell) :
  forall sh : Sheet,
    exists merges,
      forRange mergedCells (fun mc sh => UnmergeCell sh mc) sh
      = OK (mkSheet (Name sh) merges (Rows sh)).
Proof.
  induction mergedCells as [|mc mcs IH]; intros sh.
  - exists (Merges sh). now destruct sh.
  - cbn [forRange]. unfold UnmergeCell at 1. cbn [bind].
    destruct (IH (mkSheet (Name sh)
                    (filter (fun m => negb (isOverlap mc m)) (Merges sh)) (Rows sh)))
      as [merges H].
    exists merges. exact H.
Qed.

Lemma head_loop (sh : Sheet) :
  forLoop 1 26 (fun i sh => RemoveRow sh i) sh
  = OK (mkSheet (Name sh) (Merges sh) (dropAlternate 25 (Rows sh))).
Proof.
  unfold forLoop.
  rewrite (removeRow_loop (fun i sh => RemoveRow sh i) 0
             (fun i sh => f_equal (RemoveRow sh) (eq_sym (Z.add_0_r i)))) by lia.
  reflexivity.
Qed.

Lemma tail_loop (sh : Sheet) (len : Z) :
  forLoop (len - 14) len (fun i sh => RemoveRow sh (i + 1)) sh
  = if len <? 14 then Err (ErrInvalidRowNumber (len - 13))
    else OK (mkSheet (Name sh) (Merges sh)
               (firstn (Z.to_nat (len - 14)) (Rows sh)
                ++ dropAlternate 14 (skipn (Z.to_nat (len - 14)) (Rows sh)))).
Proof.
  unfold forLoop. replace (Z.to_nat (len - (len - 14))) with 14%nat by lia.
  destruct (Z.ltb_spec len 14) as [Hlt|Hge].
  - cbn [forLoopN]. unfold RemoveRow at 1.
    destruct (Z.ltb_spec (len - 14 + 1) 1) as [_|Hge]; [|lia].
    cbn [bind]. replace (len - 14 + 1) with (len - 13) by lia. reflexivity.
  - rewrite (removeRow_loop (fun i sh => RemoveRow sh (i + 1)) 1 (fun _ _ => eq_refl)) by lia.
    replace (Z.to_nat (len - 14 + 1 - 1)) with (Z.to_nat (len - 14)) by lia.
    reflexivity.
Qed.

(** The rows trimSheet leaves depend on the rows alone, and are those of
    [trimmedRows]. *)
Lemma trimSheet_rows (sh : Sheet) :
  exists merges,
    trimSheet sh
    = match trimmedRows (Rows sh) with
      | OK rows => OK (mkSheet (Name sh) merges rows)
      | Err e => Err e
      end.
Proof.
  unfold trimSheet, GetMergeCells. cbn [bind].
  destruct (unmerge_loop (Merges sh) sh) as [merges ->]. cbn [bind].
  exists merges. rewrite head_loop. cbn [bind GetRows Name Merges Rows].
  rewrite tail_loop. cbn [Name Merges Rows]. unfold trimmedRows.
  destruct (Z.of_nat (List.length (trimTrailingEmpty (dropAlternate 25 (Rows sh)))) <? 14);
    reflexivity.
Qed.

(** ** What is left after the trim *)

Lemma trimTrailingEmpty_last (l : list Row) :
  forall p, List.length (trimTrailingEmpty l) = S p -> nth p l [] <> [].
Proof.
  induction l as [|r rs IH]; intros p H.
  - discriminate.
  - cbn [trimTrailingEmpty] in H.
    destruct (trimTrailingEmpty rs) as [|x xs] eqn:E.
    + destruct r as [|c cs]; [discriminate|].
      injection H as <-. discriminate.
    + cbn [List.length] in H. injection H as <-.
      cbn [nth]. apply IH. reflexivity.
Qed.

Lemma trimTrailingEmpty_In (l : list Row) (r : Row) :
  In r l -> r <> [] -> trimTrailingEmpty l <> [].
Proof.
  induction l as [|x xs IH]; intros Hin Hr.
  - destruct Hin.
  - cbn [trimTrailingEmpty]. destruct Hin as [->|Hin].
    + destruct (trimTrailingEmpty xs); [destruct r; [contradiction|]|]; discriminate.
    + specialize (IH Hin Hr). destruct (trimTrailingEmpty xs); [contradiction|discriminate].
Qed.

Lemma dropAlternate_keeps_even_places {A : Type} (d : A) (j : nat) :
  forall (n : nat) (l : list A),
    (2 * j + 1 < List.length l)%nat -> In (nth (2 * j + 1) l d) (dropAlternate n l).
Proof.
  induction j as [|j IH]; intros n l Hl.
  - destruct n as [|n]; [now apply nth_In|].
    destruct l as [|x [|y l]]; simpl in Hl; try lia. now left.
  - destruct n as [|n]; [now apply nth_In|].
    destruct l as [|x [|y l]]; simpl in Hl; try lia.
    replace (2 * S j + 1)%nat with (S (S (2 * j + 1))) by lia.
    cbn [nth dropAlternate]. right. apply IH. lia.
Qed.

(** After a trim that did not fail, GetRows never returns an empty list:
    the last row that holds a cell survives both loops. *)
Lemma trimmedRows_not_empty (rows rows' : list Row) :
  trimmedRows rows = OK rows' -> trimTrailingEmpty rows' <> [].
Proof.
  unfold trimmedRows.
  set (rows1 := dropAlternate 25 rows).
  destruct (Z.ltb_spec (Z.of_nat (List.length (trimTrailingEmpty rows1))) 14) as [|Hge];
    [discriminate|].
  intros H. injection H as <-.
  set (len := List.length (trimTrailingEmpty rows1)) in *.
  assert (Hlast : nth (len - 1) rows1 [] <> []).
  { apply trimTrailingEmpty_last. fold len. lia. }
  assert (Hlen : (len - 1 < List.length rows1)%nat).
  { destruct (Nat.lt_ge_cases (len - 1) (List.length rows1)) as [|Hle]; [assumption|].
    now rewrite (nth_overflow _ _ Hle) in Hlast. }
  set (k := Z.to_nat (Z.of_nat len - 14)).
  apply (trimTrailingEmpty_In _ (nth (len - 1) rows1 [])); [|assumption].
  apply in_or_app. right.
  replace (nth (len - 1) rows1 []) with (nth (2 * 6 + 1) (skipn k rows1) []).
  - refine (dropAlternate_keeps_even_places [] 6 14 (skipn k rows1) _).
    rewrite length_skipn. lia.
  - rewrite nth_skipn. f_equal. lia.
Qed.

Lemma written_Flush (w : Writer) : written (Flush w) = written w.
Proof. unfold written, Flush. simpl. apply append_empty_r. Qed.

(** The body of the sheet loop, by the rows of the sheet. *)
Lemma processSheet_rows (sh : Sheet) (ws : Writer * Writer) :
  processSheet sh ws
  = match trimmedRows (Rows sh) with
    | Err e => Err e
    | OK rows =>
        ws' <- processRows 0 (trimTrailingEmpty rows) ws ;;
        OK (Flush (fst ws'), Flush (snd ws'))
    end.
Proof.
  unfold processSheet. destruct (trimSheet_rows sh) as [merges ->].
  destruct (trimmedRows (Rows sh)) as [rows|e] eqn:E; [|reflexivity].
  cbn [bind GetRows Rows].
  apply trimmedRows_not_empty in E.
  destruct (trimTrailingEmpty rows); [contradiction|reflexivity].
Qed.

Lemma processRows_all_skipped (rows : list Row) :
  forall rowIndex ws,
    (forall j row, nth_error rows j = Some row -> skipped (rowIndex + j) row) ->
    processRows rowIndex rows ws = OK ws.
Proof.
  induction rows as [|row rows IH]; intros rowIndex ws H.
  - reflexivity.
  - destruct (row_skips rowIndex row ws) as [_ Hskip].
    cbn [processRows]. rewrite Hskip.
    + cbn [bind]. apply IH. intros j r Hj.
      replace (S rowIndex + j)%nat with (rowIndex + S j)%nat by lia. now apply H.
    + replace rowIndex with (rowIndex + 0)%nat by lia. now apply H.
Qed.

Lemma forRange_rows (sheets1 : list Sheet) :
  forall sheets2 ws,
    map Rows sheets1 = map Rows sheets2 ->
    forRange sheets1 processSheet ws = forRange sheets2 processSheet ws.
Proof.
  induction sheets1 as [|sh1 sheets1 IH]; intros [|sh2 sheets2] ws H; try discriminate.
  - reflexivity.
  - injection H as Hr Hrest. cbn [forRange].
    rewrite (processSheet_rows sh1), (processSheet_rows sh2), Hr.
    destruct (trimmedRows (Rows sh2)) as [rows|e]; [|reflexivity].
    cbn [bind]. destruct (processRows 0 (trimTrailingEmpty rows) ws) as [ws'|e]; [|reflexivity].
    cbn [bind]. now apply IH.
Qed.

(** ** The header and footer trim *)

(** C2.  The two loops do not remove the first 25 rows and the last 14:
    each call shifts the rows below it up, so the first loop removes the
    rows 1, 3, ..., 49 and the second every other row of the last 14 (and
    fails when fewer than 14 rows are left).  On a sheet of 60 numbered
    rows the rows left are not the rows 26 to 46. *)
Theorem trim_leaves_alternate_rows :
  (forall sh : Sheet,
      exists merges,
        trimSheet sh
        = match trimmedRows (Rows sh) with
          | OK rows => OK (mkSheet (Name sh) merges rows)
          | Err e => Err e
          end)
  /\ trimSheet (mkSheet "Sheet1" [] (numberedRows 60))
     = OK (mkSheet "Sheet1" []
             (numbered [2; 4; 6; 8; 10; 12; 14; 16; 18; 20; 22; 24; 26; 28; 30; 32; 34;
                        36; 38; 40; 42; 46; 50; 52; 54; 56; 58; 60]%nat))
  /\ specTrimmedRows (numberedRows 60) = numbered (seq 26 21).
Proof.
  split; [exact trimSheet_rows|]. split; vm_compute; reflexivity.
Qed.

(** C3.  On the workbook of the end-to-end example the data row is row 27,
    which the first loop removes: both texts come out empty, and the
    handler answers that no data was processed. *)
Theorem example_workbook_gives_no_record :
  CleanSpreadsheet exampleFiles "book.xlsx" = OK ("", "")
  /\ uploadHandler (mkEnv (Some "uploaded-1.xlsx") true)
       (mkRequest "POST" (Some (Some [exampleSheet])))
     = HttpError 500 "No data processed from the file"
  /\ In (dataRow "REF1" "MEMO1" "-100") (specTrimmedRows (Rows exampleSheet)).
Proof.
  split; [|split]; vm_compute; auto.
Qed.

(** C6.  A sheet without rows is not skipped: the second loop starts at row
    [len(rows) - 14 + 1], which is below 1 whenever fewer than 14 rows are
    left, and the error of RemoveRow ends the whole transform.  Where the
    trim does not fail GetRows never returns an empty list, so the branch
    that skips an empty sheet is never taken. *)
Theorem empty_sheet_is_fatal :
  CleanSpreadsheet emptyFirstFiles "book.xlsx" = Err (ErrInvalidRowNumber (-13))
  /\ (forall (sh : Sheet) (ws : Writer * Writer),
        let len := Z.of_nat (List.length (trimTrailingEmpty (dropAlternate 25 (Rows sh)))) in
        len < 14 -> processSheet sh ws = Err (ErrInvalidRowNumber (len - 13)))
  /\ (forall (sh sh' : Sheet), trimSheet sh = OK sh' -> GetRows sh' <> OK []).
Proof.
  split; [vm_compute; reflexivity|]. split.
  - intros sh ws len Hlen. rewrite processSheet_rows. unfold trimmedRows. fold len.
    destruct (Z.ltb_spec len 14); [reflexivity|lia].
  - intros sh sh' H. destruct (trimSheet_rows sh) as [merges Hr]. rewrite Hr in H.
    destruct (trimmedRows (Rows sh)) as [rows|e] eqn:E; [|discriminate].
    injection H as <-. unfold GetRows. cbn [Rows]. intros Hn. injection Hn as Hn.
    now apply (trimmedRows_not_empty _ _ E).
Qed.

(** C4, as stated, fails: the sheet [shortSheet] has seven rows left after
    the trim, fewer than 40, and its second row gives a debit record. *)
Lemma few_rows_still_give_records :
  let rows := [["text"]; dataRow "REF" "MEMO" "5"; ["text"]; ["text"]; ["text"];
               ["text"]; ["text"]] in
  trimSheet shortSheet = OK (mkSheet "Sheet1" [] rows)
  /\ GetRows (mkSheet "Sheet1" [] rows) = OK rows
  /\ (List.length rows < 40)%nat
  /\ processSheet shortSheet (NewWriter, NewWriter)
     = OK (NewWriter, mkWriter ("REF,MEMO,5" ++ newline) "").
Proof.
  cbv zeta. repeat split; try (vm_compute; reflexivity). simpl. lia.
Qed.

(** C4, amended.  A sheet contributes no record when every row left after
    the trim, the first one apart, has fewer than 39 cells: the count that
    matters is that of the cells of a row, not that of the rows. *)
Theorem narrow_rows_give_no_record :
  forall (sh sh' : Sheet) (rows : list Row) (ws : Writer * Writer),
    trimSheet sh = OK sh' ->
    GetRows sh' = OK rows ->
    (forall i row, nth_error rows (S i) = Some row -> (List.length row < 39)%nat) ->
    exists ws',
      processSheet sh ws = OK ws'
      /\ written (fst ws') = written (fst ws)
      /\ written (snd ws') = written (snd ws).
Proof.
  intros sh sh' rows ws Ht Hg Hnarrow.
  unfold processSheet. rewrite Ht. cbn [bind]. rewrite Hg. cbn [bind].
  destruct (List.length rows =? 0)%nat.
  - exists ws. auto.
  - rewrite processRows_all_skipped.
    + cbn [bind fst snd]. eexists. split; [reflexivity|].
      cbn [fst snd]. now rewrite !written_Flush.
    + intros [|j] row Hj; [left; reflexivity|].
      right. left. now apply (Hnarrow j).
Qed.

Lemma narrow_rows_give_no_record_witness :
  exists ws',
    processSheet narrowSheet (NewWriter, NewWriter) = OK ws'
    /\ written (fst ws') = written NewWriter
    /\ written (snd ws') = written NewWriter.
Proof.
  refine (narrow_rows_give_no_record narrowSheet
            (mkSheet "Sheet1" [] (repeat ["text"] 7)) (repeat ["text"] 7)
            (NewWriter, NewWriter) _ _ _).
  - vm_compute. reflexivity.
  - vm_compute. reflexivity.
  - intros i row H.
    do 6 (destruct i as [|i]; [simpl in H; injection H as <-; simpl; lia|]).
    simpl in H. destruct i; discriminate.
Defined.

(** ** The handler *)

(** C9.  Once the upload is stored and the transform has returned its two
    texts, the handler answers with an archive of exactly the two entries
    credits.csv and debits.csv holding them, unless both texts are empty,
    in which case it answers with an error and no archive. *)
Theorem archive_has_both_entries :
  forall (env : Env) (r : Request) (file : option (list Sheet)) (tmpFile : string)
         (creditCSV debitCSV : string),
    Method r = "POST" ->
    FormFile r = Some file ->
    CreateTemp env = Some tmpFile ->
    CopyOk env = true ->
    CleanSpreadsheet (tempFiles tmpFile file) tmpFile = OK (creditCSV, debitCSV) ->
    uploadHandler env r
    = if String.eqb creditCSV "" && String.eqb debitCSV ""
      then HttpError 500 "No data processed from the file"
      else ZipArchive [("credits.csv", creditCSV); ("debits.csv", debitCSV)].
Proof.
  intros env r file tmpFile creditCSV debitCSV Hm Hf Ht Hc Hclean.
  unfold uploadHandler. rewrite Hm, Hf, Ht, Hc, Hclean. reflexivity.
Qed.

Lemma archive_has_both_entries_witness :
  uploadHandler (mkEnv (Some "uploaded-1.xlsx") true)
    (mkRequest "POST" (Some (Some [shortSheet])))
  = ZipArchive [("credits.csv", ""); ("debits.csv", ("REF,MEMO,5" ++ newline)%string)].
Proof.
  refine (archive_has_both_entries (mkEnv (Some "uploaded-1.xlsx") true)
            (mkRequest "POST" (Some (Some [shortSheet])))
            (Some [shortSheet]) "uploaded-1.xlsx" "" ("REF,MEMO,5" ++ newline)%string
            eq_refl eq_refl eq_refl eq_refl _).
  vm_compute. reflexivity.
Defined.

(** ** Determinism *)

(** The two texts depend on the cell grids of the sheets alone. *)
Lemma CleanSpreadsheet_rows (fs1 fs2 : FileSystem) (path1 path2 : string) (f1 f2 : File) :
  fs1 path1 = Some f1 ->
  fs2 path2 = Some f2 ->
  map Rows (Sheets f1) = map Rows (Sheets f2) ->
  CleanSpreadsheet fs1 path1 = CleanSpreadsheet fs2 path2.
Proof.
  intros H1 H2 Hrows. unfold CleanSpreadsheet, OpenFile, GetSheetList.
  rewrite H1, H2. cbn [bind]. now rewrite (forRange_rows _ _ _ Hrows).
Qed.

Lemma returns_ret {A : Type} (a : A) : returns (ret a) (OK a).
Proof. intros w. split; reflexivity. Qed.

Lemma returns_lift {A : Type} (r : result A) : returns (lift r) r.
Proof. intros w. split; reflexivity. Qed.

Lemma returns_bind {A B : Type} (m : IO A) (k : A -> IO B) (r : result A)
    (k' : A -> result B) :
  returns m r -> (forall a, returns (k a) (k' a)) -> returns (bindIO m k) (bind r k').
Proof.
  intros Hm Hk w. destruct (Hm w) as [H1 H2]. unfold bindIO.
  destruct (m w) as [[a|e] w']; cbn [fst snd] in H1, H2; subst r; cbn [bind].
  - destruct (Hk a w') as [H3 H4]. split; [exact H3|congruence].
  - split; [reflexivity|exact H2].
Qed.

Lemma returns_Print (p : Printed) : returns (Print p) (OK tt).
Proof. intros w. split; reflexivity. Qed.

Lemma returns_processRowIO (rowIndex : nat) (row : Row) (ws : Writer * Writer) :
  returns (processRowIO rowIndex row ws) (processRow rowIndex row ws).
Proof.
  destruct ws as [cw dw]. unfold processRowIO, processRow, extractRow.
  destruct (_ || _); [apply returns_ret|].
  destruct (_ || _); [apply returns_ret|].
  destruct (ParseFloat _) as [amount|err].
  - destruct (HasPrefix _ _).
    + apply (returns_bind _ _ _ (fun w' => OK (w', dw))); [apply returns_lift|].
      intros a. apply returns_ret.
    + apply (returns_bind _ _ _ (fun w' => OK (cw, w'))); [apply returns_lift|].
      intros a. apply returns_ret.
  - apply (returns_bind _ _ (OK tt) (fun _ => OK (cw, dw))); [apply returns_Print|].
    intros a. apply returns_ret.
Qed.

Lemma returns_processRowsIO (rows : list Row) :
  forall (rowIndex : nat) (ws : Writer * Writer),
    returns (processRowsIO rowIndex rows ws) (processRows rowIndex rows ws).
Proof.
  induction rows as [|row rows IH]; intros rowIndex ws; cbn [processRowsIO processRows].
  - apply returns_ret.
  - apply returns_bind; [apply returns_processRowIO|]. intros ws'. apply IH.
Qed.

Lemma returns_processSheetIO (sh : Sheet) (ws : Writer * Writer) :
  returns (processSheetIO sh ws) (processSheet sh ws).
Proof.
  unfold processSheetIO, processSheet. cbv zeta.
  apply returns_bind; [apply returns_lift|]. intros sh'.
  apply returns_bind; [apply returns_lift|]. intros rows.
  destruct (_ =? _)%nat.
  - apply (returns_bind _ _ (OK tt) (fun _ => OK ws)); [apply returns_Print|].
    intros a. apply returns_ret.
  - apply returns_bind; [apply returns_processRowsIO|]. intros ws'. apply returns_ret.
Qed.

Lemma returns_forRangeIO {A S : Type} (xs : list A) (body : A -> S -> IO S)
    (body' : A -> S -> result S) :
  (forall x s, returns (body x s) (body' x s)) ->
  forall s, returns (forRangeIO xs body s) (forRange xs body' s).
Proof.
  intros Hb. induction xs as [|x xs IH]; intros s; cbn [forRangeIO forRange].
  - apply returns_ret.
  - apply returns_bind; [apply Hb|]. exact IH.
Qed.

(** A run returns what CleanSpreadsheet gives for the files of the world
    it starts in, and leaves these files as they were. *)
Lemma returns_CleanSpreadsheetIO (filePath : string) (w : World) :
  fst (CleanSpreadsheetIO filePath w) = CleanSpreadsheet (Os.Open (Files w)) filePath
  /\ Files (snd (CleanSpreadsheetIO filePath w)) = Files w.
Proof.
  pose (rest := fun f : File =>
                  ws <~ forRangeIO (GetSheetList f) processSheetIO (NewWriter, NewWriter) ;;
                  ret (String_ (fst ws), String_ (snd ws))).
  assert (E : CleanSpreadsheetIO filePath w
              = match OpenFile (Os.Open (Files w)) filePath with
                | OK f => rest f w
                | Err e => (Err e, w)
                end) by reflexivity.
  rewrite E. unfold CleanSpreadsheet, rest. clear E rest.
  destruct (OpenFile (Os.Open (Files w)) filePath) as [f|e]; cbn [bind];
    [|split; reflexivity].
  apply (returns_bind _ _ _ (fun ws => OK (String_ (fst ws), String_ (snd ws)))).
  - apply returns_forRangeIO. exact returns_processSheetIO.
  - intros ws. apply returns_ret.
Qed.



(** * Further properties of the program

    What the code of CleanSpreadsheet and uploadHandler shows beyond the
    statements above: how many rows the two removal loops take and which,
    what the two texts hold and in which order, what a sheet that cannot
    be trimmed costs, how an amount comes out of ParseFloat and
    FormatFloat, how a line is written and read back, and what becomes of
    the temporary file.

    [main] wires uploadHandler to the route /upload behind the CORS
    middleware and serves; all it does is done by net/http and
    gorilla/handlers, and it is not modelled. *)

(** ** How many rows the two loops remove, and which *)

Lemma Subsequence_refl {A : Type} (l : list A) : Subsequence l l.
Proof. induction l; constructor; assumption. Qed.

Lemma Subsequence_app {A : Type} (a1 a2 b1 b2 : list A) :
  Subsequence a1 a2 -> Subsequence b1 b2 -> Subsequence (a1 ++ b1) (a2 ++ b2).
Proof.
  induction 1; intros Hb; simpl.
  - assumption.
  - apply Subsequence_drop. auto.
  - apply Subsequence_keep. auto.
Qed.

Lemma Subsequence_dropAlternate {A : Type} (n : nat) :
  forall l : list A, Subsequence (dropAlternate n l) l.
Proof.
  induction n as [|n IH]; intros l; [apply Subsequence_refl|].
  destruct l as [|x [|y l]]; cbn [dropAlternate].
  - constructor.
  - apply Subsequence_drop. constructor.
  - apply Subsequence_drop, Subsequence_keep, IH.
Qed.

Lemma length_dropAlternate {A : Type} (n : nat) :
  forall l : list A,
    List.length (dropAlternate n l)
    = (List.length l - Nat.min n ((List.length l + 1) / 2))%nat.
Proof.
  induction n as [|n IH]; intros l; [simpl; lia|].
  destruct l as [|x [|y l]]; cbn [dropAlternate List.length]; [reflexivity|reflexivity|].
  rewrite IH.
  replace (S (S (List.length l)) + 1)%nat with (1 * 2 + (List.length l + 1))%nat by lia.
  rewrite Nat.div_add_l by lia.
  pose proof (Nat.Div0.mul_div_le (List.length l + 1) 2).
  lia.
Qed.

Lemma length_trimTrailingEmpty (l : list Row) :
  (List.length (trimTrailingEmpty l) <= List.length l)%nat.
Proof.
  induction l as [|r l IH]; [simpl; lia|].
  cbn [trimTrailingEmpty]. destruct (trimTrailingEmpty l); [destruct r|]; simpl in *; lia.
Qed.

Lemma trimTrailingEmpty_full (l : list Row) :
  last l [] <> [] -> trimTrailingEmpty l = l.
Proof.
  induction l as [|r l IH]; [reflexivity|].
  intros H. cbn [trimTrailingEmpty]. destruct l as [|r' l'].
  - simpl in *. destruct r; [contradiction|reflexivity].
  - rewrite IH by exact H. reflexivity.
Qed.

Lemma last_dropAlternate {A : Type} (d : A) (n : nat) :
  forall l : list A,
    Nat.even (List.length l) = true \/ (2 * n <= List.length l)%nat ->
    last (dropAlternate n l) d = last l d.
Proof.
  induction n as [|n IH]; intros l Hl; [reflexivity|].
  destruct l as [|x [|y l]]; cbn [List.length] in Hl.
  - reflexivity.
  - destruct Hl as [Hl|Hl]; [discriminate|lia].
  - cbn [dropAlternate].
    assert (Hl' : Nat.even (List.length l) = true \/ (2 * n <= List.length l)%nat).
    { destruct Hl as [Hl|Hl]; [left; exact Hl|right; lia]. }
    specialize (IH l Hl').
    destruct l as [|z l]; [now rewrite dropAlternate_nil|].
    change (last (x :: y :: z :: l) d) with (last (z :: l) d). rewrite <- IH.
    destruct (dropAlternate n (z :: l)) as [|u us] eqn:E; [|reflexivity].
    exfalso. destruct n as [|n]; [discriminate E|].
    destruct l as [|z' l]; [|discriminate E].
    destruct Hl' as [Hl'|Hl']; [discriminate|simpl in Hl'; lia].
Qed.

Lemma last_app_r {A : Type} (d : A) (l l' : list A) :
  l' <> [] -> last (l ++ l') d = last l' d.
Proof.
  intros H. induction l as [|x l IH]; [reflexivity|].
  cbn [app]. rewrite <- IH. destruct (l ++ l') eqn:E; [|reflexivity].
  apply app_eq_nil in E. destruct E as [_ E]. contradiction.
Qed.

Lemma nth_error_dropAlternate_low {A : Type} (n : nat) :
  forall (l : list A) (j : nat),
    (j < n)%nat -> (2 * j + 1 < List.length l)%nat ->
    nth_error (dropAlternate n l) j = nth_error l (2 * j + 1).
Proof.
  induction n as [|n IH]; intros l j Hj Hl; [lia|].
  destruct l as [|x [|y l]]; cbn [List.length] in Hl; try lia.
  cbn [dropAlternate]. destruct j as [|j]; [reflexivity|].
  replace (2 * S j + 1)%nat with (S (S (2 * j + 1))) by lia.
  cbn [nth_error]. apply IH; lia.
Qed.

(** The rows left of a sheet of 50 rows or more whose last row holds a
    cell. *)
Lemma trimmedRows_long (rows : list Row) :
  (50 <= List.length rows)%nat ->
  last rows [] <> [] ->
  let rows1 := dropAlternate 25 rows in
  let k := (List.length rows - 39)%nat in
  trimmedRows rows = OK (firstn k rows1 ++ dropAlternate 14 (skipn k rows1))
  /\ List.length rows1 = (List.length rows - 25)%nat
  /\ last (dropAlternate 14 (skipn k rows1)) [] = last rows [].
Proof.
  intros Hn Hlast rows1 k.
  assert (Hlen1 : List.length rows1 = (List.length rows - 25)%nat).
  { unfold rows1. rewrite length_dropAlternate.
    assert (25 <= (List.length rows + 1) / 2)%nat
      by (apply Nat.div_le_lower_bound; lia).
    lia. }
  assert (Hlast1 : last rows1 [] = last rows [])
    by (apply last_dropAlternate; right; lia).
  split; [|split; [exact Hlen1|]].
  - unfold trimmedRows. fold rows1.
    rewrite trimTrailingEmpty_full by (rewrite Hlast1; exact Hlast).
    rewrite Hlen1.
    destruct (Z.ltb_spec (Z.of_nat (List.length rows - 25)) 14) as [|_]; [lia|].
    replace (Z.to_nat (Z.of_nat (List.length rows - 25) - 14)) with k by (unfold k; lia).
    reflexivity.
  - rewrite last_dropAlternate.
    2:{ left. rewrite length_skipn, Hlen1. unfold k.
        replace (List.length rows - 25 - (List.length rows - 39))%nat with 14%nat by lia.
        reflexivity. }
    rewrite <- Hlast1. rewrite <- (firstn_skipn k rows1) at 2.
    rewrite last_app_r; [reflexivity|].
    intros E. apply (f_equal (@List.length Row)) in E. rewrite length_skipn, Hlen1 in E.
    simpl in E. unfold k in E. lia.
Qed.

Lemma Subsequence_trans {A : Type} (l2 l3 : list A) :
  Subsequence l2 l3 -> forall l1, Subsequence l1 l2 -> Subsequence l1 l3.
Proof.
  induction 1 as [|x l2 l3 H IH|x l2 l3 H IH]; intros l1 H1.
  - exact H1.
  - apply Subsequence_drop. now apply IH.
  - inversion H1; subst.
    + apply Subsequence_drop. now apply IH.
    + apply Subsequence_keep. now apply IH.
Qed.

Lemma OK_inj {A : Type} (a b : A) : OK a = OK b -> a = b.
Proof. intros H. now injection H. Qed.

Lemma nth_error_dropAlternate_high {A : Type} (n : nat) :
  forall (l : list A) (j : nat),
    (n <= j)%nat -> (2 * n <= List.length l)%nat ->
    nth_error (dropAlternate n l) j = nth_error l (j + n).
Proof.
  induction n as [|n IH]; intros l j Hj Hl.
  - now rewrite Nat.add_0_r.
  - destruct l as [|x [|y l]]; cbn [List.length] in Hl; try lia.
    cbn [dropAlternate]. destruct j as [|j]; [lia|].
    replace (S j + S n)%nat with (S (S (j + n))) by lia.
    cbn [nth_error]. apply IH; lia.
Qed.

(** X1.  A sheet of 50 rows or more whose last row holds a cell is always
    trimmed without an error, and loses 32 rows: 25 to the first loop and 7
    to the second, whose 14 calls reach past the end of the sheet after the
    seventh.  The rows that are left are those the next GetRows returns. *)
Theorem long_sheet_loses_32_rows :
  forall sh : Sheet,
    (50 <= List.length (Rows sh))%nat ->
    last (Rows sh) [] <> [] ->
    exists sh',
      trimSheet sh = OK sh'
      /\ Name sh' = Name sh
      /\ List.length (Rows sh') = (List.length (Rows sh) - 32)%nat
      /\ GetRows sh' = OK (Rows sh').
Proof.
  intros sh Hn Hlast.
  destruct (trimSheet_rows sh) as [merges Ht].
  destruct (trimmedRows_long (Rows sh) Hn Hlast) as (Hr & Hlen1 & Hl).
  rewrite Hr in Ht. eexists. split; [exact Ht|]. cbn [Name Rows].
  split; [reflexivity|].
  set (rows1 := dropAlternate 25 (Rows sh)) in *.
  set (k := (List.length (Rows sh) - 39)%nat) in *.
  assert (Hs : List.length (skipn k rows1) = 14%nat)
    by (rewrite length_skipn, Hlen1; unfold k; lia).
  split.
  - rewrite length_app, length_firstn, length_dropAlternate, Hs, Hlen1.
    change ((14 + 1) / 2)%nat with 7%nat. unfold k. lia.
  - unfold GetRows. cbn [Rows]. f_equal. apply trimTrailingEmpty_full.
    rewrite last_app_r; [now rewrite Hl|].
    intros E. apply (f_equal (@List.length Row)) in E.
    rewrite length_dropAlternate, Hs in E. discriminate E.
Qed.

Lemma long_sheet_loses_32_rows_witness :
  exists sh',
    trimSheet (mkSheet "Sheet1" [] (numberedRows 60)) = OK sh'
    /\ Name sh' = "Sheet1"
    /\ List.length (Rows sh') = 28%nat
    /\ GetRows sh' = OK (Rows sh').
Proof.
  refine (long_sheet_loses_32_rows (mkSheet "Sheet1" [] (numberedRows 60)) _ _).
  - vm_compute. lia.
  - vm_compute. discriminate.
Defined.

(** X2.  In a sheet of [n] rows, 64 or more, whose last row holds a cell,
    the row at place [j] after the trim is the row [sourceRow n j] of the
    sheet: the rows 2, 4, ..., 50, then the rows 51 to [n - 14] untouched,
    then the rows [n - 12], [n - 10], ..., [n]. *)
Theorem long_sheet_rows_kept :
  forall (sh sh' : Sheet) (j : nat),
    (64 <= List.length (Rows sh))%nat ->
    last (Rows sh) [] <> [] ->
    trimSheet sh = OK sh' ->
    (j < List.length (Rows sh) - 32)%nat ->
    nth_error (Rows sh') j
    = nth_error (Rows sh) (sourceRow (List.length (Rows sh)) j - 1).
Proof.
  intros sh sh' j Hn Hlast Ht Hj.
  destruct (trimSheet_rows sh) as [merges Ht'].
  destruct (trimmedRows_long (Rows sh) ltac:(lia) Hlast) as (Hr & Hlen1 & _).
  set (n := List.length (Rows sh)) in *.
  set (rows1 := dropAlternate 25 (Rows sh)) in *.
  set (k := (n - 39)%nat) in *.
  rewrite Hr, Ht in Ht'. apply OK_inj in Ht'. subst sh'. cbn [Rows].
  assert (Hk : List.length (firstn k rows1) = k)
    by (rewrite length_firstn, Hlen1; unfold k; lia).
  unfold sourceRow. fold k.
  destruct (Nat.ltb_spec j 25) as [H25|H25]; [|destruct (Nat.ltb_spec j k) as [Hjk|Hjk]].
  - rewrite nth_error_app1 by (rewrite Hk; unfold k; lia).
    rewrite nth_error_firstn.
    destruct (Nat.ltb_spec j k) as [_|Hge]; [|unfold k in Hge; lia].
    unfold rows1. rewrite nth_error_dropAlternate_low by (fold n; lia).
    f_equal. lia.
  - rewrite nth_error_app1 by (rewrite Hk; lia).
    rewrite nth_error_firstn.
    destruct (Nat.ltb_spec j k) as [_|Hge]; [|lia].
    unfold rows1. rewrite nth_error_dropAlternate_high by (fold n; lia).
    f_equal. lia.
  - rewrite nth_error_app2 by (rewrite Hk; lia). rewrite Hk.
    rewrite nth_error_dropAlternate_low
      by (try rewrite length_skipn, Hlen1; unfold k in *; lia).
    rewrite nth_error_skipn. unfold rows1.
    rewrite nth_error_dropAlternate_high by (fold n; unfold k in *; lia).
    f_equal. unfold k in *. lia.
Qed.

Lemma long_sheet_rows_kept_witness :
  nth_error (numbered [2; 4; 6; 8; 10; 12; 14; 16; 18; 20; 22; 24; 26; 28; 30; 32; 34;
                       36; 38; 40; 42; 44; 46; 48; 50; 51; 52; 53; 54; 55; 56; 58; 60;
                       62; 64; 66; 68; 70]%nat) 31
  = nth_error (numberedRows 70) (sourceRow 70 31 - 1).
Proof.
  refine (long_sheet_rows_kept (mkSheet "Sheet1" [] (numberedRows 70))
            (mkSheet "Sheet1" [] _) 31 _ _ _ _).
  - vm_compute. lia.
  - vm_compute. discriminate.
  - vm_compute. reflexivity.
  - vm_compute. lia.
Defined.

Lemma trimSheet_subsequence :
  forall sh sh' : Sheet,
    trimSheet sh = OK sh' ->
    Name sh' = Name sh /\ Subsequence (Rows sh') (Rows sh).
Proof.
  intros sh sh' Ht. destruct (trimSheet_rows sh) as [merges Ht']. rewrite Ht in Ht'.
  unfold trimmedRows in Ht'.
  set (rows1 := dropAlternate 25 (Rows sh)) in *.
  destruct (_ <? 14); [discriminate|]. apply OK_inj in Ht'. subst sh'. cbn [Name Rows].
  split; [reflexivity|].
  apply (Subsequence_trans rows1); [apply Subsequence_dropAlternate|].
  set (k := Z.to_nat _).
  pose proof (Subsequence_app _ _ _ _ (Subsequence_refl (firstn k rows1))
                (Subsequence_dropAlternate 14 (skipn k rows1))) as H.
  now rewrite firstn_skipn in H.
Qed.

(** X3.  Whatever the sheet, a trim that succeeds leaves the name of the
    sheet alone and only takes rows out: the rows left are rows of the
    sheet, in the order they had, none of them changed. *)
Theorem trim_only_takes_rows_out :
  forall sh sh' : Sheet,
    trimSheet sh = OK sh' ->
    Name sh' = Name sh /\ Subsequence (Rows sh') (Rows sh).
Proof. exact trimSheet_subsequence. Qed.

Lemma trim_only_takes_rows_out_witness :
  Name (mkSheet "Sheet1" []
          [["text"]; dataRow "REF" "MEMO" "5"; ["text"]; ["text"]; ["text"]; ["text"];
           ["text"]])
  = Name shortSheet
  /\ Subsequence [["text"]; dataRow "REF" "MEMO" "5"; ["text"]; ["text"]; ["text"];
                  ["text"]; ["text"]] (Rows shortSheet).
Proof.
  refine (trim_only_takes_rows_out shortSheet (mkSheet "Sheet1" [] _) _).
  vm_compute. reflexivity.
Defined.

(** ** The two texts, sheet by sheet *)

Lemma fileRecords_fails (sheets : list Sheet) (sh : Sheet) (e : error) :
  In sh sheets -> trimSheet sh = Err e -> exists e', fileRecords sheets = Err e'.
Proof.
  induction sheets as [|sh0 sheets IH]; intros Hin Ht; [destruct Hin|].
  cbn [fileRecords]. destruct Hin as [->|Hin].
  - unfold sheetRecords. rewrite Ht. cbn [bind]. eauto.
  - destruct (sheetRecords sh0) as [records|e0]; cbn [bind]; [|eauto].
    destruct (IH Hin Ht) as [e' ->]. cbn [bind]. eauto.
Qed.

Lemma short_sheet_fails (sh : Sheet) :
  (List.length (Rows sh) < 28)%nat -> exists e, trimSheet sh = Err e.
Proof.
  intros Hn. destruct (trimSheet_rows sh) as [merges ->]. unfold trimmedRows.
  set (rows1 := dropAlternate 25 (Rows sh)).
  destruct (Z.ltb_spec (Z.of_nat (List.length (trimTrailingEmpty rows1))) 14) as [|Hge];
    [eauto|exfalso].
  pose proof (length_trimTrailingEmpty rows1) as H1.
  unfold rows1 in H1 at 2. rewrite length_dropAlternate in H1.
  pose proof (Nat.div_mod_eq (List.length (Rows sh) + 1) 2) as H2.
  pose proof (Nat.mod_upper_bound (List.length (Rows sh) + 1) 2 ltac:(lia)) as H3.
  lia.
Qed.

Lemma encodeRecords_empty (records : list (list string)) :
  encodeRecords records = "" -> records = [].
Proof.
  destruct records as [|record records]; [reflexivity|].
  cbn [encodeRecords]. intros H. exfalso.
  apply (encodeRecord_not_empty record).
  destruct (encodeRecord record); [reflexivity|discriminate H].
Qed.

Lemma ofBucket_empty (records : list (Bucket * list string)) :
  ofBucket Credit records = [] -> ofBucket Debit records = [] -> records = [].
Proof.
  destruct records as [|[[|] record] records]; [reflexivity| |]; discriminate.
Qed.

(** X4.  The two texts are the credit records and the debit records of the
    whole workbook, each record written as one line: the records of a
    sheet are those of its rows after the trim, in the order of the rows;
    those of the workbook follow in the order of the sheets; a record goes
    to the text of its bucket and the order is kept there.  What one sheet
    has written stays when the next sheet is read. *)
Theorem texts_hold_the_records_in_order :
  forall (fs : FileSystem) (filePath : string),
    CleanSpreadsheet fs filePath
    = (f <- OpenFile fs filePath ;;
       records <- fileRecords (GetSheetList f) ;;
       OK (encodeRecords (ofBucket Credit records),
           encodeRecords (ofBucket Debit records))).
Proof. exact CleanSpreadsheet_records. Qed.

(** X5.  Sheets do not interfere: the texts of a workbook are those of its
    first sheets followed by those of its other sheets, as they come out
    when each part is a workbook of its own; and it fails when either part
    does. *)
Theorem texts_of_a_workbook_in_two_parts :
  forall (fs fs1 fs2 : FileSystem) (path path1 path2 : string) (f f1 f2 : File),
    fs path = Some f ->
    fs1 path1 = Some f1 ->
    fs2 path2 = Some f2 ->
    Sheets f = Sheets f1 ++ Sheets f2 ->
    CleanSpreadsheet fs path
    = (a <- CleanSpreadsheet fs1 path1 ;;
       b <- CleanSpreadsheet fs2 path2 ;;
       OK ((fst a ++ fst b)%string, (snd a ++ snd b)%string)).
Proof.
  intros fs fs1 fs2 path path1 path2 f f1 f2 H H1 H2 Hs.
  rewrite !CleanSpreadsheet_records. unfold OpenFile, GetSheetList.
  rewrite H, H1, H2. cbn [bind]. rewrite Hs, fileRecords_app.
  destruct (fileRecords (Sheets f1)) as [records1|e]; [|reflexivity]. cbn [bind].
  destruct (fileRecords (Sheets f2)) as [records2|e]; [|reflexivity]. cbn [bind fst snd].
  now rewrite !ofBucket_app, !encodeRecords_app.
Qed.

Lemma texts_of_a_workbook_in_two_parts_witness :
  CleanSpreadsheet (tempFiles "book.xlsx" (Some [shortSheet; shortSheet])) "book.xlsx"
  = (a <- CleanSpreadsheet shortFiles "book.xlsx" ;;
     b <- CleanSpreadsheet shortFiles "book.xlsx" ;;
     OK ((fst a ++ fst b)%string, (snd a ++ snd b)%string)).
Proof.
  exact (texts_of_a_workbook_in_two_parts
           (tempFiles "book.xlsx" (Some [shortSheet; shortSheet])) shortFiles shortFiles
           "book.xlsx" "book.xlsx" "book.xlsx"
           (mkFile "book.xlsx" [shortSheet; shortSheet])
           (mkFile "book.xlsx" [shortSheet]) (mkFile "book.xlsx" [shortSheet])
           eq_refl eq_refl eq_refl eq_refl).
Defined.

(** The texts of the temporary file, by the records of the upload. *)
Lemma CleanSpreadsheet_tempFiles (tmpFile : string) (file : option (list Sheet)) :
  CleanSpreadsheet (tempFiles tmpFile file) tmpFile
  = match file with
    | None => Err ErrOpen
    | Some sheets =>
        records <- fileRecords sheets ;;
        OK (encodeRecords (ofBucket Credit records),
            encodeRecords (ofBucket Debit records))
    end.
Proof.
  rewrite CleanSpreadsheet_records. unfold OpenFile, tempFiles.
  rewrite String.eqb_refl. destruct file; reflexivity.
Qed.

Lemma both_empty (records : list (Bucket * list string)) :
  String.eqb (encodeRecords (ofBucket Credit records)) ""
  && String.eqb (encodeRecords (ofBucket Debit records)) "" = true
  <-> records = [].
Proof.
  split.
  - intros H. apply andb_true_iff in H. destruct H as [Hc Hd].
    apply String.eqb_eq in Hc, Hd. apply encodeRecords_empty in Hc, Hd.
    now apply ofBucket_empty.
  - intros ->. reflexivity.
Qed.

(** X6.  One sheet that cannot be trimmed costs the whole workbook,
    wherever it stands and whatever the other sheets hold: the transform
    returns an error and no text; and when the sheets before it can be
    trimmed, the error is the one the trim of this sheet ended with. *)
Theorem one_failing_sheet_fails_the_workbook :
  forall (fs : FileSystem) (path : string) (f : File)
         (sheets1 sheets2 : list Sheet) (sh : Sheet) (e : error),
    fs path = Some f ->
    Sheets f = sheets1 ++ sh :: sheets2 ->
    trimSheet sh = Err e ->
    (exists e', CleanSpreadsheet fs path = Err e')
    /\ ((exists records1, fileRecords sheets1 = OK records1) ->
        CleanSpreadsheet fs path = Err e).
Proof.
  intros fs path f sheets1 sheets2 sh e Hf Hs Ht.
  rewrite CleanSpreadsheet_records. unfold OpenFile, GetSheetList. rewrite Hf. cbn [bind].
  rewrite Hs, fileRecords_app. cbn [fileRecords]. unfold sheetRecords. rewrite Ht.
  destruct (fileRecords sheets1) as [records1|e1]; cbn [bind].
  - split; [eauto|reflexivity].
  - split; [eauto|]. intros [records1 H]. discriminate H.
Qed.

Lemma one_failing_sheet_fails_the_workbook_witness :
  (exists e', CleanSpreadsheet (tempFiles "book.xlsx" (Some [shortSheet; emptySheet; shortSheet]))
                "book.xlsx" = Err e')
  /\ ((exists records1, fileRecords [shortSheet] = OK records1) ->
      CleanSpreadsheet (tempFiles "book.xlsx" (Some [shortSheet; emptySheet; shortSheet]))
        "book.xlsx" = Err (ErrInvalidRowNumber (-13))).
Proof.
  refine (one_failing_sheet_fails_the_workbook
            (tempFiles "book.xlsx" (Some [shortSheet; emptySheet; shortSheet])) "book.xlsx"
            (mkFile "book.xlsx" [shortSheet; emptySheet; shortSheet])
            [shortSheet] [shortSheet] emptySheet
            (ErrInvalidRowNumber (-13)) eq_refl eq_refl _).
  vm_compute. reflexivity.
Defined.

(** X7.  An upload in which some sheet has fewer than 28 rows is always
    refused: whatever the other sheets hold, the answer is a processing
    error, never an archive.  After the first loop fewer than 14 rows are
    left of such a sheet, and the second loop starts below row 1. *)
Theorem upload_with_a_short_sheet_is_refused :
  forall (env : Env) (r : Request) (sheets : list Sheet) (tmpFile : string) (sh : Sheet),
    Method r = "POST" ->
    FormFile r = Some (Some sheets) ->
    CreateTemp env = Some tmpFile ->
    CopyOk env = true ->
    In sh sheets ->
    (List.length (Rows sh) < 28)%nat ->
    exists e, uploadHandler env r = ProcessingError e.
Proof.
  intros env r sheets tmpFile sh Hm Hf Ht Hc Hin Hn.
  destruct (short_sheet_fails sh Hn) as [e He].
  destruct (fileRecords_fails _ _ _ Hin He) as [e' He'].
  exists e'.
  unfold uploadHandler. rewrite Hm, Hf, Ht, Hc, String.eqb_refl. cbn [negb].
  rewrite CleanSpreadsheet_tempFiles, He'. reflexivity.
Qed.

Lemma upload_with_a_short_sheet_is_refused_witness :
  exists e,
    uploadHandler (mkEnv (Some "uploaded-1.xlsx") true)
      (mkRequest "POST" (Some (Some [shortSheet; mkSheet "Sheet2" [] (repeat ["text"] 27)])))
    = ProcessingError e.
Proof.
  refine (upload_with_a_short_sheet_is_refused (mkEnv (Some "uploaded-1.xlsx") true)
            (mkRequest "POST" (Some (Some [shortSheet; mkSheet "Sheet2" [] (repeat ["text"] 27)])))
            _ "uploaded-1.xlsx" (mkSheet "Sheet2" [] (repeat ["text"] 27))
            eq_refl eq_refl eq_refl eq_refl _ _).
  - right. left. reflexivity.
  - vm_compute. lia.
Defined.

(** X8.  The handler sends an archive exactly when the request is a POST
    with a file that was stored and opens as a workbook, every sheet of
    which can be trimmed, and at least one row of which gives a record;
    the two entries then hold the credit and the debit records in order.
    In every other case the answer is an error. *)
Theorem archive_exactly_when_a_record_exists :
  forall (env : Env) (r : Request) (entries : list (string * string)),
    uploadHandler env r = ZipArchive entries
    <-> exists (sheets : list Sheet) (tmpFile : string)
               (records : list (Bucket * list string)),
          Method r = "POST"
          /\ FormFile r = Some (Some sheets)
          /\ CreateTemp env = Some tmpFile
          /\ CopyOk env = true
          /\ fileRecords sheets = OK records
          /\ records <> []
          /\ entries = [("credits.csv", encodeRecords (ofBucket Credit records));
                        ("debits.csv", encodeRecords (ofBucket Debit records))].
Proof.
  intros env r entries. unfold uploadHandler. split.
  - destruct (String.eqb_spec (Method r) "POST") as [Hm|]; [|discriminate]. cbn [negb].
    destruct (FormFile r) as [file|]; [|discriminate].
    destruct (CreateTemp env) as [tmpFile|]; [|discriminate].
    destruct (CopyOk env); [|discriminate]. cbn [negb].
    rewrite CleanSpreadsheet_tempFiles.
    destruct file as [sheets|]; [|discriminate].
    destruct (fileRecords sheets) as [records|] eqn:Er; [|discriminate]. cbn [bind].
    destruct (_ && _) eqn:Eb; [discriminate|].
    intros [= <-]. exists sheets, tmpFile, records.
    repeat split; try reflexivity; try assumption.
    intros ->. discriminate Eb.
  - intros (sheets & tmpFile & records & Hm & Hf & Ht & Hc & Hr & Hne & ->).
    rewrite Hm, Hf, Ht, Hc, String.eqb_refl. cbn [negb].
    rewrite CleanSpreadsheet_tempFiles, Hr. cbn [bind].
    destruct (_ && _) eqn:Eb; [|reflexivity].
    apply both_empty in Eb. contradiction.
Qed.

(** ** The line of a record *)

Lemma digit_not_special (c : ascii) :
  isDigit c = true ->
  ((code c =? 10) || (code c =? 13) || Ascii.eqb c quote || Ascii.eqb c ",") = false
  /\ (code c <? 128) = true
  /\ (((9 <=? code c) && (code c <=? 13)) || (code c =? 32)) = false
  /\ Ascii.eqb c "\" = false.
Proof.
  destruct c as [[] [] [] [] [] [] [] []]; intros H; try discriminate H;
    repeat split; reflexivity.
Qed.

Lemma allDigits_not_special (s : string) :
  allDigits s = true -> hasSpecialByte s = false.
Proof.
  induction s as [|c s IH]; [reflexivity|].
  cbn [allDigits hasSpecialByte]. intros H. apply andb_true_iff in H. destruct H as [Hc Hs].
  destruct (digit_not_special c Hc) as (-> & _). now apply IH.
Qed.

Lemma plainFrom_not_special (s : string) :
  forall seen, plainFrom seen s = true -> hasSpecialByte s = false.
Proof.
  induction s as [|c s IH]; intros seen; [reflexivity|].
  cbn [plainFrom hasSpecialByte]. destruct (isDigit c) eqn:Hc.
  - destruct (digit_not_special c Hc) as (-> & _). apply IH.
  - destruct (Ascii.eqb_spec c ".") as [->|]; [|discriminate].
    intros H. apply andb_true_iff in H. destruct H as [_ H].
    now apply allDigits_not_special.
Qed.

(** A plain decimal is written as it is, without quotes. *)
Lemma plain_decimal_not_quoted (s : string) :
  isPlainDecimal s = true -> fieldNeedsQuotes s = false.
Proof.
  unfold isPlainDecimal. intros H. pose proof (plainFrom_not_special s false H) as Hs.
  destruct s as [|c s]; [reflexivity|].
  cbn [plainFrom] in H. destruct (isDigit c) eqn:Hc.
  - destruct (digit_not_special c Hc) as (_ & H1 & H2 & H3).
    unfold fieldNeedsQuotes. rewrite Hs.
    replace (String.eqb (String c s) "\.") with false
      by (cbn [String.eqb]; now rewrite H3).
    unfold firstRuneIsSpace. now rewrite H1.
  - destruct (Ascii.eqb c "."); discriminate.
Qed.

Lemma amount_not_quoted (amount : string) :
  amountShape amount -> encodeField amount = amount.
Proof.
  intros (x & _ & _ & Hs & _). unfold encodeField.
  destruct x as [s|s| |s m e]; try (rewrite Hs; reflexivity);
    now rewrite (plain_decimal_not_quoted _ Hs).
Qed.

(** X9.  The line written for a record is the reference and the memo,
    each quoted if it needs to be, and the amount as it is: an amount never
    needs quotes. *)
Theorem amount_is_never_quoted :
  forall (rowIndex : nat) (row : Row) (bucket : Bucket) (record : list string),
    extractRow rowIndex row = Some (bucket, record) ->
    encodeRecord record
    = (encodeField (nth 0 row "") ++ "," ++ encodeField (nth 24 row "") ++ ","
       ++ amountOf record ++ newline)%string.
Proof.
  intros rowIndex row bucket record H.
  pose proof (record_amountShape _ _ _ _ H) as Hs. apply amount_not_quoted in Hs.
  destruct (extractRow_amount _ _ _ _ H) as (x & _ & ->).
  unfold amountOf in *. cbn [nth] in *.
  unfold encodeRecord. cbn [encodeFields]. rewrite Hs.
  cbn [append]. rewrite append_empty_r, append_assoc. cbn [append].
  rewrite append_assoc. cbn [append]. reflexivity.
Qed.

Lemma amount_is_never_quoted_witness :
  encodeRecord ["Smith, J."; "MEMO1"; "1234.5"]
  = (encodeField "Smith, J." ++ "," ++ encodeField "MEMO1" ++ ","
     ++ amountOf ["Smith, J."; "MEMO1"; "1234.5"] ++ newline)%string.
Proof.
  refine (amount_is_never_quoted 1 (dataRow "Smith, J." "MEMO1" "-1,234.50") Credit
            ["Smith, J."; "MEMO1"; "1234.5"] _).
  vm_compute. reflexivity.
Defined.

(** ** Amounts that pass unchanged *)

Lemma RemoveAll_none (c : ascii) (s : string) :
  contains c s = false -> RemoveAll c s = s.
Proof.
  induction s as [|c' s IH]; [reflexivity|].
  cbn [contains RemoveAll]. intros H. apply orb_false_iff in H. destruct H as [-> H].
  now rewrite IH.
Qed.

Lemma HasPrefix_contains (c : ascii) (s : string) :
  contains c s = false -> HasPrefix s c = false.
Proof.
  destruct s as [|c' s]; [reflexivity|]. cbn [contains HasPrefix].
  intros H. apply orb_false_iff in H. apply H.
Qed.

Lemma length_withAmount (row : Row) (amount : string) :
  (39 <= List.length row)%nat -> List.length (withAmount row amount) = List.length row.
Proof.
  intros H. unfold withAmount.
  rewrite length_app, length_firstn. cbn [List.length]. rewrite length_skipn. lia.
Qed.

Lemma nth_withAmount (row : Row) (amount : string) (j : nat) :
  (39 <= List.length row)%nat ->
  nth j (withAmount row amount) "" = if (j =? 37)%nat then amount else nth j row "".
Proof.
  intros H. unfold withAmount.
  assert (Hl : List.length (firstn 37 row) = 37%nat) by (rewrite length_firstn; lia).
  destruct (Nat.eqb_spec j 37) as [->|Hj].
  - rewrite app_nth2 by lia. now rewrite Hl.
  - destruct (Nat.lt_ge_cases j 37) as [Hlt|Hge].
    + rewrite app_nth1 by lia. rewrite <- (firstn_skipn 37 row) at 2.
      now rewrite app_nth1 by lia.
    + rewrite app_nth2 by lia. rewrite Hl.
      destruct (j - 37)%nat as [|i] eqn:E; [lia|]. cbn [nth].
      rewrite nth_skipn. f_equal. lia.
Qed.

Lemma plain_decimal_not_header (s : string) :
  isPlainDecimal s = true -> String.eqb s "" || String.eqb s "Amount" = false.
Proof.
  destruct s as [|c t]; [discriminate|]. unfold isPlainDecimal. cbn [plainFrom].
  destruct (isDigit c) eqn:Hc.
  - intros _. cbn [String.eqb orb].
    destruct (Ascii.eqb_spec c "A") as [->|]; [discriminate Hc|reflexivity].
  - destruct (Ascii.eqb c "."); discriminate.
Qed.

(** X10.  An amount the program has written is read back as it is: a row
    (not the first, of 39 cells or more) whose amount cell holds the
    rendering of a value that is not negative gives a debit record with
    that same text as its amount. *)
Theorem written_amount_passes_unchanged :
  forall (rowIndex : nat) (row : Row) (x : float64),
    rowIndex <> 0%nat ->
    (39 <= List.length row)%nat ->
    printable x ->
    nth 37 row "" = FormatFloat x ->
    extractRow rowIndex row = Some (Debit, [nth 0 row ""; nth 24 row ""; nth 37 row ""]).
Proof.
  intros rowIndex row x Hi Hl Hx Hcell.
  destruct (FormatFloat_shape x Hx) as (Hshape & Hcomma & Hminus).
  unfold extractRow. apply Nat.eqb_neq in Hi. apply Nat.ltb_ge in Hl.
  rewrite Hi, Hl, Hcell. cbn [orb].
  rewrite (RemoveAll_none _ _ Hcomma), (HasPrefix_contains _ _ Hminus).
  rewrite (ParseFloat_FormatFloat x Hx).
  assert (Hne : String.eqb (FormatFloat x) "" || String.eqb (FormatFloat x) "Amount" = false).
  { destruct x as [s|s| |s m e]; try (rewrite Hshape; reflexivity);
      now apply plain_decimal_not_header. }
  now rewrite Hne.
Qed.

Lemma written_amount_passes_unchanged_witness :
  extractRow 1 (dataRow "REF1" "MEMO1" "1234.5")
  = Some (Debit, [nth 0 (dataRow "REF1" "MEMO1" "1234.5") "";
                  nth 24 (dataRow "REF1" "MEMO1" "1234.5") "";
                  nth 37 (dataRow "REF1" "MEMO1" "1234.5") ""]).
Proof.
  refine (written_amount_passes_unchanged 1 (dataRow "REF1" "MEMO1" "1234.5")
            (Finite false 5429388417957888 (-42)) _ _ _ _).
  - discriminate.
  - vm_compute. lia.
  - vm_compute. repeat split; try discriminate; left; discriminate.
  - vm_compute. reflexivity.
Defined.

(** ** The amount with a minus sign before it *)

Lemma readDigits_length (s : string) :
  forall (hex : bool) (st : scan),
    (String.length (snd (readDigits hex st s)) <= String.length s)%nat.
Proof.
  induction s as [|c s IH]; intros hex st; [simpl; lia|].
  cbn [readDigits].
  repeat match goal with
         | |- context [if ?b then _ else _] => destruct b
         end;
    try (cbn [snd String.length]; lia);
    match goal with
    | |- context [readDigits ?h ?st' s] => specialize (IH h st')
    end; cbn [String.length]; lia.
Qed.

Lemma readExpDigits_length (s : string) :
  forall (e : Z) (us : bool),
    (String.length (snd (readExpDigits e us s)) <= String.length s)%nat.
Proof.
  induction s as [|c s IH]; intros e us; [simpl; lia|].
  cbn [readExpDigits].
  destruct (isDigit c).
  - specialize (IH (if e <? 10000 then e * 10 + digitVal c else e) us).
    cbn [String.length]. lia.
  - destruct (Ascii.eqb c "_").
    + specialize (IH e true). cbn [String.length]. lia.
    + cbn [snd String.length]. lia.
Qed.

Lemma hexPrefix_length (t : string) :
  (String.length (snd (hexPrefix t)) <= String.length t)%nat.
Proof.
  unfold hexPrefix. destruct t as [|d0 [|d1 [|d2 t]]]; try (simpl; lia).
  destruct (_ && _); cbn [snd String.length]; lia.
Qed.

Lemma HasPrefix_substring (c : ascii) (a : string) (k : nat) :
  HasPrefix a c = false -> HasPrefix (substring 0 k a) c = false.
Proof.
  destruct a as [|c' a]; destruct k; try reflexivity. cbn [substring HasPrefix]. auto.
Qed.

Lemma underscoreOK_minus (p : string) :
  HasPrefix p "+" = false -> HasPrefix p "-" = false ->
  underscoreOK (String "-" p) = underscoreOK p.
Proof.
  intros Hp Hm. unfold underscoreOK.
  change (Ascii.eqb "-" "-" || Ascii.eqb "-" "+") with true. cbv iota.
  destruct p as [|c t]; [reflexivity|].
  cbn [HasPrefix] in Hp, Hm. rewrite Hp, Hm. reflexivity.
Qed.

Lemma prefixBefore_minus (a t : string) :
  (String.length t <= String.length a)%nat ->
  prefixBefore (String "-" a) t = String "-" (prefixBefore a t).
Proof.
  intros H. unfold prefixBefore. cbn [String.length].
  replace (S (String.length a) - String.length t)%nat
    with (S (String.length a - String.length t)) by lia.
  reflexivity.
Qed.

(** A scanned number with the sign turned to minus. *)
Lemma finishNumber_minus (a : string) (hex : bool) (st : scan) (nd1 dp2 : Z) (us : bool)
    (t : string) (x : number) :
  HasPrefix a "+" = false -> HasPrefix a "-" = false ->
  (String.length t <= String.length a)%nat ->
  finishNumber a false hex st nd1 dp2 us t = Some x ->
  finishNumber (String "-" a) true hex st nd1 dp2 us t
  = Some (mkNumber true (isHex x) (mant x) (expo x) (rest x)).
Proof.
  intros Hp Hm Hl. unfold finishNumber.
  rewrite prefixBefore_minus by assumption.
  rewrite underscoreOK_minus by (apply HasPrefix_substring; assumption).
  destruct (us && _); [discriminate|]. intros [= <-]. reflexivity.
Qed.

Lemma readExponent_minus (a : string) (hex : bool) (st : scan) (t : string) (x : number) :
  HasPrefix a "+" = false -> HasPrefix a "-" = false ->
  (String.length t <= String.length a)%nat ->
  readExponent a false hex st t = Some x ->
  readExponent (String "-" a) true hex st t
  = Some (mkNumber true (isHex x) (mant x) (expo x) (rest x)).
Proof.
  intros Hp Hm Hl. unfold readExponent.
  destruct (if hex then _ else _) as [dp1 nd1].
  destruct t as [|c t1].
  - destruct hex; [discriminate|]. now apply finishNumber_minus.
  - destruct (lower c =? _).
    + destruct t1 as [|c1 t2]; [discriminate|].
      assert (Hl3 : forall t3 : string,
                 (String.length t3 <= String.length (String c1 t2))%nat ->
                 (String.length t3 <= String.length a)%nat).
      { intros t3 H3. cbn [String.length] in *. lia. }
      destruct (if Ascii.eqb c1 "+" then _ else _) as [esign t3] eqn:Es.
      assert (H3 : (String.length t3 <= String.length (String c1 t2))%nat).
      { destruct (Ascii.eqb c1 "+"); [|destruct (Ascii.eqb c1 "-")];
          injection Es as _ <-; cbn [String.length]; lia. }
      destruct t3 as [|c3 t4]; [discriminate|].
      destruct (negb (isDigit c3)); [discriminate|].
      pose proof (readExpDigits_length (String c3 t4) 0 (underscores st)) as H5.
      destruct (readExpDigits 0 (underscores st) (String c3 t4)) as [[e us] t5].
      cbn [snd] in H5. apply finishNumber_minus; try assumption.
      apply Hl3. lia.
    + destruct hex; [discriminate|]. now apply finishNumber_minus.
Qed.

Lemma readFloat_minus (a : string) (x : number) :
  HasPrefix a "+" = false -> HasPrefix a "-" = false ->
  readFloat a = Some x ->
  readFloat (String "-" a) = Some (mkNumber true (isHex x) (mant x) (expo x) (rest x)).
Proof.
  intros Hp Hm. unfold readFloat. destruct a as [|c t]; [discriminate|].
  cbn [HasPrefix] in Hp, Hm.
  unfold readSign. change (Ascii.eqb "-" "+") with false.
  change (Ascii.eqb "-" "-") with true. rewrite Hp, Hm. cbv iota.
  pose proof (hexPrefix_length (String c t)) as H1.
  destruct (hexPrefix (String c t)) as [hex t1]. cbn [snd] in H1.
  pose proof (readDigits_length t1 hex (mkScan false false 0 0 0 false)) as H2.
  destruct (readDigits hex (mkScan false false 0 0 0 false) t1) as [st t2]. cbn [snd] in H2.
  destruct (negb (sawdigits st)); [discriminate|].
  apply readExponent_minus; cbn [HasPrefix]; try assumption. lia.
Qed.

Lemma roundToFloat_minus (n d : Z) (v : float64) :
  roundToFloat false n d = OK v -> roundToFloat true n d = OK (Neg v).
Proof.
  unfold roundToFloat.
  destruct (if _ =? _ then _ else _) as [m e].
  destruct (maxExp <? e); [discriminate|].
  destruct (m =? 0); intros [= <-]; reflexivity.
Qed.

Lemma numberValue_minus (x : number) (v : float64) :
  negative x = false ->
  numberValue x = OK v ->
  numberValue (mkNumber true (isHex x) (mant x) (expo x) (rest x)) = OK (Neg v).
Proof.
  intros Hn. unfold numberValue. cbn [mant isHex negative expo]. rewrite Hn.
  destruct (mant x =? 0); [intros [= <-]; reflexivity|].
  destruct (isHex x); [apply roundToFloat_minus|].
  destruct (310 <? _); [discriminate|].
  destruct (_ <? -330); [intros [= <-]; reflexivity|].
  apply roundToFloat_minus.
Qed.

Lemma not_i_no_infinity (c : ascii) (t : string) :
  Ascii.eqb c "i" || Ascii.eqb c "I" = false ->
  commonPrefixLenIgnoreCase (String c t) "infinity" = 0%nat.
Proof.
  destruct c as [[] [] [] [] [] [] [] []]; intros H; try discriminate H; reflexivity.
Qed.

(** ParseFloat reads a minus sign before a number without a sign as the
    negation of the number; a NaN takes no sign. *)
Lemma ParseFloat_minus (a : string) (x : float64) :
  HasPrefix a "+" = false -> HasPrefix a "-" = false ->
  ParseFloat a = OK x ->
  x <> NaN ->
  ParseFloat (String "-" a) = OK (Neg x).
Proof.
  intros Hp Hm Hx Hnan. unfold ParseFloat in *.
  destruct a as [|c t]; [discriminate Hx|].
  pose proof Hp as Hp'. pose proof Hm as Hm'. cbn [HasPrefix] in Hp', Hm'.
  assert (Hs : special (String "-" (String c t)) = specialInf true 1 (String c t))
    by reflexivity.
  rewrite Hs. clear Hs.
  assert (Hs : special (String c t)
               = if Ascii.eqb c "i" || Ascii.eqb c "I"
                 then specialInf false 0 (String c t)
                 else if Ascii.eqb c "n" || Ascii.eqb c "N"
                      then if (commonPrefixLenIgnoreCase (String c t) "nan" =? 3)%nat
                           then Some (NaN, 3%nat) else None
                      else None).
  { unfold special. now rewrite Hp', Hm'. }
  rewrite Hs in Hx. clear Hs.
  unfold specialInf in *.
  set (n0 := commonPrefixLenIgnoreCase (String c t) "infinity") in *.
  set (n := if (3 <? n0)%nat && (n0 <? 8)%nat then 3%nat else n0) in *.
  destruct (Ascii.eqb c "i" || Ascii.eqb c "I") eqn:Ei.
  - destruct ((n =? 3)%nat || (n =? 8)%nat).
    + cbn [Nat.add] in Hx. change (String.length (String "-" (String c t)))
        with (S (String.length (String c t))).
      change (1 + n =? S (String.length (String c t)))%nat
        with (n =? String.length (String c t))%nat.
      destruct (n =? String.length (String c t))%nat; [|discriminate Hx].
      injection Hx as <-. reflexivity.
    + destruct (readFloat (String c t)) as [y|] eqn:Er; [|discriminate Hx].
      pose proof (readFloat_fields _ _ Er) as [Hneg _]. rewrite Hm in Hneg.
      rewrite (readFloat_minus _ _ Hp Hm Er). cbn [rest].
      destruct (rest y); [|discriminate Hx].
      now apply numberValue_minus.
  - assert (Hn0 : n0 = 0%nat) by (apply not_i_no_infinity; exact Ei).
    assert (Hn : n = 0%nat) by (unfold n; rewrite Hn0; reflexivity).
    rewrite Hn. cbn [Nat.eqb orb].
    assert (Hx' : match readFloat (String c t) with
                  | Some y => match rest y with
                              | "" => numberValue y
                              | String _ _ => Err ErrSyntax
                              end
                  | None => Err ErrSyntax
                  end = OK x).
    { destruct (Ascii.eqb c "n" || Ascii.eqb c "N"); [|exact Hx].
      destruct (_ =? 3)%nat; [|exact Hx].
      destruct (_ =? _)%nat; [|discriminate Hx].
      injection Hx as <-. contradiction. }
    destruct (readFloat (String c t)) as [y|] eqn:Er; [|discriminate Hx'].
    pose proof (readFloat_fields _ _ Er) as [Hneg _]. rewrite Hm in Hneg.
    rewrite (readFloat_minus _ _ Hp Hm Er). cbn [rest].
    destruct (rest y); [|discriminate Hx'].
    now apply numberValue_minus.
Qed.

Lemma Neg_involutive (x : float64) : Neg (Neg x) = x.
Proof. destruct x as [[]|[]| |[] m e]; reflexivity. Qed.

(** X11.  A minus sign before an amount moves the record to the credits
    and leaves its amount as it was: if a row gives a debit record, its
    cell has no plus sign in front and its amount is not NaN, then the row
    with [-] written before the cell gives the credit record with the same
    reference, memo and amount. *)
Theorem minus_sign_moves_record_to_credits :
  forall (rowIndex : nat) (row : Row) (record : list string),
    HasPrefix (cleanedAmount row) "+" = false ->
    extractRow rowIndex row = Some (Debit, record) ->
    amountOf record <> "NaN" ->
    extractRow rowIndex (withAmount row (String "-" (nth 37 row ""))) = Some (Credit, record).
Proof.
  intros rowIndex row record Hplus H Hnan. unfold extractRow in *.
  destruct (Nat.eqb rowIndex 0); [discriminate H|].
  destruct (Nat.ltb_spec (List.length row) 39) as [|Hl]; [discriminate H|].
  cbn [orb] in *. rewrite (length_withAmount _ _ Hl).
  destruct (Nat.ltb_spec (List.length row) 39) as [|_]; [lia|].
  rewrite !(nth_withAmount _ _ _ Hl). cbn [Nat.eqb].
  fold (cleanedAmount row) in *. cbn [RemoveAll].
  change (Ascii.eqb "-" ",") with false. cbv iota. fold (cleanedAmount row).
  destruct (String.eqb (cleanedAmount row) "" || String.eqb (cleanedAmount row) "Amount");
    [discriminate H|].
  change (String.eqb (String "-" (cleanedAmount row)) "") with false.
  change (String.eqb (String "-" (cleanedAmount row)) "Amount") with false.
  cbn [orb HasPrefix]. change (Ascii.eqb "-" "-") with true. cbv iota.
  destruct (ParseFloat (cleanedAmount row)) as [amount|] eqn:Hp; [|discriminate H].
  destruct (HasPrefix (cleanedAmount row) "-") eqn:Hm; [discriminate H|].
  injection H as <-. unfold amountOf in Hnan. cbn [nth] in Hnan.
  rewrite (ParseFloat_minus _ amount Hplus Hm Hp).
  - now rewrite Neg_involutive.
  - intros ->. now apply Hnan.
Qed.

Lemma minus_sign_moves_record_to_credits_witness :
  extractRow 1 (withAmount (dataRow "REF1" "MEMO1" "1,234.50")
                  (String "-" (nth 37 (dataRow "REF1" "MEMO1" "1,234.50") "")))
  = Some (Credit, ["REF1"; "MEMO1"; "1234.5"]).
Proof.
  refine (minus_sign_moves_record_to_credits 1 (dataRow "REF1" "MEMO1" "1,234.50")
            ["REF1"; "MEMO1"; "1234.5"] _ _ _).
  - vm_compute. reflexivity.
  - vm_compute. reflexivity.
  - vm_compute. discriminate.
Defined.

(** ** The temporary file *)

Lemma Remove_absent (name : string) (disk : Os.Disk) :
  Os.Lookup name disk = None -> Os.Remove name disk = disk.
Proof.
  induction disk as [|[name' content] disk IH]; [reflexivity|].
  cbn [Os.Lookup Os.Remove filter fst]. destruct (String.eqb name' name); [discriminate|].
  intros H. cbn [negb]. f_equal. now apply IH.
Qed.

Lemma Copy_absent (name : string) (content : option (list Sheet)) (disk : Os.Disk) :
  Os.Lookup name disk = None -> Os.Copy name content disk = disk.
Proof.
  induction disk as [|[name' c] disk IH]; [reflexivity|].
  cbn [Os.Lookup Os.Copy map fst]. destruct (String.eqb name' name); [discriminate|].
  intros H. f_equal. now apply IH.
Qed.

Lemma CleanSpreadsheet_same_file (fs1 fs2 : FileSystem) (path : string) :
  fs1 path = fs2 path -> CleanSpreadsheet fs1 path = CleanSpreadsheet fs2 path.
Proof. intros H. unfold CleanSpreadsheet, OpenFile. now rewrite H. Qed.

(** X12.  The file the handler creates never outlives the call.  When the
    name CreateTemp hands out is new, the handler leaves in the directory
    what it found there and what net/http has spilled while reading the
    form, and nothing of its own, on every path: after an error before the
    file exists, after a failed copy, after a failed or empty transform,
    and after the archive was sent.  Its answer is that of
    [uploadHandler]. *)
Theorem temporary_file_is_always_removed :
  forall (env : Env) (r : Request) (spilled disk : Os.Disk),
    (forall tmpFile,
        CreateTemp env = Some tmpFile -> Os.Lookup tmpFile (spilled ++ disk) = None) ->
    uploadHandlerOnDisk env r spilled disk
    = (uploadHandler env r,
       if String.eqb (Method r) "POST" then spilled ++ disk else disk).
Proof.
  intros env r spilled disk Hnew. unfold uploadHandlerOnDisk, uploadHandler.
  destruct (String.eqb (Method r) "POST"); cbn [negb]; [|reflexivity]. cbv zeta.
  set (disk0 := spilled ++ disk) in *.
  destruct (FormFile r) as [file|]; [|reflexivity].
  destruct (CreateTemp env) as [tmpFile|]; [|reflexivity].
  specialize (Hnew tmpFile eq_refl).
  assert (Hrm : forall content,
             Os.Remove tmpFile ((tmpFile, content) :: disk0) = disk0).
  { intros content. cbn [Os.Remove filter fst]. rewrite String.eqb_refl. cbn [negb].
    now apply Remove_absent. }
  unfold defer, Os.Create.
  destruct (negb (CopyOk env)); [now rewrite Hrm|].
  cbn [Os.Copy map fst]. rewrite String.eqb_refl. fold (Os.Copy tmpFile file disk0).
  rewrite (Copy_absent _ _ _ Hnew).
  rewrite (CleanSpreadsheet_same_file (Os.Open ((tmpFile, file) :: disk0))
             (tempFiles tmpFile file) tmpFile).
  - destruct (CleanSpreadsheet (tempFiles tmpFile file) tmpFile) as [[creditCSV debitCSV]|e].
    + destruct (_ && _); now rewrite Hrm.
    + now rewrite Hrm.
  - unfold Os.Open, tempFiles. cbn [Os.Lookup]. rewrite String.eqb_refl.
    destruct file; reflexivity.
Qed.

Lemma temporary_file_is_always_removed_witness :
  uploadHandlerOnDisk (mkEnv (Some "uploaded-1.xlsx") true)
    (mkRequest "POST" (Some (Some [shortSheet])))
    [("multipart-1", Some [shortSheet])] [("uploaded-0.xlsx", Some [exampleSheet])]
  = (uploadHandler (mkEnv (Some "uploaded-1.xlsx") true)
       (mkRequest "POST" (Some (Some [shortSheet]))),
     if String.eqb (Method (mkRequest "POST" (Some (Some [shortSheet])))) "POST"
     then [("multipart-1", Some [shortSheet])] ++ [("uploaded-0.xlsx", Some [exampleSheet])]
     else [("uploaded-0.xlsx", Some [exampleSheet])]).
Proof.
  refine (temporary_file_is_always_removed (mkEnv (Some "uploaded-1.xlsx") true)
            (mkRequest "POST" (Some (Some [shortSheet])))
            [("multipart-1", Some [shortSheet])]
            [("uploaded-0.xlsx", Some [exampleSheet])] _).
  intros tmpFile H. injection H as <-. reflexivity.
Defined.

(** ** Amounts with a foreign byte *)

Lemma allBytes_append (p : ascii -> bool) (s t : string) :
  allBytes p (s ++ t) = allBytes p s && allBytes p t.
Proof.
  induction s as [|c s IH]; [reflexivity|]. cbn [append allBytes].
  now rewrite IH, andb_assoc.
Qed.

Lemma reads_refl (s : string) : reads s s.
Proof. exists "". now split. Qed.

Lemma reads_byte (c : ascii) (s t : string) :
  amountByte c = true -> reads s t -> reads (String c s) t.
Proof.
  intros Hc (p & -> & Hp). exists (String c p). split; [reflexivity|].
  cbn [allBytes]. now rewrite Hc.
Qed.

Lemma reads_trans (s t u : string) : reads s t -> reads t u -> reads s u.
Proof.
  intros (p & -> & Hp) (q & -> & Hq). exists (p ++ q)%string. split.
  - now rewrite append_assoc.
  - now rewrite allBytes_append, Hp.
Qed.

Lemma reads_all (s : string) : reads s "" -> allBytes amountByte s = true.
Proof. intros (p & -> & Hp). now rewrite append_empty_r. Qed.

Lemma amountByte_cases (c : ascii) :
  (isDigit c = true -> amountByte c = true)
  /\ (isHexLetter c = true -> amountByte c = true)
  /\ (Ascii.eqb c "+" = true -> amountByte c = true)
  /\ (Ascii.eqb c "-" = true -> amountByte c = true)
  /\ (Ascii.eqb c "." = true -> amountByte c = true)
  /\ (Ascii.eqb c "_" = true -> amountByte c = true)
  /\ ((lower c =? 101) = true -> amountByte c = true)
  /\ ((lower c =? 112) = true -> amountByte c = true)
  /\ ((lower c =? 120) = true -> amountByte c = true).
Proof.
  unfold amountByte. repeat split; intros H; rewrite ?H, ?orb_true_r; try reflexivity.
  unfold isHexLetter. apply Z.eqb_eq in H. rewrite H. now rewrite orb_true_r.
Qed.

Lemma readDigits_reads (s : string) :
  forall (hex : bool) (st : scan), reads s (snd (readDigits hex st s)).
Proof.
  induction s as [|c s IH]; intros hex st; [apply reads_refl|].
  destruct (amountByte_cases c) as (Hd & Hh & _ & _ & Hp & Hu & _).
  cbn [readDigits].
  destruct (Ascii.eqb c "_"); [apply reads_byte; auto|].
  destruct (Ascii.eqb c ".").
  { destruct (sawdot st); [apply reads_refl|apply reads_byte; auto]. }
  destruct (isDigit c).
  { destruct (_ && _); apply reads_byte; auto. }
  destruct hex; cbn [andb]; [|apply reads_refl].
  destruct (isHexLetter c); [apply reads_byte; auto|apply reads_refl].
Qed.

Lemma readExpDigits_reads (s : string) :
  forall (e : Z) (us : bool), reads s (snd (readExpDigits e us s)).
Proof.
  induction s as [|c s IH]; intros e us; [apply reads_refl|].
  destruct (amountByte_cases c) as (Hd & _ & _ & _ & _ & Hu & _).
  cbn [readExpDigits].
  destruct (isDigit c); [apply reads_byte; auto|].
  destruct (Ascii.eqb c "_"); [apply reads_byte; auto|apply reads_refl].
Qed.

Lemma finishNumber_rest (s : string) (neg hex : bool) (st : scan) (nd1 dp2 : Z)
    (us : bool) (t : string) (x : number) :
  finishNumber s neg hex st nd1 dp2 us t = Some x -> rest x = t.
Proof.
  unfold finishNumber. destruct (us && _); [discriminate|]. now intros [= <-].
Qed.

Lemma readExponent_reads (s : string) (neg hex : bool) (st : scan) (t : string)
    (x : number) :
  readExponent s neg hex st t = Some x -> reads t (rest x).
Proof.
  unfold readExponent.
  destruct (if hex then _ else _) as [dp1 nd1].
  destruct t as [|c t1].
  - destruct hex; [discriminate|]. intros H. apply finishNumber_rest in H. rewrite H.
    apply reads_refl.
  - destruct (amountByte_cases c) as (_ & _ & _ & _ & _ & _ & He & Hp & _).
    destruct (lower c =? (if hex then 112 else 101)) eqn:Ec.
    + assert (Hc : amountByte c = true) by (destruct hex; auto).
      destruct t1 as [|c1 t2]; [discriminate|].
      destruct (amountByte_cases c1) as (_ & _ & Hplus & Hminus & _).
      assert (H3 : forall esign t3,
                 (if Ascii.eqb c1 "+" then (1, t2)
                  else if Ascii.eqb c1 "-" then (-1, t2) else (1, String c1 t2))
                 = (esign, t3) -> reads (String c1 t2) t3).
      { intros esign t3 E. destruct (Ascii.eqb c1 "+").
        - injection E as _ <-. apply reads_byte; [auto|apply reads_refl].
        - destruct (Ascii.eqb c1 "-"); injection E as _ <-;
            [apply reads_byte; [auto|apply reads_refl]|apply reads_refl]. }
      destruct (if Ascii.eqb c1 "+" then _ else _) as [esign t3] eqn:Es.
      specialize (H3 _ _ eq_refl).
      destruct t3 as [|c3 t4]; [discriminate|].
      destruct (negb (isDigit c3)); [discriminate|].
      pose proof (readExpDigits_reads (String c3 t4) 0 (underscores st)) as H5.
      destruct (readExpDigits 0 (underscores st) (String c3 t4)) as [[e us] t5].
      cbn [snd] in H5. intros H. apply finishNumber_rest in H. rewrite H.
      apply reads_byte; [assumption|].
      apply (reads_trans _ _ _ H3 H5).
    + destruct hex; [discriminate|]. intros H. apply finishNumber_rest in H. rewrite H.
      apply reads_refl.
Qed.

Lemma readFloat_reads (s : string) (x : number) :
  readFloat s = Some x -> reads s (rest x).
Proof.
  unfold readFloat. destruct s as [|c t]; [discriminate|].
  assert (H1 : reads (String c t) (snd (readSign (String c t)))).
  { destruct (amountByte_cases c) as (_ & _ & Hplus & Hminus & _). unfold readSign.
    destruct (Ascii.eqb c "+"); [apply reads_byte; [auto|apply reads_refl]|].
    destruct (Ascii.eqb c "-"); [apply reads_byte; [auto|apply reads_refl]|].
    apply reads_refl. }
  destruct (readSign (String c t)) as [neg t1]. cbn [snd] in H1.
  assert (H2 : reads t1 (snd (hexPrefix t1))).
  { unfold hexPrefix. destruct t1 as [|d0 [|d1 [|d2 t']]]; try apply reads_refl.
    destruct (Ascii.eqb_spec d0 "0") as [->|]; cbn [andb]; [|apply reads_refl].
    destruct (amountByte_cases d1) as (_ & _ & _ & _ & _ & _ & _ & _ & Hx).
    destruct (lower d1 =? 120); [|apply reads_refl].
    apply reads_byte; [reflexivity|]. apply reads_byte; [auto|apply reads_refl]. }
  destruct (hexPrefix t1) as [hex t2]. cbn [snd] in H2.
  pose proof (readDigits_reads t2 hex (mkScan false false 0 0 0 false)) as H3.
  destruct (readDigits hex (mkScan false false 0 0 0 false) t2) as [st t3]. cbn [snd] in H3.
  destruct (negb (sawdigits st)); [discriminate|].
  intros H. apply readExponent_reads in H.
  exact (reads_trans _ _ _ H1 (reads_trans _ _ _ H2 (reads_trans _ _ _ H3 H))).
Qed.

Lemma substring_all (s : string) : substring 0 (String.length s) s = s.
Proof. induction s as [|c s IH]; [reflexivity|]. cbn [String.length substring]. now rewrite IH. Qed.

(** The bytes of the words inf, infinity and nan, in either case, and of
    a sign before them, all satisfy [P]. *)
Section Words.

Variable P : ascii -> bool.
Hypothesis Pword :
  forall c : ascii,
    let c' := if (65 <=? code c) && (code c <=? 90) then code c + 32 else code c in
    (c' =? code "i") || (c' =? code "n") || (c' =? code "f") || (c' =? code "t")
    || (c' =? code "y") || (c' =? code "a") = true ->
    P c = true.
Hypothesis Pplus : P "+" = true.
Hypothesis Pminus : P "-" = true.

Lemma commonPrefix_all (p : string) :
  (forall q, contains q p = true ->
             (Ascii.eqb q "i" || Ascii.eqb q "n" || Ascii.eqb q "f" || Ascii.eqb q "t"
              || Ascii.eqb q "y" || Ascii.eqb q "a") = true) ->
  forall (s : string) (k : nat),
    (k <= commonPrefixLenIgnoreCase s p)%nat ->
    allBytes P (substring 0 k s) = true.
Proof.
  induction p as [|q p IH]; intros Hp s k Hk.
  - destruct s; simpl in Hk; destruct k; try lia; reflexivity.
  - destruct s as [|c s]; [destruct k; reflexivity|].
    destruct k as [|k]; [reflexivity|].
    cbn [commonPrefixLenIgnoreCase] in Hk. cbn [substring allBytes].
    pose proof (Pword c) as Hc. cbv zeta in Hc.
    set (c' := if (65 <=? code c) && (code c <=? 90) then code c + 32 else code c) in *.
    destruct (Z.eqb_spec c' (code q)) as [E|]; [|lia].
    rewrite Hc, IH; try reflexivity.
    + intros q' Hq'. apply Hp. cbn [contains]. now rewrite Hq', orb_true_r.
    + lia.
    + specialize (Hp q ltac:(cbn [contains]; now rewrite Ascii.eqb_refl)).
      rewrite E.
      repeat (apply orb_true_iff in Hp; destruct Hp as [Hp|Hp]);
        apply Ascii.eqb_eq in Hp; subst q; rewrite Z.eqb_refl, ?orb_true_r; reflexivity.
Qed.

Lemma specialInf_all (neg : bool) (nsign : nat) (t : string) (v : float64) (n : nat) :
  specialInf neg nsign t = Some (v, n) ->
  n = (nsign + String.length t)%nat ->
  allBytes P t = true.
Proof.
  unfold specialInf.
  set (n0 := commonPrefixLenIgnoreCase t "infinity").
  set (n1 := if (3 <? n0)%nat && (n0 <? 8)%nat then 3%nat else n0).
  destruct ((n1 =? 3)%nat || (n1 =? 8)%nat); [|discriminate].
  intros [= _ <-] Hn.
  assert (Hle : (n1 <= n0)%nat).
  { unfold n1. destruct (Nat.ltb_spec 3 n0); cbn [andb]; [|lia].
    destruct (n0 <? 8)%nat; lia. }
  rewrite <- (substring_all t). replace (String.length t) with n1 by lia.
  apply (commonPrefix_all "infinity"); [|exact Hle].
  intros q Hq. cbn [contains] in Hq.
  repeat (apply orb_true_iff in Hq; destruct Hq as [Hq|Hq]);
    try discriminate Hq; apply Ascii.eqb_eq in Hq; subst q; reflexivity.
Qed.

Lemma special_all (s : string) (v : float64) :
  special s = Some (v, String.length s) -> allBytes P s = true.
Proof.
  unfold special. destruct s as [|c t]; [discriminate|].
  destruct (Ascii.eqb_spec c "+") as [->|_].
  { intros H. apply specialInf_all in H; [|reflexivity]. cbn [allBytes]. now rewrite H, Pplus. }
  destruct (Ascii.eqb_spec c "-") as [->|_].
  { intros H. apply specialInf_all in H; [|reflexivity]. cbn [allBytes]. now rewrite H, Pminus. }
  destruct (Ascii.eqb c "i" || Ascii.eqb c "I").
  { intros H. apply specialInf_all in H; [exact H|reflexivity]. }
  destruct (Ascii.eqb c "n" || Ascii.eqb c "N"); [|discriminate].
  destruct (Nat.eqb_spec (commonPrefixLenIgnoreCase (String c t) "nan") 3) as [E|];
    [|discriminate].
  intros H.
  assert (Hlen : String.length (String c t) = 3%nat)
    by (injection H as _ H; cbn [String.length]; lia).
  rewrite <- (substring_all (String c t)), Hlen.
  apply (commonPrefix_all "nan"); [|lia].
  intros q Hq. cbn [contains] in Hq.
  repeat (apply orb_true_iff in Hq; destruct Hq as [Hq|Hq]);
    try discriminate Hq; apply Ascii.eqb_eq in Hq; subst q; reflexivity.
Qed.

End Words.

Lemma word_byte (c : ascii) :
  let c' := if (65 <=? code c) && (code c <=? 90) then code c + 32 else code c in
  (c' =? code "i") || (c' =? code "n") || (c' =? code "f") || (c' =? code "t")
  || (c' =? code "y") || (c' =? code "a") = true ->
  amountByte c = true.
Proof.
  destruct c as [[] [] [] [] [] [] [] []]; intros c' H; try discriminate H; reflexivity.
Qed.

(** ParseFloat fails on a string that holds any other byte. *)
Lemma ParseFloat_bytes (s : string) (x : float64) :
  ParseFloat s = OK x -> allBytes amountByte s = true.
Proof.
  unfold ParseFloat. destruct (special s) as [[v n]|] eqn:Es.
  - destruct (Nat.eqb_spec n (String.length s)) as [->|]; [|discriminate].
    intros _. now apply (special_all amountByte word_byte eq_refl eq_refl s v).
  - destruct (readFloat s) as [y|] eqn:Er; [|discriminate].
    apply readFloat_reads in Er. destruct (rest y); [|discriminate].
    intros _. now apply reads_all.
Qed.

(** X13.  A row whose amount, once the commas are gone, holds a byte that
    no number is written with (a blank, a currency sign, a bracket, a
    percent sign, any byte above 127, ...) gives no record: it is skipped
    without a trace in the two texts. *)
Theorem amount_with_foreign_byte_is_skipped :
  forall (rowIndex : nat) (row : Row),
    allBytes amountByte (cleanedAmount row) = false ->
    extractRow rowIndex row = None.
Proof.
  intros rowIndex row H. unfold extractRow. fold (cleanedAmount row).
  destruct (_ || _); [reflexivity|].
  destruct (_ || _); [reflexivity|].
  destruct (ParseFloat (cleanedAmount row)) as [x|] eqn:Hp; [|reflexivity].
  apply ParseFloat_bytes in Hp. congruence.
Qed.

Lemma amount_with_foreign_byte_is_skipped_witness :
  extractRow 1 (dataRow "REF1" "MEMO1" "$ 1,234.50") = None
  /\ extractRow 2 (dataRow "REF2" "MEMO2" "(500)") = None
  /\ extractRow 3 (dataRow "REF3" "MEMO3" " -100") = None.
Proof.
  split; [|split]; apply amount_with_foreign_byte_is_skipped; vm_compute; reflexivity.
Defined.

(** ** The merged ranges *)

Lemma isOverlap_refl (mc : MergeCell) : isOverlap mc mc = true.
Proof.
  unfold isOverlap. repeat (apply andb_true_iff; split); apply Z.leb_le; lia.
Qed.

(** Unmerging every range of a list that holds all the ranges of the sheet
    leaves no range. *)
Lemma unmerge_all (mergedCells : list MergeCell) :
  forall sh : Sheet,
    (forall m, In m (Merges sh) -> In m mergedCells) ->
    forRange mergedCells (fun mc sh => UnmergeCell sh mc) sh
    = OK (mkSheet (Name sh) [] (Rows sh)).
Proof.
  induction mergedCells as [|mc mcs IH]; intros sh Hall.
  - cbn [forRange]. destruct sh as [name [|m merges] rows]; [reflexivity|].
    destruct (Hall m (or_introl eq_refl)).
  - cbn [forRange]. unfold UnmergeCell at 1. cbn [bind]. rewrite IH; [reflexivity|].
    cbn [Merges]. intros m Hm. apply filter_In in Hm. destruct Hm as [Hin Hno].
    destruct (Hall m Hin) as [<-|Hm]; [|exact Hm].
    now rewrite isOverlap_refl in Hno.
Qed.

(** X14.  After a trim that succeeds no merged range is left on the sheet:
    every range GetMergeCells has listed is dissolved before the first row
    is removed, and the removals add none. *)
Theorem trim_leaves_no_merged_range :
  forall sh sh' : Sheet, trimSheet sh = OK sh' -> Merges sh' = [].
Proof.
  intros sh sh'. unfold trimSheet, GetMergeCells. cbn [bind].
  rewrite unmerge_all by auto. cbn [bind]. rewrite head_loop. cbn [bind GetRows Name Merges Rows].
  rewrite tail_loop. cbn [Name Merges Rows].
  destruct (_ <? 14); [discriminate|]. intros H. apply OK_inj in H. now subst sh'.
Qed.

Lemma trim_leaves_no_merged_range_witness :
  Merges (mkSheet "Sheet1" [] (numbered [2; 4; 6; 8; 10; 12; 14; 16; 18; 20; 22; 24; 26;
                                         28; 30; 32; 34; 36; 38; 40; 42; 46; 50; 52; 54; 56;
                                         58; 60]%nat)) = [].
Proof.
  refine (trim_leaves_no_merged_range
            (mkSheet "Sheet1" [mkMergeCell 1 1 38 3; mkMergeCell 2 5 2 9] (numberedRows 60)) _ _).
  vm_compute. reflexivity.
Defined.

(** ** Plain decimals as numbers *)

Lemma readPlain_fixedDigits (w : nat) :
  forall (n : Z) (seen : bool) (v : Z) (f : nat) (tail : string),
    readPlain seen v f (fixedDigits w n "" ++ tail)
    = readPlain seen (v * 10 ^ Z.of_nat w + n mod 10 ^ Z.of_nat w)
        (if seen then (f + w)%nat else f) tail.
Proof.
  induction w as [|w IH]; intros n seen v f tail.
  - cbn [fixedDigits append]. rewrite Z.mod_1_r, Nat.add_0_r.
    replace (v * 10 ^ Z.of_nat 0 + 0) with v by (simpl; lia). now destruct seen.
  - rewrite fixedDigits_S, append_assoc, IH. cbn [append readPlain].
    pose proof (Z.mod_pos_bound n 10 ltac:(lia)) as Hr.
    destruct (digitChar_facts (n mod 10) Hr) as (_ & Hv & _ & Hp & _).
    rewrite Hp, Hv. f_equal.
    + rewrite Nat2Z.inj_succ, Z.pow_succ_r by lia.
      rewrite (Z.rem_mul_r n 10 (10 ^ Z.of_nat w)) by (try lia; apply Z.pow_nonzero; lia).
      lia.
    + destruct seen; lia.
Qed.

Lemma digitChar_digitVal (c : ascii) : isDigit c = true -> digitChar (digitVal c) = c.
Proof.
  destruct c as [[] [] [] [] [] [] [] []]; intros H; try discriminate H; reflexivity.
Qed.

Lemma fixedDigits_mod (w : nat) :
  forall a b : Z, fixedDigits w (a * 10 ^ Z.of_nat w + b) "" = fixedDigits w b "".
Proof.
  induction w as [|w IH]; intros a b; [reflexivity|].
  rewrite !fixedDigits_S.
  rewrite Nat2Z.inj_succ, Z.pow_succ_r by lia.
  replace (a * (10 * 10 ^ Z.of_nat w) + b) with (b + a * 10 ^ Z.of_nat w * 10) by lia.
  rewrite Z.div_add, Z.mod_add by lia.
  replace (b / 10 + a * 10 ^ Z.of_nat w) with (a * 10 ^ Z.of_nat w + b / 10) by lia.
  now rewrite IH.
Qed.

Lemma fixedDigits_cons (w : nat) :
  forall n : Z,
    fixedDigits (S w) n "" = String (digitChar ((n / 10 ^ Z.of_nat w) mod 10)) (fixedDigits w n "").
Proof.
  induction w as [|w IH]; intros n.
  - cbn [fixedDigits]. change (10 ^ Z.of_nat 0) with 1. now rewrite Z.div_1_r.
  - rewrite fixedDigits_S, IH. cbn [append]. rewrite <- fixedDigits_S.
    rewrite Z.div_div by (try lia; apply Z.pow_pos_nonneg; lia).
    rewrite Nat2Z.inj_succ, Z.pow_succ_r by lia. reflexivity.
Qed.

(** A run of digits is the fixed-width rendering of the number it spells. *)
Lemma digits_fixed (d : string) :
  allDigits d = true ->
  exists n, 0 <= n < 10 ^ Z.of_nat (String.length d)
            /\ d = fixedDigits (String.length d) n "".
Proof.
  induction d as [|c d IH]; intros H.
  - exists 0. simpl. split; [lia|reflexivity].
  - cbn [allDigits] in H. apply andb_true_iff in H. destruct H as [Hc Hd].
    destruct (IH Hd) as (n & Hn & E).
    set (w := String.length d) in *.
    assert (Hv : 0 <= digitVal c < 10).
    { revert Hc. clear. destruct c as [[] [] [] [] [] [] [] []]; intros H;
        try discriminate H; vm_compute; split; congruence. }
    exists (digitVal c * 10 ^ Z.of_nat w + n).
    assert (Hpow : 0 < 10 ^ Z.of_nat w) by (apply Z.pow_pos_nonneg; lia).
    cbn [String.length]. fold w. split.
    + rewrite Nat2Z.inj_succ, Z.pow_succ_r by lia. nia.
    + rewrite fixedDigits_cons, fixedDigits_mod, <- E.
      replace (digitVal c * 10 ^ Z.of_nat w + n) with (n + digitVal c * 10 ^ Z.of_nat w) by lia.
      rewrite Z.div_add by lia. rewrite (Z.div_small n) by lia.
      rewrite Z.add_0_l, Z.mod_small by lia.
      now rewrite digitChar_digitVal.
Qed.

Lemma plainFrom_split (s : string) :
  forall seen,
    plainFrom seen s = true ->
    exists a b,
      s = (a ++ b)%string /\ allDigits a = true
      /\ (seen = true \/ a <> "")
      /\ (b = "" \/ exists b', b = String "." b' /\ b' <> "" /\ allDigits b' = true).
Proof.
  induction s as [|c s IH]; intros seen H.
  - exists "", "". cbn [plainFrom] in H. repeat split; auto.
  - cbn [plainFrom] in H. destruct (isDigit c) eqn:Hc.
    + destruct (IH true H) as (a & b & -> & Ha & _ & Hb).
      exists (String c a), b. cbn [allDigits append]. rewrite Hc, Ha.
      repeat split; auto. right. discriminate.
    + destruct (Ascii.eqb_spec c ".") as [->|]; [|discriminate].
      apply andb_true_iff in H. destruct H as [H Hd].
      apply andb_true_iff in H. destruct H as [Hseen Hne].
      exists "", (String "." s). repeat split; auto.
      right. exists s. repeat split; auto.
      intros ->. discriminate Hne.
Qed.

Lemma allDigits_no_point (d : string) : allDigits d = true -> contains "." d = false.
Proof.
  induction d as [|c d IH]; [reflexivity|]. cbn [allDigits contains].
  intros H. apply andb_true_iff in H. destruct H as [Hc Hd]. rewrite (IH Hd).
  destruct (Ascii.eqb_spec c ".") as [->|]; [discriminate Hc|reflexivity].
Qed.

Lemma RemoveAll_append (c : ascii) (s t : string) :
  RemoveAll c (s ++ t) = (RemoveAll c s ++ RemoveAll c t)%string.
Proof.
  induction s as [|c' s IH]; [reflexivity|]. cbn [append RemoveAll].
  destruct (Ascii.eqb c' c); [exact IH|]. cbn [append]. now rewrite IH.
Qed.

(** A plain decimal by its integer part, of [S w] digits, and its
    fraction, of [f] digits. *)
Lemma plain_decimal_parts (s : string) :
  isPlainDecimal s = true ->
  exists (w f : nat) (ip F : Z),
    0 <= ip < 10 ^ Z.of_nat (S w)
    /\ 0 <= F < 10 ^ Z.of_nat f
    /\ s = (fixedDigits (S w) ip ""
            ++ match f with
               | O => ""
               | S _ => String "." (fixedDigits f F "")
               end)%string
    /\ digitCount s = (S w + f)%nat.
Proof.
  intros H. destruct (plainFrom_split s false H) as (a & b & -> & Ha & Hne & Hb).
  destruct Hne as [Hne|Hne]; [discriminate|].
  destruct (digits_fixed a Ha) as (ip & Hip & Ea).
  destruct (String.length a) as [|w] eqn:El; [destruct a; [contradiction|discriminate]|].
  assert (Hca : String.length (RemoveAll "." a) = S w)
    by (rewrite (RemoveAll_none _ _ (allDigits_no_point a Ha)); exact El).
  destruct Hb as [->|(b' & -> & Hne' & Hb')].
  - exists w, 0%nat, ip, 0. change (10 ^ Z.of_nat 0) with 1.
    repeat split; try lia.
    + now rewrite Ea at 1.
    + unfold digitCount. rewrite append_empty_r, Hca. lia.
  - destruct (digits_fixed b' Hb') as (F & HF & Eb).
    destruct (String.length b') as [|f] eqn:El'; [destruct b'; [contradiction|discriminate]|].
    exists w, (S f), ip, F. repeat split; try lia.
    + rewrite Ea at 1. now rewrite Eb at 1.
    + unfold digitCount. rewrite RemoveAll_append, length_append, Hca.
      cbn [RemoveAll]. change (Ascii.eqb "." ".") with true. cbv iota.
      rewrite (RemoveAll_none _ _ (allDigits_no_point b' Hb')), El'. reflexivity.
Qed.

Lemma decimalValue_parts (w f : nat) (ip F : Z) :
  0 <= ip < 10 ^ Z.of_nat (S w) ->
  0 <= F < 10 ^ Z.of_nat f ->
  decimalValue (fixedDigits (S w) ip ""
                ++ match f with
                   | O => ""
                   | S _ => String "." (fixedDigits f F "")
                   end)
  = (ip * 10 ^ Z.of_nat f + F, f).
Proof.
  intros Hip HF. unfold decimalValue. rewrite readPlain_fixedDigits.
  rewrite Z.mod_small by assumption. cbn [Z.mul Z.add].
  destruct f as [|f].
  - cbn [readPlain]. change (10 ^ Z.of_nat 0) with 1 in *. f_equal. lia.
  - cbn [readPlain]. change (Ascii.eqb "." ".") with true. cbv iota.
    rewrite <- (append_empty_r (fixedDigits (S f) F "")), readPlain_fixedDigits.
    rewrite Z.mod_small by assumption. reflexivity.
Qed.

Lemma decimalValue_fmtF (v : Z) (f : nat) : 0 <= v -> decimalValue (fmtF v f) = (v, f).
Proof.
  intros Hv. destruct (fmtF_plain v f Hv) as (w & ip & F & Hip & HF & -> & ->).
  now apply decimalValue_parts.
Qed.

(** ** Rounding a short decimal *)

Lemma roundHalfEven_tie (N D : Z) :
  0 < D ->
  2 * N = (2 * roundHalfEven N D + 1) * D \/ 2 * N = (2 * roundHalfEven N D - 1) * D ->
  Z.even (roundHalfEven N D) = true.
Proof.
  intros HD. unfold roundHalfEven.
  pose proof (Z.div_mod N D ltac:(lia)) as E.
  pose proof (Z.mod_pos_bound N D HD) as Hr.
  set (q := N / D) in *. set (r := N mod D) in *.
  destruct (Z.ltb_spec (2 * r) D) as [H1|H1]; [intros H; exfalso; nia|].
  destruct (Z.ltb_spec D (2 * r)) as [H2|H2]; [intros H; exfalso; nia|].
  destruct (Z.even q) eqn:Hq; intros _; [exact Hq|].
  rewrite Z.even_add, Hq. reflexivity.
Qed.

(** The float64 nearest to [n / d], for [10^-15 <= n / d < 10^15], and the
    fractions that round to it, in quarters of its last place. *)
Lemma roundToFloat_decimal (n d : Z) :
  0 < n < 10 ^ 15 ->
  0 < d <= 10 ^ 15 ->
  exists m e,
    roundToFloat false n d = OK (Finite false m e)
    /\ canonical m e /\ minExp < e <= -2
    /\ (let lo4 := if m =? 2 ^ 52 then 4 * m - 1 else 4 * m - 2 in
        lo4 * d <= n * 2 ^ (2 - e) <= (4 * m + 2) * d
        /\ (Z.even m = false -> lo4 * d < n * 2 ^ (2 - e) < (4 * m + 2) * d)).
Proof.
  intros Hn Hd.
  destruct (floorLog2_spec n d ltac:(lia) ltac:(lia)) as [Hlo Hhi].
  set (k := floorLog2 n d) in *.
  assert (H1015 : 10 ^ 15 < 2 ^ 50) by reflexivity.
  assert (Hk : -50 <= k <= 49).
  { split.
    - destruct (Z.le_gt_cases (-50) k) as [|Hk]; [assumption|exfalso].
      unfold cmp2 in Hhi. rewrite pow2Num_nonpos, pow2Den_nonpos in Hhi by lia.
      apply Z.compare_gt_iff in Hhi.
      assert (2 ^ 50 <= 2 ^ (- (k + 1))) by (apply Z.pow_le_mono_r; lia). nia.
    - destruct (Z.le_gt_cases k 49) as [|Hk]; [assumption|exfalso].
      unfold cmp2 in Hlo. rewrite pow2Num_nonneg, pow2Den_nonneg in Hlo by lia.
      apply -> Z.compare_le_iff in Hlo.
      assert (2 ^ 50 <= 2 ^ k) by (apply Z.pow_le_mono_r; lia). nia. }
  set (e0 := k - 52).
  set (T0 := 2 ^ (- e0)).
  assert (HT0 : 0 < T0) by (apply Z.pow_pos_nonneg; unfold e0; lia).
  assert (H1 : 2 ^ 52 * d <= n * T0).
  { rewrite (cmp2_pow d n 52 e0 k) in Hlo by (unfold e0; lia).
    unfold cmp2 in Hlo. rewrite pow2Num_nonpos, pow2Den_nonpos in Hlo by (unfold e0; lia).
    apply -> Z.compare_le_iff in Hlo. fold T0 in Hlo. lia. }
  assert (H2 : n * T0 < 2 ^ 53 * d).
  { rewrite (cmp2_pow d n 53 e0 (k + 1)) in Hhi by (unfold e0; lia).
    unfold cmp2 in Hhi. rewrite pow2Num_nonpos, pow2Den_nonpos in Hhi by (unfold e0; lia).
    apply Z.compare_gt_iff in Hhi. fold T0 in Hhi. lia. }
  unfold roundToFloat. fold k. unfold mantbits.
  replace (Z.max (k - 52) minExp) with e0 by (unfold e0, minExp; lia).
  assert (Er : roundScaled n d e0 = roundHalfEven (n * T0) d).
  { unfold roundScaled. rewrite pow2Num_nonpos, pow2Den_nonpos by (unfold e0; lia).
    now rewrite Z.mul_1_r. }
  rewrite Er.
  pose proof (roundHalfEven_spec (n * T0) d ltac:(lia)) as Hs.
  pose proof (roundHalfEven_tie (n * T0) d ltac:(lia)) as Ht.
  set (M := roundHalfEven (n * T0) d) in *.
  change (2 ^ 52) with 4503599627370496 in *.
  change (2 ^ 53) with 9007199254740992 in *.
  assert (HM : 4503599627370496 <= M <= 9007199254740992) by nia.
  change (2 ^ (52 + 1)) with 9007199254740992.
  destruct (Z.eqb_spec M 9007199254740992) as [EM|NM].
  - (* the mantissa was rounded up to the next binade *)
    exists 4503599627370496, (e0 + 1).
    replace (maxExp <? e0 + 1) with false
      by (symmetry; apply Z.ltb_ge; unfold e0, maxExp; lia).
    change (4503599627370496 =? 0) with false. cbv iota.
    split; [reflexivity|]. split.
    { unfold canonical, minExp, maxExp, e0. change (2 ^ 53) with 9007199254740992.
      change (2 ^ 52) with 4503599627370496. lia. }
    split; [unfold minExp, e0; lia|].
    rewrite Z.eqb_refl. cbv zeta.
    replace (2 ^ (2 - (e0 + 1))) with (2 * T0).
    2:{ unfold T0. replace (2 - (e0 + 1)) with (1 + - e0) by lia.
        rewrite Z.pow_add_r by (unfold e0; lia). reflexivity. }
    split; [subst M; lia|]. intros Hodd. discriminate Hodd.
  - exists M, e0.
    replace (maxExp <? e0) with false
      by (symmetry; apply Z.ltb_ge; unfold e0, maxExp; lia).
    replace (M =? 0) with false by (symmetry; apply Z.eqb_neq; lia).
    split; [reflexivity|]. split.
    { unfold canonical, minExp, maxExp, e0. change (2 ^ 53) with 9007199254740992.
      change (2 ^ 52) with 4503599627370496. lia. }
    split; [unfold minExp, e0; lia|].
    cbv zeta.
    replace (2 ^ (2 - e0)) with (4 * T0).
    2:{ unfold T0. replace (2 - e0) with (2 + - e0) by lia.
        rewrite Z.pow_add_r by (unfold e0; lia). reflexivity. }
    destruct (Z.eqb_spec M 4503599627370496) as [EM|NM'].
    + split; [nia|]. intros Hodd. subst M. rewrite EM in Hodd. discriminate Hodd.
    + split; [nia|]. intros Hodd.
      split.
      * destruct (Z.eq_dec (2 * (n * T0)) ((2 * M - 1) * d)) as [Eq|Ne].
        -- rewrite Ht in Hodd by (right; exact Eq). discriminate Hodd.
        -- nia.
      * destruct (Z.eq_dec (2 * (n * T0)) ((2 * M + 1) * d)) as [Eq|Ne].
        -- rewrite Ht in Hodd by (left; exact Eq). discriminate Hodd.
        -- nia.
Qed.

(** ** The shortest decimal of a rounded short decimal *)

Lemma one_multiple (Q y G : Z) :
  (Q | y) -> (Q | G) -> - Q < y - G < Q -> y = G.
Proof. intros [a ->] [b ->] H. assert (a = b) by nia. now subst. Qed.

Lemma pow10_divide (j k : nat) : (j <= k)%nat -> (10 ^ Z.of_nat j | 10 ^ Z.of_nat k).
Proof.
  intros H. exists (10 ^ Z.of_nat (k - j)).
  rewrite <- Z.pow_add_r by lia. f_equal. lia.
Qed.

Lemma only_one_inside (L U G y : Z) (kD : nat) :
  L <= G <= U ->
  (10 ^ Z.of_nat kD | G) ->
  U - L < 10 ^ Z.of_nat kD ->
  (10 ^ Z.of_nat kD | y) -> L <= y <= U -> y = G.
Proof.
  intros HG Hdiv Hwidth Hy Hin.
  apply (one_multiple (10 ^ Z.of_nat kD)); try assumption. lia.
Qed.

(** Above the last place of [G] neither neighbour of [X] is within the
    bounds. *)
Lemma place_above (incl : bool) (L X U G : Z) (kD k : nat) :
  L < X < U ->
  L <= G <= U ->
  (10 ^ Z.of_nat kD | G) ->
  ~ (10 ^ Z.of_nat (S kD) | G) ->
  U - L < 10 ^ Z.of_nat kD ->
  (kD < k)%nat ->
  let P := 10 ^ Z.of_nat k in
  let down := X / P * P in
  (if incl then L <=? down else L <? down) = false
  /\ (if incl then down + P <=? U else down + P <? U) = false.
Proof.
  intros HX HG Hdiv Hndiv Hwidth Hk P down.
  assert (HP : 0 < P) by (apply Z.pow_pos_nonneg; lia).
  pose proof (Z.mul_div_le X P HP) as Hle.
  pose proof (Z.mul_succ_div_gt X P HP) as Hgt.
  assert (Hdown : down <= X /\ X < down + P) by (unfold down; lia).
  assert (HPS : (10 ^ Z.of_nat (S kD) | P)) by (apply pow10_divide; lia).
  assert (HPD : (10 ^ Z.of_nat kD | P)) by (apply pow10_divide; lia).
  assert (Hd1 : (P | down)) by (exists (X / P); reflexivity).
  assert (Hd2 : (P | down + P)) by (exists (X / P + 1); unfold down; lia).
  assert (Hno : forall y, (P | y) -> L <= y <= U -> False).
  { intros y Hy Hin. apply Hndiv.
    rewrite <- (only_one_inside L U G y kD HG Hdiv Hwidth);
      [|apply (Z.divide_trans _ P)|]; try assumption.
    now apply (Z.divide_trans _ P). }
  split.
  - destruct incl.
    + apply Z.leb_gt. destruct (Z.lt_ge_cases down L) as [|H]; [assumption|exfalso].
      apply (Hno down); [assumption|lia].
    + apply Z.ltb_ge. destruct (Z.le_gt_cases down L) as [|H]; [assumption|exfalso].
      apply (Hno down); [assumption|lia].
  - destruct incl.
    + apply Z.leb_gt. destruct (Z.lt_ge_cases U (down + P)) as [|H]; [assumption|exfalso].
      apply (Hno (down + P)); [assumption|lia].
    + apply Z.ltb_ge. destruct (Z.le_gt_cases U (down + P)) as [|H]; [assumption|exfalso].
      apply (Hno (down + P)); [assumption|lia].
Qed.

(** At the last place of [G] one neighbour of [X] is [G], and the other
    one is out of bounds. *)
Lemma place_at (incl : bool) (L X U G : Z) (kD : nat) :
  L < X < U ->
  (if incl then L <= G <= U else L < G < U) ->
  (10 ^ Z.of_nat kD | G) ->
  U - L < 10 ^ Z.of_nat kD ->
  let P := 10 ^ Z.of_nat kD in
  let down := X / P * P in
  ((if incl then L <=? down else L <? down) = true
   /\ (if incl then down + P <=? U else down + P <? U) = false
   /\ down = G)
  \/ ((if incl then L <=? down else L <? down) = false
      /\ (if incl then down + P <=? U else down + P <? U) = true
      /\ down + P = G).
Proof.
  intros HX HG Hdiv Hwidth P down.
  assert (HP : 0 < P) by (apply Z.pow_pos_nonneg; lia).
  pose proof (Z.mul_div_le X P HP) as Hle.
  pose proof (Z.mul_succ_div_gt X P HP) as Hgt.
  assert (Hdown : down <= X /\ X < down + P) by (unfold down; lia).
  assert (Hd1 : (P | down)) by (exists (X / P); reflexivity).
  assert (Hd2 : (P | down + P)) by (exists (X / P + 1); unfold down; lia).
  assert (HGin : L <= G <= U) by (destruct incl; lia).
  fold P in Hwidth, Hdiv.
  destruct (Z.le_gt_cases G X) as [HGX|HGX].
  - left.
    assert (E : down = G).
    { apply (one_multiple P); try assumption. lia. }
    repeat split; [| |exact E].
    + rewrite E. destruct incl; [apply Z.leb_le|apply Z.ltb_lt]; lia.
    + rewrite E. destruct incl; [apply Z.leb_gt|apply Z.ltb_ge]; lia.
  - right.
    assert (E : down + P = G).
    { apply (one_multiple P); try assumption. lia. }
    repeat split; [| |exact E].
    + destruct incl; [apply Z.leb_gt|apply Z.ltb_ge]; lia.
    + rewrite E. destruct incl; [apply Z.leb_le|apply Z.ltb_lt]; lia.
Qed.

(** The digit walk, started at or above the last place of [G], ends
    with [G]. *)
Lemma shortestFrom_only (incl : bool) (L X U G : Z) (kD : nat) :
  L < X < U ->
  (if incl then L <= G <= U else L < G < U) ->
  (10 ^ Z.of_nat kD | G) ->
  ~ (10 ^ Z.of_nat (S kD) | G) ->
  U - L < 10 ^ Z.of_nat kD ->
  forall k : nat, (kD <= k)%nat -> shortestFrom incl L X U k = G.
Proof.
  intros HX HG Hdiv Hndiv Hwidth.
  assert (HGin : L <= G <= U) by (destruct incl; lia).
  induction k as [|k IH]; intros Hk.
  - assert (kD = 0%nat) by lia. subst kD.
    cbn [shortestFrom]. cbv zeta.
    destruct (place_at incl L X U G 0 HX HG Hdiv Hwidth) as [(-> & -> & E)|(-> & -> & E)];
      cbn [andb]; exact E.
  - destruct (Nat.eq_dec kD (S k)) as [E|NE].
    + cbn [shortestFrom]. cbv zeta. rewrite <- E.
      destruct (place_at incl L X U G kD HX HG Hdiv Hwidth) as [(-> & -> & E')|(-> & -> & E')];
        cbn [andb]; exact E'.
    + cbn [shortestFrom]. cbv zeta.
      destruct (place_above incl L X U G kD (S k) HX HGin Hdiv Hndiv Hwidth ltac:(lia))
        as [-> ->].
      cbn [andb]. apply IH. lia.
Qed.

Lemma trailing_zeros (v : Z) :
  0 < v -> exists (z : nat) (u : Z), v = u * 10 ^ Z.of_nat z /\ 0 < u /\ ~ (10 | u).
Proof.
  intros Hv. assert (H0 : 0 <= v) by lia. revert Hv.
  pattern v. apply Z_lt_induction; [|exact H0]. clear v H0.
  intros v IH Hv.
  destruct (Z.eq_dec (v mod 10) 0) as [E|NE].
  - pose proof (Z.div_mod v 10 ltac:(lia)) as Ed. rewrite E, Z.add_0_r in Ed.
    destruct (IH (v / 10) ltac:(lia) ltac:(lia)) as (z & u & Hu & Hpos & Hnd).
    exists (S z), u. split; [|split; assumption].
    rewrite Nat2Z.inj_succ, Z.pow_succ_r by lia. lia.
  - exists 0%nat, v. change (10 ^ Z.of_nat 0) with 1.
    split; [lia|]. split; [assumption|].
    intros [c Hc]. apply NE. rewrite Hc. apply Z.mod_mul. lia.
Qed.

(** The shortest decimal of the float64 nearest to [v / 10^f], for [v] of
    at most 15 digits, is [v / 10^f] itself. *)
Lemma FormatFloat_of_decimal (v : Z) (f : nat) (m e : Z) :
  0 < v < 10 ^ 15 ->
  canonical m e ->
  minExp < e <= -2 ->
  (let lo4 := if m =? 2 ^ 52 then 4 * m - 1 else 4 * m - 2 in
   lo4 * 10 ^ Z.of_nat f <= v * 2 ^ (2 - e) <= (4 * m + 2) * 10 ^ Z.of_nat f
   /\ (Z.even m = false ->
       lo4 * 10 ^ Z.of_nat f < v * 2 ^ (2 - e) < (4 * m + 2) * 10 ^ Z.of_nat f)) ->
  exists (v' : Z) (f' : nat),
    FormatFloat (Finite false m e) = fmtF v' f'
    /\ 0 <= v'
    /\ v' * 10 ^ Z.of_nat f = v * 10 ^ Z.of_nat f'.
Proof.
  intros Hv (Hm & He' & Hnorm) He Hb. cbv zeta in Hb.
  cbn [FormatFloat signString]. unfold shortest, computeBounds. unfold mantbits.
  replace ((m =? 2 ^ 52) && (minExp <? e)) with (m =? 2 ^ 52)
    by (replace (minExp <? e) with true by (symmetry; apply Z.ltb_lt; lia);
        now rewrite andb_true_r).
  set (lo4 := if m =? 2 ^ 52 then 4 * m - 1 else 4 * m - 2) in *.
  replace (Z.max 0 (e - 2)) with 0 by lia.
  replace (Z.max 0 (- (e - 2))) with (2 - e) by lia.
  replace (- (e - 2)) with (2 - e) by lia.
  change (2 ^ 0) with 1. rewrite Z.mul_1_l.
  set (fz := Z.to_nat (2 - e)).
  assert (Efz : 2 - e = Z.of_nat fz) by (unfold fz; lia).
  rewrite Efz in *.
  set (A := 10 ^ Z.of_nat f) in *.
  set (T := 2 ^ Z.of_nat fz) in *.
  set (Q := 5 ^ Z.of_nat fz).
  assert (HA : 0 < A) by (apply Z.pow_pos_nonneg; lia).
  assert (HT : 0 < T) by (apply Z.pow_pos_nonneg; lia).
  assert (HQ : 0 < Q) by (apply Z.pow_pos_nonneg; lia).
  assert (Hlo4 : 4 * m - 2 <= lo4 < 4 * m) by (unfold lo4; destruct (m =? 2 ^ 52); lia).
  assert (Hm52 : 2 ^ 52 <= m) by (unfold minExp in *; lia).
  change (2 ^ 52) with 4503599627370496 in Hm52.
  change (10 ^ 15) with 1000000000000000 in Hv.
  (* the place of the last digit is finer than that of the cell *)
  assert (HTA : 4 * A < T).
  { destruct Hb as [[Hb1 _] _]. clear - Hb1 Hlo4 Hm52 Hv HA HT.
    assert (H1 : 18014398509481982 * A <= lo4 * A) by (apply Z.mul_le_mono_nonneg_r; lia).
    assert (H2 : v * T <= 1000000000000000 * T) by (apply Z.mul_le_mono_nonneg_r; lia).
    lia. }
  assert (Hf : (f < fz)%nat).
  { assert (H2 : 2 ^ Z.of_nat f <= A) by (apply Z.pow_le_mono_l; lia).
    assert (H3 : 2 ^ Z.of_nat f < 2 ^ Z.of_nat fz) by (fold T; lia).
    apply Z.pow_lt_mono_r_iff in H3; lia. }
  set (B := 10 ^ Z.of_nat (fz - f)).
  assert (HB : 0 < B) by (apply Z.pow_pos_nonneg; lia).
  assert (HTQ : T * Q = B * A).
  { unfold T, Q, B, A. rewrite <- Z.pow_mul_l, <- Z.pow_add_r by lia.
    change (2 * 5) with 10. f_equal. lia. }
  set (G := v * B).
  assert (Hscale : forall c : Z,
             (c * A <= v * T -> c * Q <= G) /\ (c * A < v * T -> c * Q < G)
             /\ (v * T <= c * A -> G <= c * Q) /\ (v * T < c * A -> G < c * Q)).
  { intros c. unfold G.
    assert (E1 : c * A * Q = A * (c * Q)) by ring.
    assert (E2 : v * T * Q = A * (v * B)) by (rewrite <- Z.mul_assoc, HTQ; ring).
    repeat split; intros H.
    - apply (Z.mul_le_mono_pos_l _ _ A HA). rewrite <- E1, <- E2.
      now apply Z.mul_le_mono_pos_r.
    - apply (Z.mul_lt_mono_pos_l A _ _ HA). rewrite <- E1, <- E2.
      now apply Z.mul_lt_mono_pos_r.
    - apply (Z.mul_le_mono_pos_l _ _ A HA). rewrite <- E1, <- E2.
      now apply Z.mul_le_mono_pos_r.
    - apply (Z.mul_lt_mono_pos_l A _ _ HA). rewrite <- E1, <- E2.
      now apply Z.mul_lt_mono_pos_r. }
  destruct Hb as [[Hb1 Hb2] Hodd].
  assert (HGL : lo4 * Q <= G) by (now apply Hscale).
  assert (HGU : G <= (4 * m + 2) * Q) by (now apply Hscale).
  assert (HGin : if Z.even m
                 then lo4 * Q <= G <= (4 * m + 2) * Q
                 else lo4 * Q < G < (4 * m + 2) * Q).
  { destruct (Z.even m); [now split|].
    destruct (Hodd eq_refl) as [Hs1 Hs2]. split; now apply Hscale. }
  (* the last digit of the cell that is not a zero *)
  destruct (trailing_zeros v ltac:(lia)) as (z & u & Eu & Hu & Hnd).
  set (kD := (z + (fz - f))%nat).
  assert (HGu : G = u * 10 ^ Z.of_nat kD).
  { unfold G, B, kD. rewrite Eu, Nat2Z.inj_add, Z.pow_add_r by lia. ring. }
  assert (HkD : 0 < 10 ^ Z.of_nat kD) by (apply Z.pow_pos_nonneg; lia).
  assert (Hz : 0 < 10 ^ Z.of_nat z) by (apply Z.pow_pos_nonneg; lia).
  assert (Huv : u <= v) by (clear - Eu Hu Hz; nia).
  assert (Hdiv : (10 ^ Z.of_nat kD | G)) by (exists u; exact HGu).
  assert (Hndiv : ~ (10 ^ Z.of_nat (S kD) | G)).
  { intros [c Hc]. apply Hnd. exists c.
    rewrite Nat2Z.inj_succ, Z.pow_succ_r in Hc by lia.
    apply (Z.mul_reg_r _ _ (10 ^ Z.of_nat kD)); [lia|]. rewrite <- HGu, Hc. ring. }
  assert (Hwidth : (4 * m + 2) * Q - lo4 * Q < 10 ^ Z.of_nat kD).
  { assert (H4 : (4 * m + 2) * Q - lo4 * Q <= 4 * Q).
    { replace ((4 * m + 2) * Q - lo4 * Q) with ((4 * m + 2 - lo4) * Q) by ring.
      apply Z.mul_le_mono_nonneg_r; lia. }
    destruct (Z.lt_ge_cases (4 * Q) (10 ^ Z.of_nat kD)) as [H|H]; [lia|exfalso].
    assert (H5 : G < 1000000000000000 * (10 ^ Z.of_nat kD))
      by (rewrite HGu; apply Z.mul_lt_mono_pos_r; lia).
    assert (H6 : 18014398509481982 * Q <= lo4 * Q)
      by (apply Z.mul_le_mono_nonneg_r; lia).
    lia. }
  assert (HX : lo4 * Q < 4 * m * Q < (4 * m + 2) * Q)
    by (split; apply Z.mul_lt_mono_pos_r; lia).
  set (U := (4 * m + 2) * Q) in *.
  assert (Hstart : (kD <= numDigits U)%nat).
  { destruct (numDigits_spec U ltac:(lia)) as (HU & _).
    assert (H4 : 10 ^ Z.of_nat kD <= G) by (rewrite HGu; clear - Hu HkD; nia).
    assert (H3 : 10 ^ Z.of_nat kD < 10 ^ Z.of_nat (numDigits U)) by lia.
    apply Z.pow_lt_mono_r_iff in H3; lia. }
  rewrite (shortestFrom_only (Z.even m) (lo4 * Q) (4 * m * Q) U G kD
             HX HGin Hdiv Hndiv Hwidth (numDigits U) Hstart).
  destruct (trimZeros_spec fz G) as [Hf' HG'].
  destruct (trimZeros fz G) as [v' f']. cbn [fst snd] in *.
  exists v', f'. split; [reflexivity|].
  set (C := 10 ^ (Z.of_nat fz - Z.of_nat f')) in *.
  assert (HC : 0 < C) by (apply Z.pow_pos_nonneg; lia).
  assert (HGpos : 0 < G) by (unfold G; apply Z.mul_pos_pos; lia).
  split.
  { destruct (Z.le_gt_cases 0 v') as [|Hneg]; [assumption|exfalso].
    assert (v' * C < 0) by (apply Z.mul_neg_pos; lia). lia. }
  set (A' := 10 ^ Z.of_nat f').
  assert (HA' : 0 < A') by (apply Z.pow_pos_nonneg; lia).
  assert (E1 : C * A' = 10 ^ Z.of_nat fz).
  { unfold C, A'. rewrite <- Z.pow_add_r by lia. f_equal. lia. }
  assert (E2 : B * A = 10 ^ Z.of_nat fz).
  { unfold B, A. rewrite <- Z.pow_add_r by lia. f_equal. lia. }
  assert (H10 : 0 < 10 ^ Z.of_nat fz) by (apply Z.pow_pos_nonneg; lia).
  apply (Z.mul_reg_r _ _ (10 ^ Z.of_nat fz)); [lia|].
  transitivity (G * A * A').
  - rewrite HG', <- E1. ring.
  - unfold G. rewrite <- E2. ring.
Qed.

(** ParseFloat and FormatFloat on a plain decimal of at most 15 digits. *)
Lemma short_decimal_round_trip (s : string) :
  isPlainDecimal s = true ->
  (digitCount s <= 15)%nat ->
  exists x,
    ParseFloat s = OK x
    /\ isPlainDecimal (FormatFloat x) = true
    /\ sameNumber (decimalValue (FormatFloat x)) (decimalValue s).
Proof.
  intros Hplain Hcount.
  destruct (plain_decimal_parts s Hplain) as (w & f & ip & F & Hip & HF & Es & Ec).
  rewrite Ec in Hcount.
  pose proof (decimalValue_parts w f ip F Hip HF) as Hval. rewrite <- Es in Hval.
  destruct (readFloat_plain w f ip F Hip HF) as [Hsp Hrf]. cbv zeta in Hsp, Hrf.
  rewrite <- Es in Hsp, Hrf.
  set (v := ip * 10 ^ Z.of_nat f + F) in *.
  assert (Hpf : 0 < 10 ^ Z.of_nat f) by (apply Z.pow_pos_nonneg; lia).
  assert (Hv : 0 <= v < 10 ^ 15).
  { split; [unfold v; nia|].
    assert (H1 : v < 10 ^ Z.of_nat (S w) * 10 ^ Z.of_nat f) by (unfold v; nia).
    rewrite <- Z.pow_add_r in H1 by lia.
    assert (H2 : 10 ^ (Z.of_nat (S w) + Z.of_nat f) <= 10 ^ 15)
      by (apply Z.pow_le_mono_r; lia).
    lia. }
  unfold ParseFloat. rewrite Hsp, Hrf. cbn [rest]. rewrite Hval.
  destruct (Z.eqb_spec v 0) as [E0|N0].
  - exists (Zero false). unfold numberValue. cbn [mant negative]. rewrite E0.
    split; [reflexivity|]. split; [reflexivity|].
    unfold sameNumber. cbn. lia.
  - assert (Hvpos : 0 < v) by lia.
    unfold numberValue. cbn [mant negative isHex expo].
    replace (v =? 0) with false by (symmetry; apply Z.eqb_neq; lia).
    destruct (numDigits_spec v ltac:(lia)) as (Hn1 & Hn2 & Hn3).
    assert (Hnd : (numDigits v <= 15)%nat).
    { specialize (Hn2 Hvpos).
      assert (H3 : 10 ^ (Z.of_nat (numDigits v) - 1) < 10 ^ 15) by lia.
      apply Z.pow_lt_mono_r_iff in H3; lia. }
    replace (310 <? Z.of_nat (numDigits v) + - Z.of_nat f) with false
      by (symmetry; apply Z.ltb_ge; lia).
    replace (Z.of_nat (numDigits v) + - Z.of_nat f <? -330) with false
      by (symmetry; apply Z.ltb_ge; lia).
    replace (Z.max 0 (- Z.of_nat f)) with 0 by lia.
    replace (Z.max 0 (- - Z.of_nat f)) with (Z.of_nat f) by lia.
    change (10 ^ 0) with 1. rewrite Z.mul_1_r.
    assert (Hd : 0 < 10 ^ Z.of_nat f <= 10 ^ 15)
      by (split; [assumption|apply Z.pow_le_mono_r; lia]).
    destruct (roundToFloat_decimal v (10 ^ Z.of_nat f) ltac:(lia) Hd)
      as (m & e & Hr & Hc & He & Hb).
    destruct (FormatFloat_of_decimal v f m e ltac:(lia) Hc He Hb)
      as (v' & f' & Hfmt & Hv' & Hsame).
    exists (Finite false m e). split; [exact Hr|]. rewrite Hfmt.
    split; [now apply isPlainDecimal_fmtF|].
    rewrite decimalValue_fmtF by assumption. exact Hsame.
Qed.

(** X15.  An amount of at most 15 digits keeps its value: a row (not the
    first, of 39 cells or more) whose amount, once the commas are gone, is
    a plain decimal of at most 15 digits (digits, or digits, a point and
    digits) gives a debit record whose amount is a plain decimal that
    stands for exactly the same number; only the way it is written may
    change (no leading or trailing zeros). *)
Theorem short_decimal_keeps_its_value :
  forall (rowIndex : nat) (row : Row),
    rowIndex <> 0%nat ->
    (39 <= List.length row)%nat ->
    isPlainDecimal (cleanedAmount row) = true ->
    (digitCount (cleanedAmount row) <= 15)%nat ->
    exists amount : string,
      extractRow rowIndex row = Some (Debit, [nth 0 row ""; nth 24 row ""; amount])
      /\ isPlainDecimal amount = true
      /\ sameNumber (decimalValue amount) (decimalValue (cleanedAmount row)).
Proof.
  intros rowIndex row Hi Hl Hplain Hcount.
  destruct (short_decimal_round_trip _ Hplain Hcount) as (x & Hp & Hout & Hsame).
  exists (FormatFloat x). split; [|split; assumption].
  unfold extractRow. fold (cleanedAmount row).
  apply Nat.eqb_neq in Hi. apply Nat.ltb_ge in Hl. rewrite Hi, Hl. cbn [orb].
  rewrite (plain_decimal_not_header _ Hplain), Hp.
  destruct (plainFrom_contains _ _ Hplain) as [_ Hminus].
  now rewrite (HasPrefix_contains _ _ Hminus).
Qed.

Lemma short_decimal_keeps_its_value_witness :
  exists amount : string,
    extractRow 1 (dataRow "REF1" "MEMO1" "0,012,345.67800")
    = Some (Debit, [nth 0 (dataRow "REF1" "MEMO1" "0,012,345.67800") "";
                    nth 24 (dataRow "REF1" "MEMO1" "0,012,345.67800") ""; amount])
    /\ isPlainDecimal amount = true
    /\ sameNumber (decimalValue amount)
         (decimalValue (cleanedAmount (dataRow "REF1" "MEMO1" "0,012,345.67800"))).
Proof.
  refine (short_decimal_keeps_its_value 1 (dataRow "REF1" "MEMO1" "0,012,345.67800") _ _ _ _).
  - discriminate.
  - vm_compute. lia.
  - vm_compute. reflexivity.
  - vm_compute. lia.
Defined.

(** X21.  A negative amount of at most 15 digits is written to the
    credits as its absolute value, exactly: a row (not the first, of 39
    cells or more) whose amount, once the commas are gone, is a minus sign
    and a plain decimal of at most 15 digits gives a credit record whose
    amount is a plain decimal that stands for the same number as the
    digits after the sign. *)
Theorem negative_short_decimal_is_a_credit :
  forall (rowIndex : nat) (row : Row) (s : string),
    rowIndex <> 0%nat ->
    (39 <= List.length row)%nat ->
    cleanedAmount row = String "-" s ->
    isPlainDecimal s = true ->
    (digitCount s <= 15)%nat ->
    exists amount : string,
      extractRow rowIndex row = Some (Credit, [nth 0 row ""; nth 24 row ""; amount])
      /\ isPlainDecimal amount = true
      /\ sameNumber (decimalValue amount) (decimalValue s).
Proof.
  intros rowIndex row s Hi Hl Hs Hplain Hcount.
  destruct (short_decimal_round_trip _ Hplain Hcount) as (x & Hp & Hout & Hsame).
  destruct (plainFrom_contains _ _ Hplain) as [_ Hminus].
  assert (Hplus : HasPrefix s "+" = false).
  { destruct s as [|c t]; [reflexivity|]. unfold isPlainDecimal in Hplain.
    cbn [plainFrom] in Hplain. cbn [HasPrefix].
    destruct (Ascii.eqb_spec c "+") as [->|]; [discriminate Hplain|reflexivity]. }
  assert (Hnan : x <> NaN).
  { intros ->. discriminate Hout. }
  pose proof (ParseFloat_minus s x Hplus (HasPrefix_contains _ _ Hminus) Hp Hnan) as Hneg.
  exists (FormatFloat x). split; [|split; assumption].
  unfold extractRow. fold (cleanedAmount row).
  apply Nat.eqb_neq in Hi. apply Nat.ltb_ge in Hl. rewrite Hi, Hl, Hs. cbn [orb].
  change (String.eqb (String "-" s) "") with false.
  change (String.eqb (String "-" s) "Amount") with false. cbn [orb].
  rewrite Hneg. cbn [HasPrefix]. change (Ascii.eqb "-" "-") with true. cbv iota.
  now rewrite Neg_involutive.
Qed.

Lemma negative_short_decimal_is_a_credit_witness :
  exists amount : string,
    extractRow 1 (dataRow "REF1" "MEMO1" "-1,234.50")
    = Some (Credit, [nth 0 (dataRow "REF1" "MEMO1" "-1,234.50") "";
                     nth 24 (dataRow "REF1" "MEMO1" "-1,234.50") ""; amount])
    /\ isPlainDecimal amount = true
    /\ sameNumber (decimalValue amount) (decimalValue "1234.50").
Proof.
  refine (negative_short_decimal_is_a_credit 1 (dataRow "REF1" "MEMO1" "-1,234.50") "1234.50"
            _ _ _ _ _).
  - discriminate.
  - vm_compute. lia.
  - vm_compute. reflexivity.
  - vm_compute. reflexivity.
  - vm_compute. lia.
Defined.

(** ** Reading the two texts back *)

Lemma special_byte_cases (c : ascii) :
  ((code c =? 10) || (code c =? 13) || Ascii.eqb c quote || Ascii.eqb c ",") = false ->
  c <> ","%char /\ code c <> 10 /\ c <> quote.
Proof.
  intros H. apply orb_false_iff in H. destruct H as [H Hcomma].
  apply orb_false_iff in H. destruct H as [H Hquote].
  apply orb_false_iff in H. destruct H as [Hlf _].
  apply Ascii.eqb_neq in Hcomma, Hquote. apply Z.eqb_neq in Hlf. auto.
Qed.

Lemma unquoted_split (a : string) :
  forall b s1 s2 : string,
    hasSpecialByte a = false -> hasSpecialByte b = false ->
    startsDelim s1 -> startsDelim s2 ->
    (a ++ s1 = b ++ s2)%string -> a = b /\ s1 = s2.
Proof.
  induction a as [|c a IH]; intros b s1 s2 Ha Hb H1 H2 E.
  - destruct b as [|d b]; [now split|exfalso].
    cbn [append] in E. subst s1. cbn [startsDelim] in H1.
    cbn [hasSpecialByte] in Hb. apply orb_false_iff in Hb. destruct Hb as [Hd _].
    apply special_byte_cases in Hd. tauto.
  - cbn [hasSpecialByte] in Ha. apply orb_false_iff in Ha. destruct Ha as [Hc Ha].
    destruct b as [|d b].
    + exfalso. cbn [append] in E. subst s2. cbn [startsDelim] in H2.
      apply special_byte_cases in Hc. tauto.
    + cbn [hasSpecialByte] in Hb. apply orb_false_iff in Hb. destruct Hb as [_ Hb].
      cbn [append] in E. injection E as -> E.
      destruct (IH b s1 s2 Ha Hb H1 H2 E) as [-> ->]. now split.
Qed.

Lemma quoted_split (a : string) :
  forall b s1 s2 : string,
    startsDelim s1 -> startsDelim s2 ->
    (escapeField a ++ String quote s1 = escapeField b ++ String quote s2)%string ->
    a = b /\ s1 = s2.
Proof.
  assert (Hq : forall s, startsDelim s -> forall t, s <> String quote t).
  { intros [|c s] Hs t E; [exact Hs|]. injection E as -> _.
    destruct Hs as [Hs|Hs]; discriminate Hs. }
  induction a as [|c a IH]; intros b s1 s2 H1 H2 E.
  - cbn [escapeField append] in E. destruct b as [|d b].
    + cbn [escapeField append] in E. injection E as ->. now split.
    + exfalso. cbn [escapeField] in E. destruct (Ascii.eqb_spec d quote) as [->|Hd].
      * cbn [append] in E. injection E as E. now apply (Hq s1 H1) in E.
      * cbn [append] in E. injection E as E _. now apply Hd.
  - cbn [escapeField] in E. destruct (Ascii.eqb_spec c quote) as [->|Hc].
    + destruct b as [|d b].
      * exfalso. cbn [escapeField append] in E. injection E as E.
        symmetry in E. now apply (Hq s2 H2) in E.
      * cbn [escapeField] in E. destruct (Ascii.eqb_spec d quote) as [->|Hd].
        -- cbn [append] in E. injection E as E.
           destruct (IH b s1 s2 H1 H2 E) as [-> ->]. now split.
        -- exfalso. cbn [append] in E. injection E as E _. now apply Hd.
    + destruct b as [|d b].
      * exfalso. cbn [escapeField append] in E. injection E as E _. now apply Hc.
      * cbn [escapeField] in E. destruct (Ascii.eqb_spec d quote) as [->|Hd].
        -- exfalso. cbn [append] in E. injection E as E _. now apply Hc.
        -- cbn [append] in E. injection E as -> E.
           destruct (IH b s1 s2 H1 H2 E) as [-> ->]. now split.
Qed.

Lemma unquoted_not_special (a : string) :
  fieldNeedsQuotes a = false -> hasSpecialByte a = false.
Proof.
  unfold fieldNeedsQuotes. destruct a as [|c a]; [reflexivity|].
  destruct (String.eqb _ _); [discriminate|].
  destruct (hasSpecialByte (String c a)); [discriminate|reflexivity].
Qed.

(** A field can be told from what follows it. *)
Lemma field_split (a b s1 s2 : string) :
  startsDelim s1 -> startsDelim s2 ->
  (encodeField a ++ s1 = encodeField b ++ s2)%string -> a = b /\ s1 = s2.
Proof.
  intros H1 H2. unfold encodeField.
  assert (Hmix : forall u t s s',
             hasSpecialByte u = false -> startsDelim s ->
             (String quote t ++ s' = u ++ s)%string -> False).
  { intros u t s s' Hu Hs E. destruct s as [|d s]; [exact Hs|].
    destruct u as [|c u]; cbn [append] in E; injection E as E _.
    - destruct Hs as [Hs|Hs];
        [rewrite Hs in E; discriminate E|rewrite <- E in Hs; discriminate Hs].
    - cbn [hasSpecialByte] in Hu. apply orb_false_iff in Hu. destruct Hu as [Hu _].
      apply special_byte_cases in Hu. symmetry in E. tauto. }
  destruct (fieldNeedsQuotes a) eqn:Ea; destruct (fieldNeedsQuotes b) eqn:Eb; intros E.
  - cbn [append] in E. injection E as E. rewrite !append_assoc in E. cbn [append] in E.
    now apply quoted_split.
  - exfalso. apply unquoted_not_special in Eb. exact (Hmix _ _ _ _ Eb H2 E).
  - exfalso. apply unquoted_not_special in Ea. symmetry in E. exact (Hmix _ _ _ _ Ea H1 E).
  - apply unquoted_split; try assumption; now apply unquoted_not_special.
Qed.

Lemma encodeRecord_three (a b c t : string) :
  (encodeRecord [a; b; c] ++ t
   = encodeField a ++ String "," (encodeField b ++ String "," (encodeField c ++ newline ++ t)))%string.
Proof.
  unfold encodeRecord, newline. cbn [encodeFields append].
  rewrite append_empty_r, !append_assoc. cbn [append].
  rewrite !append_assoc. cbn [append]. reflexivity.
Qed.

(** A line of three fields can be told from what follows it. *)
Lemma record_split (r1 r2 : list string) (t1 t2 : string) :
  List.length r1 = 3%nat -> List.length r2 = 3%nat ->
  (encodeRecord r1 ++ t1 = encodeRecord r2 ++ t2)%string -> r1 = r2 /\ t1 = t2.
Proof.
  destruct r1 as [|a1 [|b1 [|c1 [|]]]]; try discriminate.
  destruct r2 as [|a2 [|b2 [|c2 [|]]]]; try discriminate.
  intros _ _ E. rewrite !encodeRecord_three in E.
  apply field_split in E; [|now left..]. destruct E as [-> E]. injection E as E.
  apply field_split in E; [|now left..]. destruct E as [-> E]. injection E as E.
  apply field_split in E; [|now right..]. destruct E as [-> E]. injection E as E.
  now subst.
Qed.

(** The text of a list of records of three fields is that of no other. *)
Lemma encodeRecords_injective (rs1 : list (list string)) :
  forall rs2 : list (list string),
    Forall (fun r => List.length r = 3%nat) rs1 ->
    Forall (fun r => List.length r = 3%nat) rs2 ->
    encodeRecords rs1 = encodeRecords rs2 -> rs1 = rs2.
Proof.
  induction rs1 as [|r1 rs1 IH]; intros rs2 H1 H2 E.
  - symmetry in E. apply encodeRecords_empty in E. now subst.
  - destruct rs2 as [|r2 rs2]; [now apply encodeRecords_empty in E|].
    cbn [encodeRecords] in E. inversion H1; subst. inversion H2; subst.
    apply record_split in E; try assumption. destruct E as [-> E].
    f_equal. now apply IH.
Qed.

Lemma fileRecords_three (sheets : list Sheet) (records : list (Bucket * list string))
    (b : Bucket) :
  fileRecords sheets = OK records ->
  Forall (fun r => List.length r = 3%nat) (ofBucket b records).
Proof.
  intros H. apply Forall_forall. intros r Hr.
  apply ofBucket_In in Hr. destruct Hr as [b' Hr].
  destruct (fileRecords_In _ _ _ H Hr) as (j & row & He).
  destruct (extractRow_amount _ _ _ _ He) as (x & _ & ->). reflexivity.
Qed.

(** X16.  The two texts can be read back without doubt: two workbooks
    for which CleanSpreadsheet returns the same texts have the same credit
    records and the same debit records, field for field, whatever commas,
    quotes or line ends the references and memos hold. *)
Theorem texts_determine_the_records :
  forall (fs1 fs2 : FileSystem) (path1 path2 : string) (f1 f2 : File)
         (records1 records2 : list (Bucket * list string)),
    fs1 path1 = Some f1 ->
    fs2 path2 = Some f2 ->
    fileRecords (Sheets f1) = OK records1 ->
    fileRecords (Sheets f2) = OK records2 ->
    CleanSpreadsheet fs1 path1 = CleanSpreadsheet fs2 path2 ->
    ofBucket Credit records1 = ofBucket Credit records2
    /\ ofBucket Debit records1 = ofBucket Debit records2.
Proof.
  intros fs1 fs2 path1 path2 f1 f2 records1 records2 H1 H2 Hr1 Hr2.
  rewrite !CleanSpreadsheet_records. unfold OpenFile, GetSheetList.
  rewrite H1, H2. cbn [bind]. rewrite Hr1, Hr2. cbn [bind].
  intros E. apply OK_inj in E. injection E as Ec Ed.
  split; apply encodeRecords_injective; try assumption;
    eapply fileRecords_three; eassumption.
Qed.

Lemma texts_determine_the_records_witness :
  ofBucket Credit [(Debit, ["REF"; "MEMO"; "5"])] = ofBucket Credit [(Debit, ["REF"; "MEMO"; "5"])]
  /\ ofBucket Debit [(Debit, ["REF"; "MEMO"; "5"])] = ofBucket Debit [(Debit, ["REF"; "MEMO"; "5"])].
Proof.
  refine (texts_determine_the_records shortFiles shortFilesCopy "book.xlsx" "uploaded-1.xlsx"
            (mkFile "book.xlsx" [shortSheet])
            (mkFile "uploaded-1.xlsx" [mkSheet "Sheet1" [] (Rows shortSheet)])
            _ _ eq_refl eq_refl _ _ _).
  - vm_compute. reflexivity.
  - vm_compute. reflexivity.
  - vm_compute. reflexivity.
Defined.

(** ** Sheets without empty rows *)

Lemma Subsequence_Forall {A : Type} (P : A -> Prop) (l1 l2 : list A) :
  Subsequence l1 l2 -> Forall P l2 -> Forall P l1.
Proof.
  induction 1 as [|x l1 l2 H IH|x l1 l2 H IH]; intros HF.
  - constructor.
  - inversion HF; subst. auto.
  - inversion HF; subst. constructor; auto.
Qed.

Lemma trimTrailingEmpty_all (l : list Row) :
  Forall (fun row => row <> []) l -> trimTrailingEmpty l = l.
Proof.
  induction 1 as [|r l Hr Hl IH]; [reflexivity|].
  cbn [trimTrailingEmpty]. rewrite IH. destruct l; [|reflexivity].
  destruct r; [contradiction|reflexivity].
Qed.

(** X17.  For a sheet in which every row holds a cell the outcome of the
    trim depends on the number [n] of its rows alone: with fewer than 28
    rows it fails with an invalid row number, and with 28 rows or more it
    succeeds and leaves [max (n - 25) (n / 2) - 7] rows: the first loop
    removes 25 rows, or every other row while fewer than 50 are there, and
    the second loop 7. *)
Theorem trim_by_number_of_rows :
  forall sh : Sheet,
    Forall (fun row => row <> []) (Rows sh) ->
    if (List.length (Rows sh) <? 28)%nat
    then exists row, row <= 0 /\ trimSheet sh = Err (ErrInvalidRowNumber row)
    else exists sh',
        trimSheet sh = OK sh'
        /\ List.length (Rows sh')
           = (Nat.max (List.length (Rows sh) - 25) (List.length (Rows sh) / 2) - 7)%nat.
Proof.
  intros sh Hall.
  destruct (trimSheet_rows sh) as [merges ->]. unfold trimmedRows.
  set (rows1 := dropAlternate 25 (Rows sh)).
  assert (Hall1 : Forall (fun row => row <> []) rows1).
  { apply (Subsequence_Forall _ _ (Rows sh)); [apply Subsequence_dropAlternate|exact Hall]. }
  rewrite (trimTrailingEmpty_all _ Hall1).
  assert (Hlen : List.length rows1
                 = Nat.max (List.length (Rows sh) - 25) (List.length (Rows sh) / 2)).
  { unfold rows1. rewrite length_dropAlternate.
    set (n := List.length (Rows sh)).
    pose proof (Nat.div_mod_eq n 2) as E1.
    pose proof (Nat.mod_upper_bound n 2 ltac:(lia)) as E2.
    pose proof (Nat.div_mod_eq (n + 1) 2) as E3.
    pose proof (Nat.mod_upper_bound (n + 1) 2 ltac:(lia)) as E4.
    lia. }
  set (n := List.length (Rows sh)) in *.
  pose proof (Nat.div_mod_eq n 2) as E1.
  pose proof (Nat.mod_upper_bound n 2 ltac:(lia)) as E2.
  destruct (Nat.ltb_spec n 28) as [Hn|Hn].
  - destruct (Z.ltb_spec (Z.of_nat (List.length rows1)) 14) as [Hlt|Hge]; [|lia].
    eexists. split; [|reflexivity]. lia.
  - destruct (Z.ltb_spec (Z.of_nat (List.length rows1)) 14) as [Hlt|Hge]; [lia|].
    eexists. split; [reflexivity|]. cbn [Rows].
    set (k := Z.to_nat (Z.of_nat (List.length rows1) - 14)).
    assert (Hs : List.length (skipn k rows1) = 14%nat)
      by (rewrite length_skipn; unfold k; lia).
    rewrite length_app, length_firstn, length_dropAlternate, Hs.
    change ((14 + 1) / 2)%nat with 7%nat. unfold k. lia.
Qed.

Lemma trim_by_number_of_rows_witness :
  (exists row, row <= 0
               /\ trimSheet (mkSheet "Sheet1" [] (numberedRows 27)) = Err (ErrInvalidRowNumber row))
  /\ (exists sh',
         trimSheet (mkSheet "Sheet1" [] (numberedRows 41)) = OK sh'
         /\ List.length (Rows sh') = 13%nat).
Proof.
  split.
  - refine (trim_by_number_of_rows (mkSheet "Sheet1" [] (numberedRows 27)) _).
    vm_compute. repeat constructor; discriminate.
  - refine (trim_by_number_of_rows (mkSheet "Sheet1" [] (numberedRows 41)) _).
    vm_compute. repeat constructor; discriminate.
Defined.

(** ** Where the records come from *)

Lemma Subsequence_In {A : Type} (l1 l2 : list A) (x : A) :
  Subsequence l1 l2 -> In x l1 -> In x l2.
Proof.
  induction 1 as [|y l1 l2 H IH|y l1 l2 H IH]; intros Hin.
  - exact Hin.
  - right. auto.
  - destruct Hin as [->|Hin]; [now left|right; auto].
Qed.

Lemma trimTrailingEmpty_incl (l : list Row) (row : Row) :
  In row (trimTrailingEmpty l) -> In row l.
Proof.
  induction l as [|r l IH]; [auto|]. cbn [trimTrailingEmpty].
  destruct (trimTrailingEmpty l) as [|r' l'].
  - destruct r; [intros []|]. intros [->|[]]. now left.
  - intros [->|Hin]; [now left|right; auto].
Qed.

Lemma rowRecords_row (rows : list Row) :
  forall (rowIndex : nat) (r : Bucket * list string),
    In r (rowRecords rowIndex rows) ->
    exists j row, In row rows /\ extractRow j row = Some r.
Proof.
  induction rows as [|row rows IH]; intros rowIndex r H; [destruct H|].
  cbn [rowRecords] in H.
  assert (Hrest : In r (rowRecords (S rowIndex) rows) ->
                  exists j row', In row' (row :: rows) /\ extractRow j row' = Some r).
  { intros H'. destruct (IH _ _ H') as (j & row' & Hin & He).
    exists j, row'. split; [now right|exact He]. }
  destruct (extractRow rowIndex row) as [r'|] eqn:E; [|auto].
  destruct H as [->|H]; [|auto].
  exists rowIndex, row. split; [now left|exact E].
Qed.

Lemma extractRow_source (rowIndex : nat) (row : Row) (b : Bucket) (record : list string) :
  extractRow rowIndex row = Some (b, record) ->
  (39 <= List.length row)%nat
  /\ (exists amount, record = [nth 0 row ""; nth 24 row ""; amount])
  /\ HasPrefix (cleanedAmount row) "-" = isCredit b.
Proof.
  unfold extractRow. fold (cleanedAmount row).
  destruct (Nat.eqb rowIndex 0); [discriminate|].
  destruct (Nat.ltb_spec (List.length row) 39) as [|Hl]; [discriminate|]. cbn [orb].
  destruct (_ || _); [discriminate|].
  destruct (ParseFloat (cleanedAmount row)); [|discriminate].
  destruct (HasPrefix (cleanedAmount row) "-"); intros [= <- <-]; eauto.
Qed.

Lemma fileRecords_source (sheets : list Sheet) :
  forall (records : list (Bucket * list string)) (b : Bucket) (record : list string),
    fileRecords sheets = OK records ->
    In (b, record) records ->
    fromRowOf sheets (isCredit b) record.
Proof.
  induction sheets as [|sh sheets IH]; intros records b record H Hin.
  - apply OK_inj in H. subst records. destruct Hin.
  - cbn [fileRecords] in H. unfold sheetRecords in H.
    destruct (trimSheet sh) as [sh'|] eqn:Et; [|discriminate]. cbn [bind GetRows] in H.
    destruct (fileRecords sheets) as [records'|]; [|discriminate].
    cbn [bind] in H. apply OK_inj in H. subst records. apply in_app_or in Hin.
    destruct Hin as [Hin|Hin].
    + apply rowRecords_row in Hin. destruct Hin as (j & row & Hrow & He).
      apply trimTrailingEmpty_incl in Hrow.
      destruct (trimSheet_subsequence sh sh' Et) as [_ Hsub].
      apply (Subsequence_In _ _ _ Hsub) in Hrow.
      destruct (extractRow_source _ _ _ _ He) as (Hl & [amount ->] & Hm).
      exists sh, row, amount. repeat split; auto. now left.
    + destruct (IH records' b record eq_refl Hin)
        as (sh0 & row & amount & Hsh & Hrow & Hl & Hr & Hm).
      exists sh0, row, amount. repeat split; auto. now right.
Qed.

Lemma ofBucket_bucket (b : Bucket) (records : list (Bucket * list string))
    (record : list string) :
  In record (ofBucket b records) -> In (b, record) records.
Proof.
  unfold ofBucket. intros H. apply in_map_iff in H. destruct H as ([b' r] & <- & H).
  apply filter_In in H. destruct H as [H Hb]. cbn [fst snd] in *.
  destruct b, b'; try discriminate Hb; exact H.
Qed.

(** X18.  No record is made up: every line of the credit text holds the
    reference and the memo of one and the same row of a sheet of the
    workbook, a row of 39 cells or more whose amount (without commas)
    starts with a minus sign; every line of the debit text those of such a
    row whose amount does not. *)
Theorem every_record_comes_from_one_row :
  forall (fs : FileSystem) (filePath : string) (f : File) (credits debits : string),
    fs filePath = Some f ->
    CleanSpreadsheet fs filePath = OK (credits, debits) ->
    exists creditRecords debitRecords : list (list string),
      credits = encodeRecords creditRecords
      /\ debits = encodeRecords debitRecords
      /\ (forall record, In record creditRecords -> fromRowOf (Sheets f) true record)
      /\ (forall record, In record debitRecords -> fromRowOf (Sheets f) false record).
Proof.
  intros fs filePath f credits debits Hf.
  rewrite CleanSpreadsheet_records. unfold OpenFile, GetSheetList. rewrite Hf. cbn [bind].
  destruct (fileRecords (Sheets f)) as [records|] eqn:Er; [|discriminate]. cbn [bind].
  intros H. apply OK_inj in H. injection H as <- <-.
  exists (ofBucket Credit records), (ofBucket Debit records).
  split; [reflexivity|]. split; [reflexivity|].
  split; intros record Hin; apply ofBucket_bucket in Hin.
  - exact (fileRecords_source _ _ Credit record Er Hin).
  - exact (fileRecords_source _ _ Debit record Er Hin).
Qed.

Lemma every_record_comes_from_one_row_witness :
  exists creditRecords debitRecords : list (list string),
    "" = encodeRecords creditRecords
    /\ ("REF,MEMO,5" ++ newline)%string = encodeRecords debitRecords
    /\ (forall record, In record creditRecords -> fromRowOf [shortSheet] true record)
    /\ (forall record, In record debitRecords -> fromRowOf [shortSheet] false record).
Proof.
  refine (every_record_comes_from_one_row shortFiles "book.xlsx" (mkFile "book.xlsx" [shortSheet])
            "" ("REF,MEMO,5" ++ newline)%string eq_refl _).
  vm_compute. reflexivity.
Defined.

(** ** When an amount is no decimal *)

Lemma word_no_digit (c : ascii) :
  let c' := if (65 <=? code c) && (code c <=? 90) then code c + 32 else code c in
  (c' =? code "i") || (c' =? code "n") || (c' =? code "f") || (c' =? code "t")
  || (c' =? code "y") || (c' =? code "a") = true ->
  noDigit c = true.
Proof.
  destruct c as [[] [] [] [] [] [] [] []]; intros c' H; try discriminate H; reflexivity.
Qed.

(** ParseFloat returns an infinity or a NaN only for a string without a
    digit. *)
Lemma ParseFloat_finite (s : string) (x : float64) :
  allBytes noDigit s = false ->
  ParseFloat s = OK x ->
  match x with
  | Zero _ | Finite _ _ _ => True
  | _ => False
  end.
Proof.
  intros Hd. unfold ParseFloat. destruct (special s) as [[v n]|] eqn:Es.
  - destruct (Nat.eqb_spec n (String.length s)) as [->|]; [|discriminate].
    apply (special_all noDigit word_no_digit eq_refl eq_refl) in Es. congruence.
  - destruct (readFloat s) as [y|] eqn:Er; [|discriminate].
    apply readFloat_fields in Er. destruct Er as [_ Hm].
    destruct (rest y); [|discriminate]. intros H.
    apply (numberValue_printable y x Hm) in H.
    destruct x; try contradiction; exact I.
Qed.

(** X19.  NaN and +Inf are written only for cells that spell them: a row
    whose amount holds at least one digit gives, if it gives a record at
    all, an amount that is a plain decimal. *)
Theorem amount_with_a_digit_is_a_decimal :
  forall (rowIndex : nat) (row : Row) (bucket : Bucket) (record : list string),
    allBytes noDigit (cleanedAmount row) = false ->
    extractRow rowIndex row = Some (bucket, record) ->
    isPlainDecimal (amountOf record) = true.
Proof.
  intros rowIndex row bucket record Hd. unfold extractRow. fold (cleanedAmount row).
  destruct (_ || _); [discriminate|].
  destruct (_ || _); [discriminate|].
  destruct (ParseFloat (cleanedAmount row)) as [x|] eqn:Hp; [|discriminate].
  pose proof (ParseFloat_finite _ _ Hd Hp) as Hfin.
  pose proof (ParseFloat_printable _ _ Hp) as Hpr.
  destruct (HasPrefix (cleanedAmount row) "-"); intros [= <- <-];
    unfold amountOf; cbn [nth].
  - pose proof (FormatFloat_shape _ Hpr) as [Hs _].
    destruct x; try contradiction; exact Hs.
  - pose proof (FormatFloat_shape _ Hpr) as [Hs _].
    destruct x; try contradiction; exact Hs.
Qed.

Lemma amount_with_a_digit_is_a_decimal_witness :
  isPlainDecimal (amountOf ["REF1"; "MEMO1"; "1000"]) = true.
Proof.
  refine (amount_with_a_digit_is_a_decimal 1 (dataRow "REF1" "MEMO1" "-1e3") Credit
            ["REF1"; "MEMO1"; "1000"] _ _).
  - vm_compute. reflexivity.
  - vm_compute. reflexivity.
Defined.

(** ** Decimals of any length *)

Lemma pow2_997 : 10 ^ 300 < 2 ^ 997. Proof. reflexivity. Qed.

(** The float64 nearest to [n / d], for [10^-300 <= n / d < 10^300]: it is
    a normal one, and [n / d] is at most half a unit of its last place
    away. *)
Lemma roundToFloat_normal (n d : Z) :
  0 < n -> 0 < d ->
  d <= n * 10 ^ 300 ->
  n < d * 10 ^ 300 ->
  exists m e,
    roundToFloat false n d = OK (Finite false m e)
    /\ canonical m e /\ 2 ^ 52 <= m
    /\ cmp2 ((4 * m - 2) * d) n (e - 2) <> Gt
    /\ cmp2 ((4 * m + 2) * d) n (e - 2) <> Lt.
Proof.
  intros Hn Hd Hlow Hhigh.
  destruct (floorLog2_spec n d Hn Hd) as [Hlo Hhi].
  set (k := floorLog2 n d) in *.
  pose proof pow2_997 as H997.
  assert (Hk : -998 <= k <= 996).
  { set (c300 := 10 ^ 300) in *. set (c997 := 2 ^ 997) in *. split.
    - destruct (Z.le_gt_cases (-998) k) as [|Hk]; [assumption|exfalso].
      unfold cmp2 in Hhi. rewrite pow2Num_nonpos, pow2Den_nonpos in Hhi by lia.
      apply Z.compare_gt_iff in Hhi.
      assert (H1 : c997 <= 2 ^ (- (k + 1))) by (apply Z.pow_le_mono_r; lia).
      assert (H2 : n * c997 <= n * 2 ^ (- (k + 1))) by (apply Z.mul_le_mono_nonneg_l; lia).
      assert (H3 : n * c300 < n * c997) by (apply Z.mul_lt_mono_pos_l; lia).
      lia.
    - destruct (Z.le_gt_cases k 996) as [|Hk]; [assumption|exfalso].
      unfold cmp2 in Hlo. rewrite pow2Num_nonneg, pow2Den_nonneg in Hlo by lia.
      apply -> Z.compare_le_iff in Hlo.
      assert (H1 : c997 <= 2 ^ k) by (apply Z.pow_le_mono_r; lia).
      assert (H2 : d * c997 <= d * 2 ^ k) by (apply Z.mul_le_mono_nonneg_l; lia).
      assert (H3 : d * c300 < d * c997) by (apply Z.mul_lt_mono_pos_l; lia).
      lia. }
  clear H997 Hlow Hhigh.
  set (e0 := k - 52).
  (* the bounds of the binade, at the scale of the rounding *)
  assert (H1 : cmp2 (2 ^ 53 * d) n (e0 - 1) <> Gt).
  { rewrite <- (cmp2_pow d n 53 (e0 - 1) k) by (unfold e0; lia). exact Hlo. }
  assert (H2 : cmp2 (2 ^ 54 * d) n (e0 - 1) = Gt).
  { rewrite <- (cmp2_pow d n 54 (e0 - 1) (k + 1)) by (unfold e0; lia). exact Hhi. }
  destruct (roundScaled_spec n d e0 Hd) as [Hs1 Hs2].
  set (M := roundScaled n d e0) in *.
  assert (HM1 : 2 ^ 53 <= 2 * M + 1) by (apply (cmp2_coeff_le _ _ d n (e0 - 1)); assumption).
  assert (HM2 : 2 * M - 1 < 2 ^ 54) by (apply (cmp2_coeff_lt _ _ d n (e0 - 1)); assumption).
  change (2 ^ 53) with 9007199254740992 in HM1.
  change (2 ^ 54) with 18014398509481984 in HM2.
  unfold roundToFloat. fold k. unfold mantbits.
  replace (Z.max (k - 52) minExp) with e0 by (unfold e0, minExp; lia).
  fold M. change (2 ^ (52 + 1)) with 9007199254740992. change (2 ^ 52) with 4503599627370496.
  (* half units at the scale [e0 - 1] are quarter units at the scale [e0 - 2] *)
  assert (Hscale : forall c, cmp2 (c * d) n (e0 - 1) = cmp2 (2 * c * d) n (e0 - 2)).
  { intros c. rewrite (cmp2_pow (c * d) n 1 (e0 - 2) (e0 - 1)) by lia.
    f_equal. change (2 ^ 1) with 2. ring. }
  destruct (Z.eqb_spec M 9007199254740992) as [EM|NM].
  - exists 4503599627370496, (e0 + 1).
    replace (maxExp <? e0 + 1) with false
      by (symmetry; apply Z.ltb_ge; unfold e0, maxExp; lia).
    change (4503599627370496 =? 0) with false. cbv iota.
    split; [reflexivity|]. split.
    { unfold canonical, minExp, maxExp, e0. change (2 ^ 53) with 9007199254740992.
      change (2 ^ 52) with 4503599627370496. lia. }
    split; [lia|].
    replace (e0 + 1 - 2) with (e0 - 1) by lia. split.
    + apply (cmp2_coeff_not_Gt _ (2 * M - 1) d n (e0 - 1) Hd); [lia|assumption].
    + assert (H3 : cmp2 ((4 * 4503599627370496 + 2) * d) n (e0 - 1) = Gt).
      { apply (cmp2_coeff_Gt 18014398509481984 _ d n (e0 - 1) Hd); [lia|].
        change 18014398509481984 with (2 ^ 54). exact H2. }
      rewrite H3. discriminate.
  - exists M, e0.
    replace (maxExp <? e0) with false
      by (symmetry; apply Z.ltb_ge; unfold e0, maxExp; lia).
    replace (M =? 0) with false by (symmetry; apply Z.eqb_neq; lia).
    split; [reflexivity|]. split.
    { unfold canonical, minExp, maxExp, e0. change (2 ^ 53) with 9007199254740992.
      change (2 ^ 52) with 4503599627370496. lia. }
    split; [lia|]. split.
    + replace (4 * M - 2) with (2 * (2 * M - 1)) by ring. now rewrite <- Hscale.
    + replace (4 * M + 2) with (2 * (2 * M + 1)) by ring. now rewrite <- Hscale.
Qed.

(** Two fractions within the same bounds of four quarter units differ by
    little. *)
Lemma close_within_bounds (m v v' A A' Pn Pd : Z) :
  2 ^ 52 <= m -> 0 < A -> 0 < A' -> 0 < Pn -> 0 < Pd ->
  (4 * m - 2) * A * Pn <= v * Pd <= (4 * m + 2) * A * Pn ->
  (4 * m - 2) * A' * Pn <= v' * Pd <= (4 * m + 2) * A' * Pn ->
  Z.abs (v' * A - v * A') * 2 ^ 51 <= v * A'.
Proof.
  intros Hm HA HA' HPn HPd [Hv1 Hv2] [Hv1' Hv2'].
  change (2 ^ 52) with 4503599627370496 in Hm. change (2 ^ 51) with 2251799813685248.
  set (W := A * A' * Pn).
  assert (HW : 0 < W) by (unfold W; apply Z.mul_pos_pos; [apply Z.mul_pos_pos|]; assumption).
  (* everything over the common denominator *)
  assert (E1 : (4 * m - 2) * W <= v * A' * Pd).
  { replace ((4 * m - 2) * W) with ((4 * m - 2) * A * Pn * A') by (unfold W; ring).
    replace (v * A' * Pd) with (v * Pd * A') by ring.
    apply Z.mul_le_mono_nonneg_r; lia. }
  assert (E2 : v * A' * Pd <= (4 * m + 2) * W).
  { replace ((4 * m + 2) * W) with ((4 * m + 2) * A * Pn * A') by (unfold W; ring).
    replace (v * A' * Pd) with (v * Pd * A') by ring.
    apply Z.mul_le_mono_nonneg_r; lia. }
  assert (E1' : (4 * m - 2) * W <= v' * A * Pd).
  { replace ((4 * m - 2) * W) with ((4 * m - 2) * A' * Pn * A) by (unfold W; ring).
    replace (v' * A * Pd) with (v' * Pd * A) by ring.
    apply Z.mul_le_mono_nonneg_r; lia. }
  assert (E2' : v' * A * Pd <= (4 * m + 2) * W).
  { replace ((4 * m + 2) * W) with ((4 * m + 2) * A' * Pn * A) by (unfold W; ring).
    replace (v' * A * Pd) with (v' * Pd * A) by ring.
    apply Z.mul_le_mono_nonneg_r; lia. }
  set (X := v * A') in *. set (Y := v' * A) in *.
  assert (HmW : 4503599627370496 * W <= m * W) by (apply Z.mul_le_mono_nonneg_r; lia).
  assert (Hdiff : Z.abs (Y - X) * Pd <= 4 * W).
  { replace (Z.abs (Y - X) * Pd) with (Z.abs (Y * Pd - X * Pd)).
    - apply Z.abs_le. lia.
    - rewrite <- Z.mul_sub_distr_r, Z.abs_mul, (Z.abs_eq Pd) by lia. reflexivity. }
  apply (Z.mul_le_mono_pos_r _ _ Pd HPd).
  replace (Z.abs (Y - X) * 2251799813685248 * Pd)
    with (2251799813685248 * (Z.abs (Y - X) * Pd)) by ring.
  lia.
Qed.

(** The shortest decimal of a normal float64, as a fraction within its
    rounding bounds. *)
Lemma FormatFloat_within_bounds (m e : Z) :
  canonical m e ->
  exists (v' : Z) (f' : nat),
    FormatFloat (Finite false m e) = fmtF v' f'
    /\ 0 < v'
    /\ cmp2 ((4 * m - 2) * 10 ^ Z.of_nat f') (v' * 1) (e - 2) <> Gt
    /\ cmp2 ((4 * m + 2) * 10 ^ Z.of_nat f') (v' * 1) (e - 2) <> Lt.
Proof.
  intros Hc. pose proof Hc as (Hm & He & Hnorm). unfold minExp, maxExp in He.
  cbn [FormatFloat signString]. unfold shortest, computeBounds.
  set (lo4 := if (m =? 2 ^ mantbits) && (minExp <? e) then 4 * m - 1 else 4 * m - 2).
  set (fz := Z.max 0 (- (e - 2))).
  set (unit := 2 ^ Z.max 0 (e - 2) * 5 ^ fz).
  set (U := (4 * m + 2) * unit).
  set (V := shortestFrom (Z.even m) (lo4 * unit) (4 * m * unit) U (numDigits U)).
  assert (Hunit : 0 < unit).
  { unfold unit. apply Z.mul_pos_pos; apply Z.pow_pos_nonneg; lia. }
  assert (Hlo4 : 4 * m - 2 <= lo4 < 4 * m) by (unfold lo4; destruct (_ && _); lia).
  assert (HX : lo4 * unit < 4 * m * unit < U)
    by (unfold U; split; apply Z.mul_lt_mono_pos_r; lia).
  assert (HV : lo4 * unit <= V <= U).
  { pose proof (shortestFrom_in (Z.even m) (lo4 * unit) (4 * m * unit) U (numDigits U) HX)
      as H.
    fold V in H. destruct (Z.even m); lia. }
  replace (Z.to_nat (- (e - 2))) with (Z.to_nat fz) by (unfold fz; lia).
  destruct (trimZeros_spec (Z.to_nat fz) V) as [Hf' HVv].
  destruct (trimZeros (Z.to_nat fz) V) as [v' f']. cbn [fst snd] in *.
  rewrite Z2Nat.id in HVv by (unfold fz; lia).
  assert (Hf'z : Z.of_nat f' <= fz) by lia.
  assert (Hlo4pos : 0 < lo4 * unit) by (apply Z.mul_pos_pos; lia).
  assert (HVpos : 0 < V) by lia.
  assert (H10 : 0 < 10 ^ (fz - Z.of_nat f')) by (apply Z.pow_pos_nonneg; lia).
  assert (Hv' : 0 < v').
  { destruct (Z.lt_ge_cases 0 v') as [|Hneg]; [assumption|exfalso].
    assert (v' * 10 ^ (fz - Z.of_nat f') <= 0) by (apply Z.mul_nonpos_nonneg; lia). lia. }
  exists v', f'. split; [reflexivity|]. split; [assumption|].
  pose proof (cmp2_decimal lo4 v' V (e - 2) f' Hf'z HVv) as Clo.
  pose proof (cmp2_decimal (4 * m + 2) v' V (e - 2) f' Hf'z HVv) as Chi.
  fold fz unit U in Clo, Chi.
  assert (HA : 0 < 10 ^ Z.of_nat f') by (apply Z.pow_pos_nonneg; lia).
  split.
  - apply (cmp2_coeff_not_Gt _ lo4 _ _ _ HA); [lia|].
    rewrite Clo. apply Z.compare_le_iff. lia.
  - rewrite Chi. apply Z.compare_ge_iff. lia.
Qed.

(** ParseFloat and FormatFloat on a plain decimal of at most 300 digits. *)
Lemma long_decimal_round_trip (s : string) :
  isPlainDecimal s = true ->
  (digitCount s <= 300)%nat ->
  exists x,
    ParseFloat s = OK x
    /\ isPlainDecimal (FormatFloat x) = true
    /\ closeNumbers (decimalValue (FormatFloat x)) (decimalValue s).
Proof.
  intros Hplain Hcount.
  destruct (plain_decimal_parts s Hplain) as (w & f & ip & F & Hip & HF & Es & Ec).
  rewrite Ec in Hcount.
  pose proof (decimalValue_parts w f ip F Hip HF) as Hval. rewrite <- Es in Hval.
  destruct (readFloat_plain w f ip F Hip HF) as [Hsp Hrf]. cbv zeta in Hsp, Hrf.
  rewrite <- Es in Hsp, Hrf.
  set (v := ip * 10 ^ Z.of_nat f + F) in *.
  set (A := 10 ^ Z.of_nat f) in *.
  assert (HA : 0 < A) by (apply Z.pow_pos_nonneg; lia).
  assert (HA300 : A <= 10 ^ 300) by (apply Z.pow_le_mono_r; lia).
  assert (Hv0 : 0 <= v) by (unfold v; nia).
  assert (Hvhi : v < A * 10 ^ 300).
  { assert (H1 : v < 10 ^ Z.of_nat (S w) * A) by (unfold v; nia).
    assert (H2 : 10 ^ Z.of_nat (S w) <= 10 ^ 300) by (apply Z.pow_le_mono_r; lia).
    assert (H3 : 10 ^ Z.of_nat (S w) * A <= 10 ^ 300 * A)
      by (apply Z.mul_le_mono_nonneg_r; lia).
    lia. }
  unfold ParseFloat. rewrite Hsp, Hrf. cbn [rest]. rewrite Hval.
  destruct (Z.eqb_spec v 0) as [E0|N0].
  - exists (Zero false). unfold numberValue. cbn [mant negative]. rewrite E0.
    split; [reflexivity|]. split; [reflexivity|].
    unfold closeNumbers. cbn. lia.
  - assert (Hvpos : 0 < v) by lia.
    unfold numberValue. cbn [mant negative isHex expo].
    replace (v =? 0) with false by (symmetry; apply Z.eqb_neq; lia).
    destruct (numDigits_spec v ltac:(lia)) as (Hn1 & Hn2 & Hn3).
    assert (Hnd : (numDigits v <= 300)%nat).
    { specialize (Hn2 Hvpos).
      assert (H2 : v < 10 ^ (Z.of_nat (S w) + Z.of_nat f)).
      { rewrite Z.pow_add_r by lia. fold A. unfold v. nia. }
      assert (H3 : 10 ^ (Z.of_nat (numDigits v) - 1) < 10 ^ (Z.of_nat (S w) + Z.of_nat f))
        by lia.
      apply Z.pow_lt_mono_r_iff in H3; lia. }
    replace (310 <? Z.of_nat (numDigits v) + - Z.of_nat f) with false
      by (symmetry; apply Z.ltb_ge; lia).
    replace (Z.of_nat (numDigits v) + - Z.of_nat f <? -330) with false
      by (symmetry; apply Z.ltb_ge; lia).
    replace (Z.max 0 (- Z.of_nat f)) with 0 by lia.
    replace (Z.max 0 (- - Z.of_nat f)) with (Z.of_nat f) by lia.
    change (10 ^ 0) with 1. rewrite Z.mul_1_r. fold A.
    assert (Hlow : A <= v * 10 ^ 300).
    { assert (10 ^ 300 <= v * 10 ^ 300)
        by (rewrite <- (Z.mul_1_l (10 ^ 300)) at 1; apply Z.mul_le_mono_nonneg_r; lia).
      lia. }
    destruct (roundToFloat_normal v A Hvpos HA Hlow Hvhi) as (m & e & Hr & Hc & Hm & Hb1 & Hb2).
    destruct (FormatFloat_within_bounds m e Hc) as (v' & f' & Hfmt & Hv' & Hb1' & Hb2').
    exists (Finite false m e). split; [exact Hr|]. rewrite Hfmt.
    split; [apply isPlainDecimal_fmtF; lia|].
    rewrite decimalValue_fmtF by lia.
    unfold closeNumbers. cbn [fst snd]. fold A.
    set (A' := 10 ^ Z.of_nat f') in *.
    assert (HA' : 0 < A') by (apply Z.pow_pos_nonneg; lia).
    unfold cmp2 in Hb1, Hb2, Hb1', Hb2'. rewrite Z.mul_1_r in Hb1', Hb2'.
    apply -> Z.compare_le_iff in Hb1. apply -> Z.compare_ge_iff in Hb2.
    apply -> Z.compare_le_iff in Hb1'. apply -> Z.compare_ge_iff in Hb2'.
    apply (close_within_bounds m v v' A A' (pow2Num (e - 2)) (pow2Den (e - 2)));
      try assumption; try apply pow2Num_pos; try apply pow2Den_pos; split; lia.
Qed.

(** X22.  A plain decimal of at most 300 digits is never skipped, and
    comes out within one part in [2^51] of itself: a row (not the first, of
    39 cells or more) whose amount, once the commas are gone, is a plain
    decimal of at most 300 digits gives a debit record, and the amount of
    the record is a plain decimal that differs from that of the cell by at
    most its [2^51]th part. *)
Theorem plain_decimal_is_kept_and_close :
  forall (rowIndex : nat) (row : Row),
    rowIndex <> 0%nat ->
    (39 <= List.length row)%nat ->
    isPlainDecimal (cleanedAmount row) = true ->
    (digitCount (cleanedAmount row) <= 300)%nat ->
    exists amount : string,
      extractRow rowIndex row = Some (Debit, [nth 0 row ""; nth 24 row ""; amount])
      /\ isPlainDecimal amount = true
      /\ closeNumbers (decimalValue amount) (decimalValue (cleanedAmount row)).
Proof.
  intros rowIndex row Hi Hl Hplain Hcount.
  destruct (long_decimal_round_trip _ Hplain Hcount) as (x & Hp & Hout & Hclose).
  exists (FormatFloat x). split; [|split; assumption].
  unfold extractRow. fold (cleanedAmount row).
  apply Nat.eqb_neq in Hi. apply Nat.ltb_ge in Hl. rewrite Hi, Hl. cbn [orb].
  rewrite (plain_decimal_not_header _ Hplain), Hp.
  destruct (plainFrom_contains _ _ Hplain) as [_ Hminus].
  now rewrite (HasPrefix_contains _ _ Hminus).
Qed.

Lemma plain_decimal_is_kept_and_close_witness :
  exists amount : string,
    extractRow 1 (dataRow "REF1" "MEMO1" "12,345,678,901,234,567.89")
    = Some (Debit, [nth 0 (dataRow "REF1" "MEMO1" "12,345,678,901,234,567.89") "";
                    nth 24 (dataRow "REF1" "MEMO1" "12,345,678,901,234,567.89") ""; amount])
    /\ isPlainDecimal amount = true
    /\ closeNumbers (decimalValue amount)
         (decimalValue (cleanedAmount (dataRow "REF1" "MEMO1" "12,345,678,901,234,567.89"))).
Proof.
  refine (plain_decimal_is_kept_and_close 1
            (dataRow "REF1" "MEMO1" "12,345,678,901,234,567.89") _ _ _ _).
  - discriminate.
  - vm_compute. lia.
  - vm_compute. reflexivity.
  - vm_compute. lia.
Defined.
